(** * Search App: the search service, the [useSearch] hook and the URL mirror

    A shallow embedding of
    - [src/services/api.ts]      (class [SearchAPI]),
    - [src/services/logger.ts]   (class [Logger] and its two instances),
    - [src/hooks/useSearch.ts]   (the [useSearch] hook),
    - [src/components/SearchInput.tsx] (the URL-synchronising effect),
    - [src/components/SearchResults.tsx] (which view is rendered),
    - [src/App.tsx]              (the options and the mount effect),
    together with the properties the specification states about them. *)

From Stdlib Require Import ZArith List Lia Permutation Sorted Ascii.
From stdpp Require Import gmap strings pretty.
Import ListNotations.

Local Open Scope string_scope.
Local Open Scope Z_scope.

(** ** The JavaScript runtime *)

(** A Number as the repository uses it: an integer, or [NaN]. *)
Inductive number : Type :=
| Num (z : Z)
| NaN.

Module JS.

(** [a - b] on numbers: [NaN] is absorbing. *)
Definition sub (a b : number) : number :=
  match a, b with
  | Num x, Num y => Num (x - y)
  | _, _ => NaN
  end.

(** [s.startsWith(p)]. *)
Fixpoint startsWith (s p : string) : bool :=
  match p, s with
  | EmptyString, _ => true
  | String _ _, EmptyString => false
  | String a p', String b s' => if Ascii.eqb a b then startsWith s' p' else false
  end.

(** [s.includes(sub)]: [sub] occurs in [s] at some position. *)
Fixpoint includes (s sub : string) : bool :=
  startsWith s sub ||
  match s with
  | EmptyString => false
  | String _ s' => includes s' sub
  end.

(** [xs.join(sep)]. *)
Fixpoint join (sep : string) (xs : list string) : string :=
  match xs with
  | [] => ""
  | [x] => x
  | x :: rest => x +:+ sep +:+ join sep rest
  end.

(** [xs.slice(start, end)] with the relative (negative) indices of
    [Array.prototype.slice]. *)
Definition slice {A} (xs : list A) (start end_ : Z) : list A :=
  let len := Z.of_nat (length xs) in
  let k := if start <? 0 then Z.max (len + start) 0 else Z.min start len in
  let final := if end_ <? 0 then Z.max (len + end_) 0 else Z.min end_ len in
  firstn (Z.to_nat (final - k)) (skipn (Z.to_nat k) xs).

(** [SortCompare]: the comparator's result, with [NaN] read as [+0]. *)
Definition SortCompare {A} (comparefn : A -> A -> number) (x y : A) : Z :=
  match comparefn x y with
  | Num v => v
  | NaN => 0
  end.

(** A consistent comparator for the elements of [xs], in the words of
    ECMAScript: its result is never [NaN], every element compares equal to
    itself, comparing equal is symmetric and transitive, and so are
    comparing less and comparing greater transitive. *)
Definition consistent {A} (comparefn : A -> A -> number) (xs : list A) : Prop :=
  forall a b c, In a xs -> In b xs -> In c xs ->
    comparefn a b <> NaN /\
    SortCompare comparefn a a = 0 /\
    (SortCompare comparefn a b = 0 -> SortCompare comparefn b a = 0) /\
    (SortCompare comparefn a b = 0 -> SortCompare comparefn b c = 0 ->
     SortCompare comparefn a c = 0) /\
    (SortCompare comparefn a b < 0 -> SortCompare comparefn b c < 0 ->
     SortCompare comparefn a c < 0) /\
    (0 < SortCompare comparefn a b -> 0 < SortCompare comparefn b c ->
     0 < SortCompare comparefn a c).

(** The sort order ECMAScript requires for a consistent comparator:
    ascending, the elements that compare equal in their original order.
    A stable insertion computes it: each element, in array order, is put
    into the sorted prefix after every element it does not strictly
    precede. *)
Fixpoint insert {A} (comparefn : A -> A -> number) (x : A) (sorted : list A) : list A :=
  match sorted with
  | [] => [x]
  | y :: rest =>
      if SortCompare comparefn x y <? 0 then x :: y :: rest
      else y :: insert comparefn x rest
  end.

Definition stable_sort {A} (comparefn : A -> A -> number) (xs : list A) : list A :=
  fold_left (fun sorted x => insert comparefn x sorted) xs [].

(** A [Set<string>] in insertion order: [add] keeps the first occurrence. *)
Definition Set_add (x : string) (s : list string) : list string :=
  if bool_decide (x ∈ s) then s else s ++ [x].

End JS.

(** What the host provides and the repository only calls:
    [String.prototype.toLowerCase], [String.prototype.trim], the parsing
    done by [new Date(s).getTime()], whose result is a time value in
    milliseconds or [NaN] for an Invalid Date, and
    [Array.prototype.sort(comparefn)].  ECMAScript fixes the result of
    [sort] for a consistent comparator; for any other comparator the sort
    order is implementation-defined, and an engine returns the elements of
    the array in an order of its own. *)
Class Runtime : Type := {
  toLowerCase : string -> string;
  trim : string -> string;
  Date_getTime : string -> number;
  Array_sort : forall A : Type, (A -> A -> number) -> list A -> list A;
  Array_sort_Permutation :
    forall (A : Type) (comparefn : A -> A -> number) (xs : list A),
      Permutation (Array_sort A comparefn xs) xs;
  Array_sort_consistent :
    forall (A : Type) (comparefn : A -> A -> number) (xs : list A),
      JS.consistent comparefn xs ->
      Array_sort A comparefn xs = JS.stable_sort comparefn xs
}.
Arguments Array_sort {Runtime} {A} comparefn xs.
Arguments Array_sort_Permutation {Runtime} {A} comparefn xs.
Arguments Array_sort_consistent {Runtime} {A} comparefn xs _.

(** ** Data model *)

(** [SearchResult] of [useSearch.ts]. *)
Record SearchResult : Type := {
  id : string;
  title : string;
  description : string;
  category : string;
  tags : list string;
  url : string;
  author : string;
  date : string
}.

(** ** [SearchAPI]: filtering and ranking *)

Section Ranking.
Context `{RT : Runtime}.

(** The text a result is matched on (the template literal of
    [filterResults]). *)
Definition searchText (result : SearchResult) : string :=
  toLowerCase
    (title result +:+ " " +:+ description result +:+ " " +:+ category result
     +:+ " " +:+ JS.join " " (tags result) +:+ " " +:+ author result).

Definition matches (query : string) (result : SearchResult) : bool :=
  JS.includes (searchText result) (toLowerCase query).

Definition filterResults (results : list SearchResult) (query : string)
  : list SearchResult :=
  let queryLower := toLowerCase query in
  List.filter (fun result => JS.includes (searchText result) queryLower) results.

Definition titleMatch (query : string) (a : SearchResult) : bool :=
  JS.includes (toLowerCase (title a)) (toLowerCase query).

Definition categoryMatch (query : string) (a : SearchResult) : bool :=
  JS.includes (toLowerCase (category a)) (toLowerCase query).

(** The comparator handed to [results.sort] by [sortResults]. *)
Definition relevance (query : string) (a b : SearchResult) : number :=
  let queryLower := toLowerCase query in
  let aTitleMatch := JS.includes (toLowerCase (title a)) queryLower in
  let bTitleMatch := JS.includes (toLowerCase (title b)) queryLower in
  if aTitleMatch && negb bTitleMatch then Num (-1)
  else if negb aTitleMatch && bTitleMatch then Num 1
  else
    let aCategoryMatch := JS.includes (toLowerCase (category a)) queryLower in
    let bCategoryMatch := JS.includes (toLowerCase (category b)) queryLower in
    if aCategoryMatch && negb bCategoryMatch then Num (-1)
    else if negb aCategoryMatch && bCategoryMatch then Num 1
    else JS.sub (Date_getTime (date b)) (Date_getTime (date a)).

Definition sortResults (results : list SearchResult) (query : string)
  : list SearchResult :=
  Array_sort (relevance query) results.

End Ranking.

(** A [Map<string, number>], its entries in insertion order. *)
Module JSMap.

(** [m.get(k)]. *)
Definition get (k : string) (m : list (string * Z)) : option Z :=
match List.find (fun p => String.eqb (fst p) k) m with
| Some p => Some (snd p)
| None => None
end.

(** [m.set(k, v)]: an existing key keeps its place. *)
Fixpoint set (k : string) (v : Z) (m : list (string * Z)) : list (string * Z) :=
match m with
| [] => [(k, v)]
| p :: rest =>
    if String.eqb (fst p) k then (k, v) :: rest else p :: set k v rest
end.

End JSMap.

(** ** [SearchAPI]: the service object *)

(** A thrown value: an [Error] with its message, or anything else. *)
Inductive JsError : Type :=
| Error (message : string)
| NonError.

(** A settled promise. *)
Inductive Promise (A : Type) : Type :=
| Resolved (value : A)
| Rejected (reason : JsError).
Arguments Resolved {A} value.
Arguments Rejected {A} reason.

(** What [fetch(baseUrl)] followed by [response.json()] can do. *)
Inductive FetchOutcome : Type :=
| FetchRejected (reason : JsError)
| ResponseNotOk (status : Z)
| JsonRejected (reason : JsError)
| JsonData (searchResults : list SearchResult).

(** The part of the world one call observes: the clocks it reads and the
    answer of the network. *)
Record Env : Type := {
  Date_now : Z;
  performance_now_start : Z;
  performance_now_end : Z;
  response : FetchOutcome
}.

(** An [AbortSignal], observed when the [catch] block reads [aborted]. *)
Record AbortSignal : Type := { aborted : bool }.

Module API.

(** [SearchResponse] and [SearchParams]; the optional [limit] and
    [offset] are [None] when the caller leaves them out. *)
Record SearchResponse : Type := {
  results : list SearchResult;
  total : Z;
  query : string;
  took : Z
}.

Record SearchParams : Type := {
  p_query : string;
  p_limit : option Z;
  p_offset : option Z
}.

(** The fields of the singleton, and the list of URLs handed to [fetch]
    so far. *)
Record SearchAPI : Type := {
  baseUrl : string;
  cache : gmap string SearchResponse;
  fetched : list string
}.

Definition cacheTimeout : Z := 5 * 60 * 1000.

(** [new SearchAPI()]. *)
Definition new : SearchAPI :=
  {| baseUrl := "/src/data.json"; cache := ∅; fetched := [] |}.

Definition cacheKey (query : string) (limit offset : Z) : string :=
  query +:+ "-" +:+ pretty limit +:+ "-" +:+ pretty offset.

(** [signal?.aborted]. *)
Definition signal_aborted (signal : option AbortSignal) : bool :=
  match signal with
  | Some s => aborted s
  | None => false
  end.

(** The [catch] block shared by the three request methods. *)
Definition on_catch {A} (signal : option AbortSignal) (error : JsError) : Promise A :=
  if signal_aborted signal then Rejected (Error "Request cancelled")
  else Rejected error.

Definition http_error (status : Z) : JsError :=
  Error ("HTTP error! status: " +:+ pretty status).

(** The cache test at the head of [search]. *)
Definition cache_get (api : SearchAPI) (key : string) (now : Z)
  : option SearchResponse :=
  match cache api !! key with
  | Some cached =>
      if now - took cached <? cacheTimeout then Some cached else None
  | None => None
  end.

(** [clearCache]. *)
Definition clearCache (api : SearchAPI) : SearchAPI :=
{| baseUrl := baseUrl api; cache := ∅; fetched := fetched api |}.

(** The body of the [forEach] of [getTrending]:
    [categoryCount.set(c, (categoryCount.get(c) || 0) + 1)]. *)
Definition count_category (categoryCount : list (string * Z))
  (result : SearchResult) : list (string * Z) :=
JSMap.set (category result)
  (default 0 (JSMap.get (category result) categoryCount) + 1) categoryCount.

(** The comparator [([, a], [, b]) => b - a]. *)
Definition by_count (x y : string * Z) : number :=
Num (snd y - snd x).

Section WithRuntime.
Context `{RT : Runtime}.

Definition trending (allResults : list SearchResult) : list string :=
let categoryCount := fold_left count_category allResults [] in
map fst (JS.slice (Array_sort by_count categoryCount) 0 5).

Definition getTrending (api : SearchAPI) (signal : option AbortSignal) (env : Env)
: Promise (list string) * SearchAPI :=
let api1 := {| baseUrl := baseUrl api; cache := cache api;
               fetched := fetched api ++ [baseUrl api] |} in
match response env with
| FetchRejected error => (on_catch signal error, api1)
| ResponseNotOk status => (on_catch signal (http_error status), api1)
| JsonRejected error => (on_catch signal error, api1)
| JsonData allResults => (Resolved (trending allResults), api1)
end.

(** The response built inside the [try] block of [search]. *)
Definition build_response (allResults : list SearchResult)
    (query_ : string) (limit offset : Z) (took_ : Z) : SearchResponse :=
  let filteredResults := filterResults allResults query_ in
  let sortedResults := sortResults filteredResults query_ in
  let paginatedResults := JS.slice sortedResults offset (offset + limit) in
  {| results := paginatedResults;
     total := Z.of_nat (length filteredResults);
     query := query_;
     took := took_ |}.

Definition search (api : SearchAPI) (params : SearchParams)
    (signal : option AbortSignal) (env : Env)
  : Promise SearchResponse * SearchAPI :=
  let query_ := p_query params in
  let limit := default 10 (p_limit params) in
  let offset := default 0 (p_offset params) in
  let key := cacheKey query_ limit offset in
  match cache_get api key (Date_now env) with
  | Some cached => (Resolved cached, api)
  | None =>
      let startTime := performance_now_start env in
      let api1 := {| baseUrl := baseUrl api; cache := cache api;
                     fetched := fetched api ++ [baseUrl api] |} in
      match response env with
      | FetchRejected error => (on_catch signal error, api1)
      | ResponseNotOk status => (on_catch signal (http_error status), api1)
      | JsonRejected error => (on_catch signal error, api1)
      | JsonData allResults =>
          let searchResponse :=
            build_response allResults query_ limit offset
              (performance_now_end env - startTime) in
          (Resolved searchResponse,
           {| baseUrl := baseUrl api;
              cache := <[key := searchResponse]> (cache api);
              fetched := fetched api1 |})
      end
  end.

(** The body of the [forEach] of [getSuggestions] for one result. *)
Definition suggest_from (query : string) (suggestions : list string)
    (result : SearchResult) : list string :=
  let s1 :=
    if JS.includes (toLowerCase (title result)) (toLowerCase query)
    then JS.Set_add (title result) suggestions else suggestions in
  let s2 :=
    if JS.includes (toLowerCase (category result)) (toLowerCase query)
    then JS.Set_add (category result) s1 else s1 in
  fold_left
    (fun s tag =>
       if JS.includes (toLowerCase tag) (toLowerCase query)
       then JS.Set_add tag s else s)
    (tags result) s2.

Definition collect_suggestions (allResults : list SearchResult)
    (query : string) : list string :=
  fold_left (suggest_from query) allResults [].

Definition getSuggestions (api : SearchAPI) (query : string)
    (signal : option AbortSignal) (env : Env)
  : Promise (list string) * SearchAPI :=
  if (String.length query <? 2)%nat then (Resolved [], api)
  else
    let api1 := {| baseUrl := baseUrl api; cache := cache api;
                   fetched := fetched api ++ [baseUrl api] |} in
    match response env with
    | FetchRejected error => (on_catch signal error, api1)
    | ResponseNotOk status => (on_catch signal (http_error status), api1)
    | JsonRejected error => (on_catch signal error, api1)
    | JsonData allResults =>
        (Resolved (JS.slice (collect_suggestions allResults query) 0 5), api1)
    end.

End WithRuntime.

End API.

(** ** The [useSearch] hook *)

Module UseSearch.

Record SearchState : Type := {
  results : list SearchResult;
  loading : bool;
  error : option string;
  query : string
}.

(** [UseSearchOptions] after destructuring, defaults applied. *)
Record UseSearchOptions : Type := {
  debounceMs : Z;
  minQueryLength : Z
}.

Definition default_options : UseSearchOptions :=
  {| debounceMs := 300; minQueryLength := 1 |}.

(** Calls of the logger made by the hook (the measured duration is left
    out). *)
Inductive LogEntry : Type :=
| searchStarted (query : string)
| searchCompleted (query : string) (resultCount : nat)
| searchError (query : string) (message : string).

(** A pending [setTimeout]: its id, the time it is due and the query its
    callback hands to [performSearch]. *)
Record Timer : Type := {
  timer_id : nat;
  deadline : Z;
  timer_query : string
}.

(** A [performSearch] call suspended at its [await]: the values its
    closure holds. *)
Record Request : Type := {
  currentRequestId : Z;
  abortController : nat;
  request_query : string
}.

(** The hook instance and the part of the browser it uses.
    [controllers] holds the [aborted] flag of every [AbortController]
    created so far, a controller being named by its index; [timers] is the
    event loop's queue of pending timeouts, ordered by due time. *)
Record Hook : Type := {
  options : UseSearchOptions;
  state : SearchState;
  requestIdRef : Z;
  abortControllerRef : option nat;
  debounceTimeoutRef : option nat;
  controllers : list bool;
  timers : list Timer;
  timersCreated : nat;
  now : Z;
  inflight : list Request;
  log : list LogEntry
}.

Definition initial_state : SearchState :=
  {| results := []; loading := false; error := None; query := "" |}.

(** The first render of [useSearch(options)]. *)
Definition mount (opts : UseSearchOptions) : Hook :=
  {| options := opts; state := initial_state; requestIdRef := 0;
     abortControllerRef := None; debounceTimeoutRef := None;
     controllers := []; timers := []; timersCreated := 0; now := 0;
     inflight := []; log := [] |}.

(** *** Field updates *)

Definition setState (f : SearchState -> SearchState) (h : Hook) : Hook :=
  {| options := options h; state := f (state h);
     requestIdRef := requestIdRef h;
     abortControllerRef := abortControllerRef h;
     debounceTimeoutRef := debounceTimeoutRef h;
     controllers := controllers h; timers := timers h;
     timersCreated := timersCreated h; now := now h;
     inflight := inflight h; log := log h |}.

Definition logger (e : LogEntry) (h : Hook) : Hook :=
  {| options := options h; state := state h;
     requestIdRef := requestIdRef h;
     abortControllerRef := abortControllerRef h;
     debounceTimeoutRef := debounceTimeoutRef h;
     controllers := controllers h; timers := timers h;
     timersCreated := timersCreated h; now := now h;
     inflight := inflight h; log := log h ++ [e] |}.

(** [controller.abort()]. *)
Definition abort (c : nat) (h : Hook) : Hook :=
  {| options := options h; state := state h;
     requestIdRef := requestIdRef h;
     abortControllerRef := abortControllerRef h;
     debounceTimeoutRef := debounceTimeoutRef h;
     controllers := <[c := true]> (controllers h); timers := timers h;
     timersCreated := timersCreated h; now := now h;
     inflight := inflight h; log := log h |}.

(** [controller.signal.aborted]. *)
Definition signal_aborted (c : nat) (h : Hook) : bool :=
  default false (controllers h !! c).

(** [abortControllerRef.current = new AbortController()]. *)
Definition new_AbortController (h : Hook) : Hook :=
  {| options := options h; state := state h;
     requestIdRef := requestIdRef h;
     abortControllerRef := Some (length (controllers h));
     debounceTimeoutRef := debounceTimeoutRef h;
     controllers := controllers h ++ [false]; timers := timers h;
     timersCreated := timersCreated h; now := now h;
     inflight := inflight h; log := log h |}.

(** [++requestIdRef.current]. *)
Definition increment_requestId (h : Hook) : Hook :=
  {| options := options h; state := state h;
     requestIdRef := requestIdRef h + 1;
     abortControllerRef := abortControllerRef h;
     debounceTimeoutRef := debounceTimeoutRef h;
     controllers := controllers h; timers := timers h;
     timersCreated := timersCreated h; now := now h;
     inflight := inflight h; log := log h |}.

Definition suspend (r : Request) (h : Hook) : Hook :=
  {| options := options h; state := state h;
     requestIdRef := requestIdRef h;
     abortControllerRef := abortControllerRef h;
     debounceTimeoutRef := debounceTimeoutRef h;
     controllers := controllers h; timers := timers h;
     timersCreated := timersCreated h; now := now h;
     inflight := inflight h ++ [r]; log := log h |}.

Definition set_inflight (rs : list Request) (h : Hook) : Hook :=
  {| options := options h; state := state h;
     requestIdRef := requestIdRef h;
     abortControllerRef := abortControllerRef h;
     debounceTimeoutRef := debounceTimeoutRef h;
     controllers := controllers h; timers := timers h;
     timersCreated := timersCreated h; now := now h;
     inflight := rs; log := log h |}.

Definition set_timers (ts : list Timer) (h : Hook) : Hook :=
  {| options := options h; state := state h;
     requestIdRef := requestIdRef h;
     abortControllerRef := abortControllerRef h;
     debounceTimeoutRef := debounceTimeoutRef h;
     controllers := controllers h; timers := ts;
     timersCreated := timersCreated h; now := now h;
     inflight := inflight h; log := log h |}.

Definition set_now (t : Z) (h : Hook) : Hook :=
  {| options := options h; state := state h;
     requestIdRef := requestIdRef h;
     abortControllerRef := abortControllerRef h;
     debounceTimeoutRef := debounceTimeoutRef h;
     controllers := controllers h; timers := timers h;
     timersCreated := timersCreated h; now := t;
     inflight := inflight h; log := log h |}.

(** *** Timers *)

(** The queue keeps timers by due time, and by creation among equals. *)
Fixpoint enqueue (t : Timer) (queue : list Timer) : list Timer :=
  match queue with
  | [] => [t]
  | u :: rest =>
      if deadline t <? deadline u then t :: u :: rest
      else u :: enqueue t rest
  end.

(** [clearTimeout(id)]. *)
Definition clearTimeout (i : nat) (h : Hook) : Hook :=
  set_timers (List.filter (fun t => negb (timer_id t =? i)%nat) (timers h)) h.

(** [debounceTimeoutRef.current = setTimeout(() => performSearch(query), ms)];
    ids start at 1 and a negative delay counts as 0. *)
Definition setTimeout (query : string) (ms : Z) (h : Hook) : Hook :=
  let i := S (timersCreated h) in
  let t := {| timer_id := i; deadline := now h + Z.max 0 ms;
              timer_query := query |} in
  {| options := options h; state := state h;
     requestIdRef := requestIdRef h;
     abortControllerRef := abortControllerRef h;
     debounceTimeoutRef := Some i;
     controllers := controllers h; timers := enqueue t (timers h);
     timersCreated := i; now := now h;
     inflight := inflight h; log := log h |}.

(** *** The callbacks of the hook *)

(** [performSearch] up to its [await]. *)
Definition performSearch (query_ : string) (h : Hook) : Hook :=
  let h := logger (searchStarted query_) h in
  if Z.of_nat (String.length query_) <? minQueryLength (options h) then
    setState (fun prev =>
      {| results := []; loading := false; error := None; query := query_ |}) h
  else
    let h := match abortControllerRef h with
             | Some c => abort c h
             | None => h
             end in
    let c := length (controllers h) in
    let h := new_AbortController h in
    let h := increment_requestId h in
    let id_ := requestIdRef h in
    let h := setState (fun prev =>
      {| results := results prev; loading := true; error := None;
         query := query_ |}) h in
    suspend {| currentRequestId := id_; abortController := c;
               request_query := query_ |} h.

(** [performSearch] from its [await] on, once the promise of
    [performAPISearch] has settled. *)
Definition resume (r : Request) (outcome : Promise (list SearchResult))
    (h : Hook) : Hook :=
  match outcome with
  | Resolved results_ =>
      if currentRequestId r =? requestIdRef h then
        let h := logger (searchCompleted (request_query r) (length results_)) h in
        setState (fun prev =>
          {| results := results_; loading := false; error := None;
             query := query prev |}) h
      else h
  | Rejected error_ =>
      if (currentRequestId r =? requestIdRef h)
         && negb (signal_aborted (abortController r) h) then
        let errorMessage :=
          match error_ with
          | Error message => message
          | NonError => "An error occurred"
          end in
        let h := logger (searchError (request_query r) errorMessage) h in
        setState (fun prev =>
          {| results := results prev; loading := false;
             error := Some errorMessage; query := query prev |}) h
      else h
  end.

Definition clear_pending_timeout (h : Hook) : Hook :=
  match debounceTimeoutRef h with
  | Some i => clearTimeout i h
  | None => h
  end.

Definition abort_current (h : Hook) : Hook :=
  match abortControllerRef h with
  | Some c => abort c h
  | None => h
  end.

Definition setQuery (query_ : string) (h : Hook) : Hook :=
  let h := setState (fun prev =>
    {| results := results prev; loading := loading prev;
       error := error prev; query := query_ |}) h in
  let h := clear_pending_timeout h in
  setTimeout query_ (debounceMs (options h)) h.

Definition setQueryImmediate (query_ : string) (h : Hook) : Hook :=
  let h := setState (fun prev =>
    {| results := results prev; loading := loading prev;
       error := error prev; query := query_ |}) h in
  let h := clear_pending_timeout h in
  performSearch query_ h.

Definition clearResults (h : Hook) : Hook :=
  let h := abort_current h in
  let h := clear_pending_timeout h in
  setState (fun _ => initial_state) h.

(** The cleanup of the unmount effect. *)
Definition unmount (h : Hook) : Hook :=
  clear_pending_timeout (abort_current h).

(** *** The event loop *)

(** Time reaches [t]: the timeouts due by then run, in queue order. *)
Definition run_timers (t : Z) (h : Hook) : Hook :=
  let due := List.filter (fun u => deadline u <=? t) (timers h) in
  let rest := List.filter (fun u => negb (deadline u <=? t)) (timers h) in
  fold_left (fun h u => performSearch (timer_query u) h) due
    (set_timers rest h).

Definition tick (t : Z) (h : Hook) : Hook :=
  if now h <=? t then set_now t (run_timers t h) else h.

(** The promise awaited by request [id_] settles. *)
Definition settle (id_ : Z) (outcome : Promise (list SearchResult))
    (h : Hook) : Hook :=
  match List.find (fun r => currentRequestId r =? id_) (inflight h) with
  | Some r =>
      resume r outcome
        (set_inflight
           (List.filter (fun r => negb (currentRequestId r =? id_)) (inflight h)) h)
  | None => h
  end.

Inductive Event : Type :=
| SetQuery (query : string)
| SetQueryImmediate (query : string)
| ClearResults
| Unmount
| Tick (t : Z)
| Settle (id_ : Z) (outcome : Promise (list SearchResult)).

Definition step (h : Hook) (e : Event) : Hook :=
  match e with
  | SetQuery q => setQuery q h
  | SetQueryImmediate q => setQueryImmediate q h
  | ClearResults => clearResults h
  | Unmount => unmount h
  | Tick t => tick t h
  | Settle i outcome => settle i outcome h
  end.

Definition run (h : Hook) (events : list Event) : Hook :=
  fold_left step events h.

(** The queries [performSearch] was called with, oldest first. *)
Definition searched (h : Hook) : list string :=
  omap (fun e => match e with searchStarted q => Some q | _ => None end) (log h).

(** *** [performAPISearch] *)

Definition limit_for (query_ : string) : Z :=
  if (String.length query_ <? 3)%nat then 3
  else if (String.length query_ <? 6)%nat then 6
  else 10.

Definition performAPISearch `{RT : Runtime} (api : API.SearchAPI)
    (query_ : string) (signal : AbortSignal) (env : Env)
  : Promise (list SearchResult) * API.SearchAPI :=
  match API.search api
          {| API.p_query := query_; API.p_limit := Some (limit_for query_);
             API.p_offset := None |}
          (Some signal) env with
  | (Resolved response_, api') => (Resolved (API.results response_), api')
  | (Rejected error_, api') => (Rejected error_, api')
  end.

(** Request [r] is answered by the service under [env]; the signal is
    the one of the request's own controller. *)
Definition answer `{RT : Runtime} (r : Request) (env : Env)
    (w : Hook * API.SearchAPI) : Hook * API.SearchAPI :=
  let (h, api) := w in
  let signal := {| aborted := signal_aborted (abortController r) h |} in
  let (outcome, api') := performAPISearch api (request_query r) signal env in
  (settle (currentRequestId r) outcome h, api').

End UseSearch.

(** ** The URL mirror of [SearchInput] *)

Module SearchInput.

(** A parsed URL: what stands before the query, the list of name-value
    pairs of its [searchParams], and the fragment.  Serialising a URL with
    [toString] and reading it back from [window.location] is the
    identity on this form. *)
Record URL : Type := {
  origin_and_path : string;
  searchParams : list (string * string);
  hash : string
}.

(** [URLSearchParams.prototype.get], [delete] and [set]. *)
Definition get (name : string) (l : list (string * string)) : option string :=
  match List.find (fun p => String.eqb (fst p) name) l with
  | Some p => Some (snd p)
  | None => None
  end.

Definition delete (name : string) (l : list (string * string))
  : list (string * string) :=
  List.filter (fun p => negb (String.eqb (fst p) name)) l.

Fixpoint set (name value : string) (l : list (string * string))
  : list (string * string) :=
  match l with
  | [] => [(name, value)]
  | p :: rest =>
      if String.eqb (fst p) name then (fst p, value) :: delete name rest
      else p :: set name value rest
  end.

Definition with_searchParams (f : list (string * string) -> list (string * string))
    (u : URL) : URL :=
  {| origin_and_path := origin_and_path u;
     searchParams := f (searchParams u);
     hash := hash u |}.

Inductive LogEntry : Type :=
| urlUpdated (newUrl : URL).

(** A pending [setTimeout] of the URL effect: its id, the time it is due
    and the [value] its callback captured. *)
Record Timer : Type := {
  timer_id : nat;
  deadline : Z;
  timer_value : string
}.

(** The component instance and the window around it.  [timers] is the
    event loop's queue of the pending timeouts of the URL effect, ordered
    by due time, and [timeoutId] the id held by the cleanup of the last run
    of the effect.  [entries] counts the entries of the session history
    and [loads] the documents loaded. *)
Record Page : Type := {
  value : string;
  location : URL;
  entries : nat;
  loads : nat;
  timers : list Timer;
  timersCreated : nat;
  timeoutId : option nat;
  now : Z;
  log : list LogEntry
}.

(** A string in a condition: only the empty string is falsy. *)
Definition truthy (s : string) : bool :=
  match s with
  | EmptyString => false
  | String _ _ => true
  end.

(** [window.history.replaceState({}, '', newUrl)]: the current entry gets
    the new URL; no entry is added and no document is loaded. *)
Definition replaceState (newUrl : URL) (p : Page) : Page :=
  {| value := value p; location := newUrl; entries := entries p;
     loads := loads p; timers := timers p; timersCreated := timersCreated p;
     timeoutId := timeoutId p; now := now p; log := log p |}.

Definition logger (e : LogEntry) (p : Page) : Page :=
  {| value := value p; location := location p; entries := entries p;
     loads := loads p; timers := timers p; timersCreated := timersCreated p;
     timeoutId := timeoutId p; now := now p; log := log p ++ [e] |}.

Definition set_timers (ts : list Timer) (p : Page) : Page :=
  {| value := value p; location := location p; entries := entries p;
     loads := loads p; timers := ts; timersCreated := timersCreated p;
     timeoutId := timeoutId p; now := now p; log := log p |}.

Definition set_value (v : string) (p : Page) : Page :=
  {| value := v; location := location p; entries := entries p;
     loads := loads p; timers := timers p; timersCreated := timersCreated p;
     timeoutId := timeoutId p; now := now p; log := log p |}.

Definition set_now (t : Z) (p : Page) : Page :=
  {| value := value p; location := location p; entries := entries p;
     loads := loads p; timers := timers p; timersCreated := timersCreated p;
     timeoutId := timeoutId p; now := t; log := log p |}.

(** The queue keeps timers by due time, and by creation among equals. *)
Fixpoint enqueue (t : Timer) (queue : list Timer) : list Timer :=
  match queue with
  | [] => [t]
  | u :: rest =>
      if deadline t <? deadline u then t :: u :: rest
      else u :: enqueue t rest
  end.

(** [clearTimeout(id)]. *)
Definition clearTimeout (i : nat) (p : Page) : Page :=
  set_timers (List.filter (fun t => negb (timer_id t =? i)%nat) (timers p)) p.

(** [const timeoutId = setTimeout(callback, ms)], the callback holding
    [value_]; ids start at 1. *)
Definition setTimeout (value_ : string) (ms : Z) (p : Page) : Page :=
  let i := S (timersCreated p) in
  let t := {| timer_id := i; deadline := now p + ms; timer_value := value_ |} in
  {| value := value p; location := location p; entries := entries p;
     loads := loads p; timers := enqueue t (timers p); timersCreated := i;
     timeoutId := Some i; now := now p; log := log p |}.

Section WithRuntime.
Context `{RT : Runtime}.

(** The callback of the timeout, for the captured [value_]. *)
Definition update_url (value_ : string) (p : Page) : Page :=
  let url := location p in
  let url :=
    if truthy (trim value_)
    then with_searchParams (set "q" (trim value_)) url
    else with_searchParams (delete "q") url in
  let newUrl := url in
  logger (urlUpdated newUrl) (replaceState newUrl p).

(** The effect with dependency [value]: it runs after the first render
    and after every render in which [value] differs from the previous
    one, its cleanup first. *)
Definition effect (p : Page) : Page :=
  setTimeout (value p) 1000 p.

(** [() => clearTimeout(timeoutId)], returned by the last run of the
    effect. *)
Definition cleanup (p : Page) : Page :=
  match timeoutId p with
  | Some i => clearTimeout i p
  | None => p
  end.

Definition mount (value_ : string) (href : URL) : Page :=
  effect {| value := value_; location := href; entries := 1; loads := 1;
            timers := []; timersCreated := 0; timeoutId := None;
            now := 0; log := [] |}.

Definition render (value_ : string) (p : Page) : Page :=
  if String.eqb value_ (value p) then p
  else effect (set_value value_ (cleanup p)).

(** Time reaches [t]: the timeouts due by then run, in queue order. *)
Definition run_timers (t : Z) (p : Page) : Page :=
  let due := List.filter (fun u => deadline u <=? t) (timers p) in
  let rest := List.filter (fun u => negb (deadline u <=? t)) (timers p) in
  fold_left (fun p u => update_url (timer_value u) p) due (set_timers rest p).

Definition tick (t : Z) (p : Page) : Page :=
  if now p <=? t then set_now t (run_timers t p) else p.

Inductive Event : Type :=
| Render (value_ : string)
| Tick (t : Z).

Definition step (p : Page) (e : Event) : Page :=
  match e with
  | Render v => render v p
  | Tick t => tick t p
  end.

Definition run (p : Page) (events : list Event) : Page :=
  fold_left step events p.

End WithRuntime.

End SearchInput.

(** ** The result view of [SearchResults] *)

Module SearchResults.

(** Which of the five states the component renders, with the texts that
    depend on its props. *)
Inductive View : Type :=
| error_state (message : string)
| loading_state (query : string)
| empty_state
| no_results_state (query : string)
| results_list (query : string) (count : string) (results : list SearchResult).

(** "n result(s) found". *)
Definition results_count (results : list SearchResult) : string :=
pretty (length results) +:+ " result"
+:+ (if (length results =? 1)%nat then "" else "s") +:+ " found".

Section WithRuntime.
Context `{RT : Runtime}.

Definition SearchResults (results : list SearchResult) (loading : bool)
  (error : option string) (query : string) : View :=
let rest :=
  if loading then loading_state query
  else if negb (SearchInput.truthy (trim query)) then empty_state
  else if (length results =? 0)%nat then no_results_state query
  else results_list query (results_count results) results in
match error with
| Some message => if SearchInput.truthy message then error_state message else rest
| None => rest
end.

(** The component as [App] uses it, on the state of the hook. *)
Definition render (s : UseSearch.SearchState) : View :=
SearchResults (UseSearch.results s) (UseSearch.loading s)
  (UseSearch.error s) (UseSearch.query s).

End WithRuntime.

End SearchResults.

(** ** [App] *)

Module App.

Definition options : UseSearch.UseSearchOptions :=
{| UseSearch.debounceMs := 800; UseSearch.minQueryLength := 2 |}.

Section WithRuntime.
Context `{RT : Runtime}.

(** The first render followed by the mount effect, which reads [q] from
    the URL of the page. *)
Definition mount (href : SearchInput.URL) : UseSearch.Hook :=
let h := UseSearch.mount options in
match SearchInput.get "q" (SearchInput.searchParams href) with
| Some queryParam =>
    if SearchInput.truthy queryParam && SearchInput.truthy (trim queryParam)
    then UseSearch.setQueryImmediate (trim queryParam) h
    else h
| None => h
end.

End WithRuntime.

End App.

(** ** The logger *)

Module Logger.

Definition DEBUG : Z := 0.
Definition INFO : Z := 1.
Definition WARN : Z := 2.
Definition ERROR : Z := 3.
Definition NONE : Z := 4.

Record LoggerConfig : Type := {
  level : Z;
  enableConsole : bool;
  enableRemote : bool;
  remoteEndpoint : option string
}.

(** What one call of the logger reads from the browser: the clock, in
    [formatMessage] and again in [sendToRemote]
    ([new Date().toISOString()]), [navigator.userAgent] and
    [window.location.href], the latter in the parsed form of
    [SearchInput.URL]. *)
Record Browser : Type := {
  Date_toISOString : string;
  Date_toISOString_remote : string;
  navigator_userAgent : string;
  window_location_href : SearchInput.URL
}.

(** The object that [sendToRemote] serialises into the body of its
    POST. *)
Record Body : Type := {
  body_level : string;
  body_message : string;
  body_timestamp : string;
  body_userAgent : string;
  body_url : SearchInput.URL
}.

(** What a call of the logger does to the outside: a call of a [console]
    method with the formatted message and the arguments, or a POST to the
    remote endpoint. *)
Inductive Effect : Type :=
| console_debug (formattedMessage : string) (args : list (string * string))
| console_info (formattedMessage : string) (args : list (string * string))
| console_warn (formattedMessage : string) (args : list (string * string))
| console_error (formattedMessage : string) (args : list (string * string))
| console_time (label : string)
| console_timeEnd (label : string)
| post (endpoint : string) (body : Body).

Definition shouldLog (config : LoggerConfig) (level_ : Z) : bool :=
level config <=? level_.

Definition formatMessage (browser : Browser) (level_ message : string) : string :=
"[" +:+ Date_toISOString browser +:+ "] [" +:+ level_ +:+ "] " +:+ message.

(** [sendToRemote], called with an endpoint that is set: one POST, whose
    failure is ignored. *)
Definition sendToRemote (browser : Browser) (endpoint level_ message : string)
  : list Effect :=
[post endpoint
   {| body_level := level_;
      body_message := message;
      body_timestamp := Date_toISOString_remote browser;
      body_userAgent := navigator_userAgent browser;
      body_url := window_location_href browser |}].

Definition log (config : LoggerConfig) (browser : Browser) (level_ : Z)
  (levelName message : string) (args : list (string * string)) : list Effect :=
if negb (shouldLog config level_) then []
else
  let formattedMessage := formatMessage browser levelName message in
  (if enableConsole config then
     if level_ =? DEBUG then [console_debug formattedMessage args]
     else if level_ =? INFO then [console_info formattedMessage args]
     else if level_ =? WARN then [console_warn formattedMessage args]
     else if level_ =? ERROR then [console_error formattedMessage args]
     else []
   else [])
  ++ match remoteEndpoint config with
     | Some endpoint =>
         if enableRemote config && SearchInput.truthy endpoint
         then sendToRemote browser endpoint levelName message
         else []
     | None => []
     end.

Definition debug (config : LoggerConfig) (browser : Browser) (message : string)
  (args : list (string * string)) : list Effect :=
log config browser DEBUG "DEBUG" message args.

Definition info (config : LoggerConfig) (browser : Browser) (message : string)
  (args : list (string * string)) : list Effect :=
log config browser INFO "INFO" message args.

Definition warn (config : LoggerConfig) (browser : Browser) (message : string)
  (args : list (string * string)) : list Effect :=
log config browser WARN "WARN" message args.

Definition error (config : LoggerConfig) (browser : Browser) (message : string)
  (args : list (string * string)) : list Effect :=
log config browser ERROR "ERROR" message args.

Definition time (config : LoggerConfig) (label : string) : list Effect :=
if shouldLog config DEBUG then [console_time label] else [].

Definition timeEnd (config : LoggerConfig) (label : string) : list Effect :=
if shouldLog config DEBUG then [console_timeEnd label] else [].

Definition searchStarted (config : LoggerConfig) (browser : Browser)
  (query : string) : list Effect :=
debug config browser "Search started" [("query", query)].

Definition searchCompleted (config : LoggerConfig) (browser : Browser)
  (query : string) (resultCount duration : Z) : list Effect :=
info config browser "Search completed"
  [("query", query); ("resultCount", pretty resultCount);
   ("duration", pretty duration)].

(** [error] is the message of the [Error] handed over. *)
Definition searchError (config : LoggerConfig) (browser : Browser)
  (query error_ : string) : list Effect :=
error config browser "Search failed" [("query", query); ("error", error_)].

Definition urlUpdated (config : LoggerConfig) (browser : Browser) (url : string)
  : list Effect :=
debug config browser "URL updated" [("url", url)].

Definition urlError (config : LoggerConfig) (browser : Browser) (error_ : string)
  : list Effect :=
warn config browser "URL update failed" [("error", error_)].

Definition devLogger : LoggerConfig :=
{| level := DEBUG; enableConsole := true; enableRemote := false;
   remoteEndpoint := None |}.

Definition prodLogger : LoggerConfig :=
{| level := ERROR; enableConsole := false; enableRemote := true;
   remoteEndpoint := Some "/api/logs" |}.

End Logger.

(** ** A runtime for ASCII text and ISO dates *)

Module Ascii_runtime.

Definition lower_char (c : ascii) : ascii :=
  let n := nat_of_ascii c in
  if ((65 <=? n) && (n <=? 90))%nat then ascii_of_nat (n + 32) else c.

Fixpoint lower (s : string) : string :=
  match s with
  | EmptyString => EmptyString
  | String c s' => String (lower_char c) (lower s')
  end.

Definition is_space (c : ascii) : bool :=
  let n := nat_of_ascii c in
  ((9 <=? n) && (n <=? 13) || (n =? 32))%nat.

Fixpoint trimStart (s : string) : string :=
  match s with
  | EmptyString => EmptyString
  | String c s' => if is_space c then trimStart s' else s
  end.

Definition strip (s : string) : string :=
  String.rev (trimStart (String.rev (trimStart s))).

Definition digit (c : ascii) : option Z :=
  let n := nat_of_ascii c in
  if ((48 <=? n) && (n <=? 57))%nat then Some (Z.of_nat n - 48) else None.

Fixpoint digits (cs : list ascii) (acc : Z) : option Z :=
  match cs with
  | [] => Some acc
  | c :: rest =>
      match digit c with
      | Some d => digits rest (10 * acc + d)
      | None => None
      end
  end.

(** Days from 1970-01-01 to the given civil date. *)
Definition days_from_civil (y m d : Z) : Z :=
  let y := if m <=? 2 then y - 1 else y in
  let era := y / 400 in
  let yoe := y - era * 400 in
  let mp := if 2 <? m then m - 3 else m + 9 in
  let doy := (153 * mp + 2) / 5 + d - 1 in
  let doe := yoe * 365 + yoe / 4 - yoe / 100 + doy in
  era * 146097 + doe - 719468.

(** The time value of a date written [YYYY-MM-DD] (midnight UTC); any
    other string is an Invalid Date. *)
Definition getTime (s : string) : number :=
  match String.list_ascii_of_string s with
  | [y1; y2; y3; y4; "-"%char; m1; m2; "-"%char; d1; d2] =>
      match digits [y1; y2; y3; y4] 0, digits [m1; m2] 0, digits [d1; d2] 0 with
      | Some y, Some m, Some d =>
          if (1 <=? m) && (m <=? 12) && (1 <=? d) && (d <=? 31)
          then Num (days_from_civil y m d * 86400000)
          else NaN
      | _, _, _ => NaN
      end
  | _ => NaN
  end.

(** [Array.prototype.sort] in an engine that looks for a run first: an
    array in which no element compares less than the one before it is one
    run and is returned as it is, which is what V8 does with such an array;
    any other array is sorted by stable insertion. *)
Fixpoint is_run {A} (comparefn : A -> A -> number) (xs : list A) : bool :=
  match xs with
  | x :: rest =>
      match rest with
      | y :: _ => negb (JS.SortCompare comparefn y x <? 0)
      | [] => true
      end && is_run comparefn rest
  | [] => true
  end.

Definition sort (A : Type) (comparefn : A -> A -> number) (xs : list A) : list A :=
  if is_run comparefn xs then xs else JS.stable_sort comparefn xs.

End Ascii_runtime.

(** ** A small dataset *)

Module Sample.

Definition react_hooks : SearchResult :=
  {| id := "1"; title := "React Hooks Guide";
     description := "Learn state and effects"; category := "Frontend";
     tags := ["react"; "hooks"]; url := "https://example.com/1";
     author := "Ann Lee"; date := "2023-03-10" |}.

Definition typescript_tips : SearchResult :=
  {| id := "2"; title := "TypeScript Tips";
     description := "Typing React components"; category := "Frontend";
     tags := ["typescript"; "types"]; url := "https://example.com/2";
     author := "Bo Chen"; date := "2024-01-15" |}.

Definition react_testing : SearchResult :=
  {| id := "3"; title := "Testing React Apps";
     description := "Unit tests for components"; category := "Testing";
     tags := ["react"; "jest"]; url := "https://example.com/3";
     author := "Cy Diaz"; date := "2024-06-01" |}.

Definition node_streams : SearchResult :=
  {| id := "4"; title := "Node Streams";
     description := "Backpressure explained"; category := "Backend";
     tags := ["node"]; url := "https://example.com/4";
     author := "Di Evans"; date := "2022-11-30" |}.

Definition data : list SearchResult :=
  [react_hooks; typescript_tips; react_testing; node_streams].

Definition env_at (now_ : Z) (answer : FetchOutcome) : Env :=
  {| Date_now := now_; performance_now_start := 100;
     performance_now_end := 112; response := answer |}.

End Sample.

(** ** Vocabulary of the statements *)

(** [sub] occurs in [s]. *)
Definition substring_of (sub s : string) : Prop :=
  exists pre post, s = pre +:+ sub +:+ post.

(** The text of a result as [filterResults] builds it, before lowercasing:
    title, description, category, the tags joined by spaces, and author,
    with single spaces in between. *)
Definition concatenation (result : SearchResult) : string :=
  title result +:+ " " +:+ description result +:+ " " +:+ category result
  +:+ " " +:+ JS.join " " (tags result) +:+ " " +:+ author result.

(** The place of a result in the ranking by title match, then category
    match: 0 for both, 1 for the title only, 2 for the category only, 3 for
    neither. *)
Definition rank `{RT : Runtime} (query : string) (r : SearchResult) : Z :=
  (if titleMatch query r then 0 else 2) + (if categoryMatch query r then 0 else 1).

(** The date of a result parses. *)
Definition valid_date `{RT : Runtime} (r : SearchResult) : Prop :=
  Date_getTime (date r) <> NaN.

(** The time value of a result's date (0 stands in for an Invalid Date). *)
Definition time_of `{RT : Runtime} (r : SearchResult) : Z :=
  match Date_getTime (date r) with
  | Num t => t
  | NaN => 0
  end.

(** [a] ranks no later than [b]: by title match, then category match, then
    newer date first. *)
Definition ranks_before `{RT : Runtime} (query : string) (a b : SearchResult) : Prop :=
  rank query a < rank query b \/
  (rank query a = rank query b /\ time_of b <= time_of a).

(** Successive calls of [search] on one service object, each settled
    before the next one starts. *)
Module History.

Record Call : Type := {
  params : API.SearchParams;
  signal : option AbortSignal;
  env : Env
}.

Definition query_of (c : Call) : string := API.p_query (params c).
Definition limit_of (c : Call) : Z := default 10 (API.p_limit (params c)).
Definition offset_of (c : Call) : Z := default 0 (API.p_offset (params c)).

(** The datasets the network delivered to the calls. *)
Definition delivered (cs : list Call) : list (list SearchResult) :=
  omap (fun c => match response (env c) with
                 | JsonData allResults => Some allResults
                 | _ => None
                 end) cs.

Section WithRuntime.
Context `{RT : Runtime}.

Fixpoint replay (api : API.SearchAPI) (cs : list Call)
  : list (Promise API.SearchResponse) * API.SearchAPI :=
  match cs with
  | [] => ([], api)
  | c :: rest =>
      let (reply, api1) := API.search api (params c) (signal c) (env c) in
      let (replies_, api2) := replay api1 rest in
      (reply :: replies_, api2)
  end.

Definition replies (api : API.SearchAPI) (cs : list Call)
  : list (Promise API.SearchResponse) :=
  fst (replay api cs).

(** Every cached response was built by [search] for parameters with
    that key, from a dataset of [ds]. *)
Definition cache_sound (ds : list (list SearchResult)) (api : API.SearchAPI)
  : Prop :=
  forall k resp, API.cache api !! k = Some resp ->
    exists allResults q l o t,
      In allResults ds /\ 0 <= l /\ k = API.cacheKey q l o /\
      resp = API.build_response allResults q l o t.

End WithRuntime.

End History.

(** [s] is a title, a category or a tag of an entry of the dataset, and
    contains the query when both are lowercased. *)
Definition suggestion_of `{RT : Runtime} (allResults : list SearchResult)
    (query : string) (s : string) : Prop :=
  (exists r, In r allResults /\
             (s = title r \/ s = category r \/ In s (tags r))) /\
  substring_of (toLowerCase query) (toLowerCase s).

(** A set of suggestions without repetition, all drawn from the dataset. *)
Definition sound_set `{RT : Runtime} (allResults : list SearchResult)
    (q : string) (s : list string) : Prop :=
  NoDup s /\ forall x, In x s -> suggestion_of allResults q x.

(** The hook states that occur: those reached from the first render by
    some sequence of events. *)
Definition reachable (h : UseSearch.Hook) : Prop :=
  exists opts events, h = UseSearch.run (UseSearch.mount opts) events.

(** Request ids: those of the suspended calls are distinct and none is
    above the counter. *)
Definition ids_ok (h : UseSearch.Hook) : Prop :=
  Forall (fun r => UseSearch.currentRequestId r <= UseSearch.requestIdRef h)
    (UseSearch.inflight h) /\
  NoDup (map UseSearch.currentRequestId (UseSearch.inflight h)).

(** Controllers: each suspended call has its own, and every controller
    that is not aborted is the one in [abortControllerRef]. *)
Definition controllers_ok (h : UseSearch.Hook) : Prop :=
  Forall (fun r => (UseSearch.abortController r < length (UseSearch.controllers h))%nat)
    (UseSearch.inflight h) /\
  NoDup (map UseSearch.abortController (UseSearch.inflight h)) /\
  forall c, UseSearch.controllers h !! c = Some false ->
            UseSearch.abortControllerRef h = Some c.

(** Timers: at most one timeout is pending, the one in
    [debounceTimeoutRef]. *)
Definition timers_ok (h : UseSearch.Hook) : Prop :=
  UseSearch.timers h = [] \/
  exists t, UseSearch.timers h = [t] /\
            UseSearch.debounceTimeoutRef h = Some (UseSearch.timer_id t).

(** Keystrokes: [setQuery q] called at time [t], for each [(t, q)]. *)
Definition typing (calls : list (Z * string)) : list UseSearch.Event :=
  flat_map (fun c => [UseSearch.Tick (fst c); UseSearch.SetQuery (snd c)]) calls.

(** Each call comes no earlier than the one before and sooner than [d]
    after it. *)
Fixpoint rapid (d : Z) (t : Z) (calls : list (Z * string)) : Prop :=
  match calls with
  | [] => True
  | c :: rest => t <= fst c < t + d /\ rapid d (fst c) rest
  end.

(** The controllers once the one in [abortControllerRef] is aborted. *)
Definition aborted_ref (h : UseSearch.Hook) : list bool :=
  match UseSearch.abortControllerRef h with
  | Some c => <[c := true]> (UseSearch.controllers h)
  | None => UseSearch.controllers h
  end.

(** Two states of the hook that agree on what concerns its requests. *)
Definition same_requests (a b : UseSearch.Hook) : Prop :=
  UseSearch.options a = UseSearch.options b /\
  UseSearch.requestIdRef a = UseSearch.requestIdRef b /\
  UseSearch.abortControllerRef a = UseSearch.abortControllerRef b /\
  UseSearch.controllers a = UseSearch.controllers b /\
  UseSearch.inflight a = UseSearch.inflight b /\
  UseSearch.log a = UseSearch.log b.

(** From [h] to [h'] the hook has sent the request for [q] and no other:
    if [q] has [minQueryLength] characters or more, one request has been
    added to those in flight, for [q], with the next request id and a new
    controller, the controllers before being aborted, and the state shows
    [q] loading; if [q] is shorter, no request has been sent at all and
    the state shows [q] with no results. *)
Definition requests_only (h : UseSearch.Hook) (q : string) (h' : UseSearch.Hook)
  : Prop :=
  (UseSearch.minQueryLength (UseSearch.options h) <= Z.of_nat (String.length q) ->
   UseSearch.inflight h'
   = (UseSearch.inflight h
      ++ [{| UseSearch.currentRequestId := UseSearch.requestIdRef h + 1;
             UseSearch.abortController := length (UseSearch.controllers h);
             UseSearch.request_query := q |}])%list /\
   UseSearch.requestIdRef h' = UseSearch.requestIdRef h + 1 /\
   UseSearch.controllers h' = (aborted_ref h ++ [false])%list /\
   UseSearch.loading (UseSearch.state h') = true /\
   UseSearch.query (UseSearch.state h') = q) /\
  (Z.of_nat (String.length q) < UseSearch.minQueryLength (UseSearch.options h) ->
   UseSearch.inflight h' = UseSearch.inflight h /\
   UseSearch.requestIdRef h' = UseSearch.requestIdRef h /\
   UseSearch.controllers h' = UseSearch.controllers h /\
   UseSearch.state h'
   = {| UseSearch.results := []; UseSearch.loading := false;
        UseSearch.error := None; UseSearch.query := q |}).

(** The URL mirrors the query [v]: its [q] parameter is the trimmed query,
    and is absent when the query is blank. *)
Definition mirrors `{RT : Runtime} (u : SearchInput.URL) (v : string) : Prop :=
  SearchInput.get "q" (SearchInput.searchParams u)
  = if SearchInput.truthy (trim v) then Some (trim v) else None.

(** Time passing on the page: the clock reaches each of the given times in
    turn. *)
Definition wait `{RT : Runtime} (p : SearchInput.Page) (times : list Z)
  : SearchInput.Page :=
  SearchInput.run p (map SearchInput.Tick times).

(** The pages that occur: those reached from the first render by renders
    and by the passing of time. *)
Definition reachable_page `{RT : Runtime} (p : SearchInput.Page) : Prop :=
  exists value_ href events,
    p = SearchInput.run (SearchInput.mount value_ href) events.

(** At most one timeout of the URL effect is pending, the one whose id the
    cleanup holds. *)
Definition one_timer (p : SearchInput.Page) : Prop :=
  SearchInput.timers p = [] \/
  exists t, SearchInput.timers p = [t] /\
            SearchInput.timeoutId p = Some (SearchInput.timer_id t).

(** The timeouts pending on a page: when each is due, and for which
    value. *)
Definition pending (p : SearchInput.Page) : list (Z * string) :=
  map (fun t => (SearchInput.deadline t, SearchInput.timer_value t))
    (SearchInput.timers p).

(** The page after the last change of [value] to [v] made in state [p]:
    either the timeout is still pending and nothing has moved, or it has
    run, once, and the URL mirrors [v]. *)
Definition settled_or_pending `{RT : Runtime} (p : SearchInput.Page)
    (v : string) (q : SearchInput.Page) : Prop :=
  (pending q = [(SearchInput.now p + 1000, v)] /\
   SearchInput.now q < SearchInput.now p + 1000 /\
   SearchInput.location q = SearchInput.location p /\
   SearchInput.log q = SearchInput.log p /\
   SearchInput.entries q = SearchInput.entries p /\
   SearchInput.loads q = SearchInput.loads p) \/
  (pending q = [] /\
   mirrors (SearchInput.location q) v /\
   SearchInput.origin_and_path (SearchInput.location q)
     = SearchInput.origin_and_path (SearchInput.location p) /\
   SearchInput.hash (SearchInput.location q)
     = SearchInput.hash (SearchInput.location p) /\
   SearchInput.log q
     = (SearchInput.log p
        ++ [SearchInput.urlUpdated (SearchInput.location q)])%list /\
   SearchInput.entries q = SearchInput.entries p /\
   SearchInput.loads q = SearchInput.loads p).

(** How many entries of the dataset have category [c]. *)
Definition occurrences (c : string) (rs : list SearchResult) : Z :=
  Z.of_nat (length (List.filter (fun r => String.eqb (category r) c) rs)).

(** The hook states that occur while the component is mounted. *)
Definition mounted (h : UseSearch.Hook) : Prop :=
  exists opts events,
    Forall (fun e => e <> UseSearch.Unmount) events /\
    h = UseSearch.run (UseSearch.mount opts) events.

(** While [loading] is set, the current request is in flight and not
    aborted. *)
Definition spinner_ok (h : UseSearch.Hook) : Prop :=
  UseSearch.loading (UseSearch.state h) = true ->
  exists r, In r (UseSearch.inflight h) /\
            UseSearch.currentRequestId r = UseSearch.requestIdRef h /\
            UseSearch.signal_aborted (UseSearch.abortController r) h = false.

(** The message the hook shows for a thrown value. *)
Definition message_of (e : JsError) : string :=
  match e with
  | Error message => message
  | NonError => "An error occurred"
  end.

(** An effect of the logger that leaves the browser, and the bodies a
    list of effects sends. *)
Definition is_post (e : Logger.Effect) : bool :=
  match e with
  | Logger.post _ _ => true
  | _ => false
  end.

Definition posted (effects : list Logger.Effect) : list Logger.Body :=
  omap (fun e => match e with
                 | Logger.post _ body => Some body
                 | _ => None
                 end) effects.

(** Changes of [value] in [SearchInput]: at time [t] the prop becomes [v],
    for each [(t, v)]. *)
Definition edits `{RT : Runtime} (changes : list (Z * string))
  : list SearchInput.Event :=
  flat_map (fun c => [SearchInput.Tick (fst c); SearchInput.Render (snd c)]) changes.

(** Each value differs from the one before. *)
Fixpoint changing (v : string) (changes : list (Z * string)) : Prop :=
  match changes with
  | [] => True
  | c :: rest => snd c <> v /\ changing (snd c) rest
  end.

(** Concrete calls on the sample dataset. *)
Module Scenario.

Definition react_params : API.SearchParams :=
  {| API.p_query := "react"; API.p_limit := Some 10; API.p_offset := Some 0 |}.

(** A call on 1 November 2026, and the same call one second later. *)
Definition first_call : History.Call :=
  {| History.params := react_params; History.signal := None;
     History.env := Sample.env_at 1793491200000 (JsonData Sample.data) |}.

Definition second_call : History.Call :=
  {| History.params := react_params; History.signal := None;
     History.env := Sample.env_at 1793491201000 (JsonData Sample.data) |}.

(** The first and the second page of the results for "e". *)
Definition two_pages : list History.Call :=
  [ {| History.params := {| API.p_query := "e"; API.p_limit := Some 2;
                            API.p_offset := None |};
       History.signal := None;
       History.env := Sample.env_at 1793491200000 (JsonData Sample.data) |};
    {| History.params := {| API.p_query := "e"; API.p_limit := Some 2;
                            API.p_offset := Some 2 |};
       History.signal := None;
       History.env := Sample.env_at 1793491260000 (JsonData Sample.data) |} ].

Definition negative_limit : API.SearchParams :=
  {| API.p_query := "react"; API.p_limit := Some (-1); API.p_offset := None |}.

Definition negative_call : History.Call :=
  {| History.params := negative_limit; History.signal := None;
     History.env := Sample.env_at 1793491200000 (JsonData Sample.data) |}.

(** Two calls whose cache keys coincide, made while the clock reads less
    than five minutes. *)
Definition colliding : list History.Call :=
  [ {| History.params := {| API.p_query := "e"; API.p_limit := Some (-1);
                            API.p_offset := None |};
       History.signal := None;
       History.env := Sample.env_at 0 (JsonData Sample.data) |};
    {| History.params := {| API.p_query := "e-"; API.p_limit := Some 1;
                            API.p_offset := None |};
       History.signal := None;
       History.env := Sample.env_at 1000 (JsonData Sample.data) |} ].

(** The options the application passes to [useSearch]. *)
Definition app_options : UseSearch.UseSearchOptions :=
  {| UseSearch.debounceMs := 800; UseSearch.minQueryLength := 2 |}.

(** The hook while its first request, for "react", is in flight. *)
Definition searching_react : UseSearch.Hook :=
  UseSearch.run (UseSearch.mount app_options)
    [UseSearch.SetQueryImmediate "react"].

Definition react_request : UseSearch.Request :=
  {| UseSearch.currentRequestId := 1; UseSearch.abortController := 0%nat;
     UseSearch.request_query := "react" |}.

(** The hook once a second request, for "redux", has superseded it. *)
Definition superseded : UseSearch.Hook :=
  UseSearch.run (UseSearch.mount app_options)
    [UseSearch.SetQueryImmediate "react"; UseSearch.SetQueryImmediate "redux"].

Definition fetch_aborted : Env :=
  Sample.env_at 1793491200000
    (FetchRejected (Error "The user aborted a request.")).

(** Three more keystrokes after a first one at time 0. *)
Definition keystrokes : list (Z * string) :=
  [(100, "re"); (300, "rea"); (900, "reac")].

Definition home : SearchInput.URL :=
  {| SearchInput.origin_and_path := "http://localhost:5173/";
     SearchInput.searchParams := [("q", "old"); ("lang", "en"); ("q", "older")];
     SearchInput.hash := "" |}.

(** A result whose date does not parse. *)
Definition undated : SearchResult :=
{| id := "5"; title := "React Native Intro";
   description := "Mobile apps with React"; category := "Mobile";
   tags := ["react-native"]; url := "https://example.com/5";
   author := "Eli Fox"; date := "" |}.









Definition server_error : Env :=
Sample.env_at 1793491200000 (ResponseNotOk 500).

Definition not_aborted : AbortSignal := {| aborted := false |}.

End Scenario.

(** * Properties *)

(** ** Strings *)

Lemma startsWith_spec (s p : string) :
  JS.startsWith s p = true <-> exists post, s = p +:+ post.
Proof.
  revert s; induction p as [|a p IH]; intros s.
  - split; [intros _; now exists s | intros _; now destruct s].
  - destruct s as [|b s]; cbn [JS.startsWith].
    + split; [discriminate | intros [post H]; discriminate].
    + destruct (Ascii.eqb a b) eqn:E.
      * apply Ascii.eqb_eq in E as ->. rewrite IH.
        split; intros [post H]; exists post.
        -- simpl. now rewrite H.
        -- now inversion H.
      * apply Ascii.eqb_neq in E.
        split; [discriminate | intros [post H]; inversion H; congruence].
Qed.

Lemma includes_spec (s sub : string) :
  JS.includes s sub = true <-> substring_of sub s.
Proof.
  unfold substring_of.
  induction s as [|c s IH]; cbn [JS.includes].
  - rewrite orb_false_r, startsWith_spec. split.
    + intros [post H]. now exists "", post.
    + intros [pre [post H]]. destruct pre; simpl in H; [now exists post | discriminate].
  - rewrite orb_true_iff, startsWith_spec, IH. split.
    + intros [[post H] | [pre [post H]]].
      * now exists "", post.
      * exists (String c pre), post. simpl. now rewrite H.
    + intros [pre [post H]]. destruct pre as [|c' pre]; simpl in H.
      * left. now exists post.
      * right. inversion H. now exists pre, post.
Qed.

(** ** Filtering *)

Section Filtering.
Context `{RT : Runtime}.

Lemma searchText_concatenation (r : SearchResult) :
  searchText r = toLowerCase (concatenation r).
Proof. reflexivity. Qed.

Lemma filterResults_In (rs : list SearchResult) (q : string) (r : SearchResult) :
  In r (filterResults rs q) <->
  In r rs /\ substring_of (toLowerCase q) (toLowerCase (concatenation r)).
Proof.
  unfold filterResults. rewrite filter_In, includes_spec. reflexivity.
Qed.

Lemma filterResults_sublist (rs : list SearchResult) (q : string) :
  sublist (filterResults rs q) rs.
Proof.
  unfold filterResults. induction rs as [|r rs IH]; simpl.
  - constructor.
  - destruct (JS.includes _ _); now constructor.
Qed.

End Filtering.

(** ** Sorting *)

Section Sorting.
Context {A : Type} (comparefn : A -> A -> number).

Lemma insert_Permutation (x : A) (l : list A) :
  Permutation (JS.insert comparefn x l) (x :: l).
Proof.
  induction l as [|y l IH]; simpl; [reflexivity|].
  destruct (_ <? 0); [reflexivity|].
  rewrite IH. apply perm_swap.
Qed.

Lemma sort_from_Permutation (xs acc : list A) :
  Permutation (fold_left (fun sorted x => JS.insert comparefn x sorted) xs acc)
              (acc ++ xs).
Proof.
  revert acc; induction xs as [|x xs IH]; intros acc; simpl.
  - now rewrite app_nil_r.
  - rewrite IH.
    etransitivity; [apply Permutation_app_tail, insert_Permutation|].
    apply Permutation_middle.
Qed.

Lemma sort_Permutation (xs : list A) :
  Permutation (JS.stable_sort comparefn xs) xs.
Proof. unfold JS.stable_sort. apply (sort_from_Permutation xs []). Qed.

(** An order [P] that the comparator decides on the elements satisfying
    [D] is established by the sort. *)
Context (D : A -> Prop) (P : A -> A -> Prop).
Hypothesis P_trans : forall x y z, P x y -> P y z -> P x z.
Hypothesis before : forall x y,
  D x -> D y -> JS.SortCompare comparefn x y < 0 -> P x y.
Hypothesis after : forall x y,
  D x -> D y -> ~ JS.SortCompare comparefn x y < 0 -> P y x.

Lemma insert_sorted (x : A) (l : list A) :
  D x -> Forall D l -> StronglySorted P l ->
  StronglySorted P (JS.insert comparefn x l).
Proof.
  intros Dx Dl Hs; induction Hs as [|y l Hs IH Hy]; simpl.
  - repeat constructor.
  - inversion Dl as [|? ? Dy Dl']; subst.
    destruct (Z.ltb_spec (JS.SortCompare comparefn x y) 0) as [Hlt|Hge].
    + constructor; [now constructor|].
      constructor; [now apply before|].
      eapply Forall_impl; [exact Hy|].
      intros z Hz. eapply P_trans; [apply before; eassumption | exact Hz].
    + constructor; [now apply IH|].
      eapply Permutation_Forall; [symmetry; apply insert_Permutation|].
      constructor; [apply after; auto; lia | exact Hy].
Qed.

Lemma insert_Forall (x : A) (l : list A) :
  D x -> Forall D l -> Forall D (JS.insert comparefn x l).
Proof.
  intros Dx Dl.
  eapply Permutation_Forall; [symmetry; apply insert_Permutation|].
  now constructor.
Qed.

Lemma sort_sorted (xs : list A) :
  Forall D xs -> StronglySorted P (JS.stable_sort comparefn xs).
Proof.
  unfold JS.stable_sort.
  assert (G : forall acc, Forall D acc -> StronglySorted P acc -> Forall D xs ->
    StronglySorted P
      (fold_left (fun sorted x => JS.insert comparefn x sorted) xs acc)).
  { induction xs as [|x xs IH]; intros acc Dacc Hs Dxs; simpl; [exact Hs|].
    inversion Dxs; subst.
    apply IH; auto using insert_Forall, insert_sorted. }
  intros Dxs. apply G; auto; constructor.
Qed.

End Sorting.

Lemma insert_last {A} (cmp : A -> A -> number) (x : A) (l : list A) :
  Forall (fun y => ~ JS.SortCompare cmp x y < 0) l ->
  JS.insert cmp x l = (l ++ [x])%list.
Proof.
  induction 1 as [|y l Hy Hl IH]; simpl; [reflexivity|].
  destruct (Z.ltb_spec (JS.SortCompare cmp x y) 0); [contradiction|].
  now rewrite IH.
Qed.

Lemma StronglySorted_before {A} (P : A -> A -> Prop) (l1 l2 : list A) (x : A) :
  StronglySorted P (l1 ++ x :: l2) -> Forall (fun y => P y x) l1.
Proof.
  induction l1 as [|y l1 IH]; simpl; intros Hs; [constructor|].
  apply StronglySorted_inv in Hs as [Hs Hall].
  constructor; [|now apply IH].
  rewrite Forall_forall in Hall. apply Hall.
  apply list_elem_of_In, in_or_app. right. now left.
Qed.

(** A list in which no element strictly precedes an earlier one is its own
    sort order. *)
Lemma stable_sort_fixed {A} (cmp : A -> A -> number) (xs acc : list A) :
  StronglySorted (fun y x => ~ JS.SortCompare cmp x y < 0) (acc ++ xs) ->
  fold_left (fun sorted x => JS.insert cmp x sorted) xs acc = (acc ++ xs)%list.
Proof.
  revert acc; induction xs as [|x xs IH]; intros acc Hs; simpl.
  - now rewrite app_nil_r.
  - rewrite (insert_last cmp x acc) by exact (StronglySorted_before _ _ _ _ Hs).
    rewrite IH; rewrite <- app_assoc; auto.
Qed.

(** ** Consistent comparators *)

Section Consistent.
Context {A : Type} (comparefn : A -> A -> number) (xs : list A).
Hypothesis C : JS.consistent comparefn xs.

Lemma consistent_lt_gt (a b : A) :
  In a xs -> In b xs ->
  JS.SortCompare comparefn a b < 0 -> 0 < JS.SortCompare comparefn b a.
Proof.
  intros Ha Hb H.
  destruct (C a b a Ha Hb Ha) as (_ & Haa & _ & _ & Hlt & _).
  destruct (C b a b Hb Ha Hb) as (_ & _ & Hsym & _).
  lia.
Qed.

Lemma consistent_gt_lt (a b : A) :
  In a xs -> In b xs ->
  0 < JS.SortCompare comparefn a b -> JS.SortCompare comparefn b a < 0.
Proof.
  intros Ha Hb H.
  destruct (C a b a Ha Hb Ha) as (_ & Haa & _ & _ & _ & Hgt).
  destruct (C b a b Hb Ha Hb) as (_ & _ & Hsym & _).
  lia.
Qed.

(** "Does not strictly precede" is transitive. *)
Lemma consistent_trans (a b c : A) :
  In a xs -> In b xs -> In c xs ->
  ~ JS.SortCompare comparefn b a < 0 -> ~ JS.SortCompare comparefn c b < 0 ->
  ~ JS.SortCompare comparefn c a < 0.
Proof.
  intros Ha Hb Hc Hba Hcb Hca.
  pose proof (consistent_lt_gt c a Hc Ha Hca) as Hac.
  destruct (C c b a Hc Hb Ha) as (_ & _ & Hcb_sym & Heq & _ & Hgt).
  destruct (C b a c Hb Ha Hc) as (_ & _ & Hba_sym & _ & _ & Hgt').
  destruct (C a c b Ha Hc Hb) as (_ & _ & _ & _ & _ & Hgt'').
  destruct (C a b a Ha Hb Ha) as (_ & _ & Hab_sym & _).
  destruct (C b c b Hb Hc Hb) as (_ & _ & Hbc_sym & _).
  lia.
Qed.

End Consistent.

(** ** The sample runtime *)

Lemma is_run_sorted {A} (comparefn : A -> A -> number) (xs l : list A) :
  JS.consistent comparefn xs -> (forall z, In z l -> In z xs) ->
  Ascii_runtime.is_run comparefn l = true ->
  StronglySorted (fun y x => ~ JS.SortCompare comparefn x y < 0) l.
Proof.
  intros C. induction l as [|x l IH]; intros Hin Hrun; [constructor|].
  simpl in Hrun. apply andb_true_iff in Hrun as [Hxy Hrun].
  assert (Hs : StronglySorted (fun y x => ~ JS.SortCompare comparefn x y < 0) l).
  { apply IH; [|exact Hrun]. intros z Hz. apply Hin. now right. }
  constructor; [exact Hs|].
  destruct l as [|y l]; [constructor|].
  apply negb_true_iff, Z.ltb_ge in Hxy.
  apply StronglySorted_inv in Hs as [_ Hy].
  constructor; [lia|].
  rewrite Forall_forall in Hy. apply Forall_forall. intros z Hz.
  apply (consistent_trans comparefn xs C x y z).
  - apply Hin. now left.
  - apply Hin. right. now left.
  - apply Hin. right. right. now apply list_elem_of_In.
  - lia.
  - now apply Hy.
Qed.

Lemma sort_Permutation_engine (A : Type) (comparefn : A -> A -> number)
    (xs : list A) :
  Permutation (Ascii_runtime.sort A comparefn xs) xs.
Proof.
  unfold Ascii_runtime.sort. destruct (Ascii_runtime.is_run comparefn xs);
    [reflexivity | apply sort_Permutation].
Qed.

Lemma sort_consistent_engine (A : Type) (comparefn : A -> A -> number)
    (xs : list A) :
  JS.consistent comparefn xs ->
  Ascii_runtime.sort A comparefn xs = JS.stable_sort comparefn xs.
Proof.
  intros C. unfold Ascii_runtime.sort.
  destruct (Ascii_runtime.is_run comparefn xs) eqn:Hrun; [|reflexivity].
  symmetry. apply (stable_sort_fixed comparefn xs []). simpl.
  now apply (is_run_sorted comparefn xs xs C).
Qed.

(** The runtime the statements are evaluated in. *)
#[local] Instance ascii_runtime : Runtime :=
  {| toLowerCase := Ascii_runtime.lower;
     trim := Ascii_runtime.strip;
     Date_getTime := Ascii_runtime.getTime;
     Array_sort := Ascii_runtime.sort;
     Array_sort_Permutation := sort_Permutation_engine;
     Array_sort_consistent := sort_consistent_engine |}.

Lemma StronglySorted_lookup {A} (P : A -> A -> Prop) (l : list A) (i j : nat) (a b : A) :
  StronglySorted P l -> (i < j)%nat -> l !! i = Some a -> l !! j = Some b -> P a b.
Proof.
  intros Hs; revert i j; induction Hs as [|x l Hs IH Hx]; intros i j Hij Hi Hj.
  - discriminate.
  - destruct j as [|j]; [lia|]. destruct i as [|i]; simpl in *.
    + injection Hi as <-. rewrite Forall_forall in Hx. apply Hx.
      eapply list_elem_of_lookup_2; eauto.
    + apply (IH i j); auto; lia.
Qed.

(** ** Ranking *)

Section RankingFacts.
Context `{RT : Runtime}.

Lemma relevance_rank_lt (q : string) (a b : SearchResult) :
  rank q a < rank q b -> JS.SortCompare (relevance q) a b = -1.
Proof.
  unfold rank, JS.SortCompare, relevance, titleMatch, categoryMatch.
  destruct (JS.includes (toLowerCase (title a)) _),
           (JS.includes (toLowerCase (title b)) _),
           (JS.includes (toLowerCase (category a)) _),
           (JS.includes (toLowerCase (category b)) _); simpl; lia.
Qed.

Lemma relevance_rank_gt (q : string) (a b : SearchResult) :
  rank q b < rank q a -> JS.SortCompare (relevance q) a b = 1.
Proof.
  unfold rank, JS.SortCompare, relevance, titleMatch, categoryMatch.
  destruct (JS.includes (toLowerCase (title a)) _),
           (JS.includes (toLowerCase (title b)) _),
           (JS.includes (toLowerCase (category a)) _),
           (JS.includes (toLowerCase (category b)) _); simpl; lia.
Qed.

Lemma relevance_rank_eq (q : string) (a b : SearchResult) :
  rank q a = rank q b ->
  relevance q a b = JS.sub (Date_getTime (date b)) (Date_getTime (date a)).
Proof.
  unfold rank, relevance, titleMatch, categoryMatch.
  destruct (JS.includes (toLowerCase (title a)) _),
           (JS.includes (toLowerCase (title b)) _),
           (JS.includes (toLowerCase (category a)) _),
           (JS.includes (toLowerCase (category b)) _); simpl;
    intros; try reflexivity; lia.
Qed.

Lemma relevance_valid_eq (q : string) (a b : SearchResult) :
  valid_date a -> valid_date b -> rank q a = rank q b ->
  JS.SortCompare (relevance q) a b = time_of b - time_of a.
Proof.
  unfold valid_date, time_of, JS.SortCompare. intros Ha Hb Hr.
  rewrite (relevance_rank_eq q a b Hr).
  destruct (Date_getTime (date a)), (Date_getTime (date b)); simpl; congruence.
Qed.

Lemma relevance_cases (q : string) (x y : SearchResult) :
  valid_date x -> valid_date y ->
  (rank q x < rank q y /\ JS.SortCompare (relevance q) x y = -1) \/
  (rank q y < rank q x /\ JS.SortCompare (relevance q) x y = 1) \/
  (rank q x = rank q y /\
   JS.SortCompare (relevance q) x y = time_of y - time_of x).
Proof.
  intros Hx Hy.
  destruct (Z.lt_trichotomy (rank q x) (rank q y)) as [H|[H|H]].
  - left. split; [exact H | now apply relevance_rank_lt].
  - right; right. split; [exact H | now apply relevance_valid_eq].
  - right; left. split; [exact H | now apply relevance_rank_gt].
Qed.

Lemma relevance_Num (q : string) (a b : SearchResult) :
  valid_date a -> valid_date b -> relevance q a b <> NaN.
Proof.
  unfold valid_date, relevance. intros Ha Hb.
  destruct (JS.includes (toLowerCase (title a)) _),
           (JS.includes (toLowerCase (title b)) _),
           (JS.includes (toLowerCase (category a)) _),
           (JS.includes (toLowerCase (category b)) _); simpl;
    try discriminate;
    destruct (Date_getTime (date a)), (Date_getTime (date b)); simpl; congruence.
Qed.

(** When every date parses, the comparator of [sortResults] is a
    consistent comparator for the results, so that the sort order is the
    one ECMAScript fixes. *)
Lemma relevance_consistent_on (rs : list SearchResult) (q : string) :
  Forall valid_date rs -> JS.consistent (relevance q) rs.
Proof.
  intros Hv a b c Ha Hb Hc. rewrite Forall_forall in Hv.
  assert (Va : valid_date a) by now apply Hv, list_elem_of_In.
  assert (Vb : valid_date b) by now apply Hv, list_elem_of_In.
  assert (Vc : valid_date c) by now apply Hv, list_elem_of_In.
  pose proof (relevance_cases q a a Va Va).
  pose proof (relevance_cases q a b Va Vb).
  pose proof (relevance_cases q b a Vb Va).
  pose proof (relevance_cases q b c Vb Vc).
  pose proof (relevance_cases q a c Va Vc).
  split; [now apply relevance_Num|]. repeat split; lia.
Qed.

Lemma sortResults_stable (rs : list SearchResult) (q : string) :
  Forall valid_date rs -> sortResults rs q = JS.stable_sort (relevance q) rs.
Proof.
  intros Hv. apply Array_sort_consistent. now apply relevance_consistent_on.
Qed.

(** When every date parses, the output is ordered by title match, then by
    category match, then by date. *)
Lemma sortResults_sorted (rs : list SearchResult) (q : string) :
  Forall valid_date rs -> StronglySorted (ranks_before q) (sortResults rs q).
Proof.
  intros Hv. rewrite (sortResults_stable rs q Hv). revert Hv.
  apply (sort_sorted (relevance q) valid_date); unfold ranks_before.
  - intros; lia.
  - intros x y Hx Hy H.
    destruct (Z.lt_trichotomy (rank q x) (rank q y)) as [Hl|[He|Hg]].
    + now left.
    + rewrite relevance_valid_eq in H by assumption. right; lia.
    + rewrite (relevance_rank_gt q x y) in H; lia.
  - intros x y Hx Hy H.
    destruct (Z.lt_trichotomy (rank q x) (rank q y)) as [Hl|[He|Hg]].
    + rewrite (relevance_rank_lt q x y) in H; lia.
    + rewrite relevance_valid_eq in H by assumption. right; lia.
    + now left.
Qed.

Lemma sortResults_Permutation (rs : list SearchResult) (q : string) :
  Permutation (sortResults rs q) rs.
Proof. apply Array_sort_Permutation. Qed.


End RankingFacts.



(** ** Slices *)

Lemma slice_sublist {A} (xs : list A) (start end_ : Z) :
  sublist (JS.slice xs start end_) xs.
Proof.
  unfold JS.slice. etransitivity; [apply sublist_take | apply sublist_drop].
Qed.

Lemma slice_In {A} (xs : list A) (start end_ : Z) (x : A) :
  In x (JS.slice xs start end_) -> In x xs.
Proof.
  rewrite <- !list_elem_of_In. intros H.
  eapply elem_of_sublist; [exact H | apply slice_sublist].
Qed.

Lemma slice_length_le {A} (xs : list A) (start end_ : Z) :
  (length (JS.slice xs start end_) <= length xs)%nat.
Proof. apply sublist_length, slice_sublist. Qed.

(** A page of [limit] entries at most, for a [limit] that is not negative. *)
Lemma slice_length_limit {A} (xs : list A) (offset limit : Z) :
  0 <= limit -> Z.of_nat (length (JS.slice xs offset (offset + limit))) <= limit.
Proof.
  intros Hl. unfold JS.slice.
  set (len := Z.of_nat (length xs)).
  assert (0 <= len) by (unfold len; lia).
  match goal with |- Z.of_nat (length (take ?n _)) <= _ =>
    pose proof (firstn_le_length n (drop (Z.to_nat
      (if offset <? 0 then Z.max (len + offset) 0 else Z.min offset len)) xs)) as Hn;
    cut (Z.of_nat n <= limit); [lia|]
  end.
  destruct (Z.ltb_spec offset 0), (Z.ltb_spec (offset + limit) 0); lia.
Qed.

(** ** Cache keys *)

Lemma append_assoc (a b c : string) : (a +:+ b) +:+ c = a +:+ (b +:+ c).
Proof.
  induction a as [|x a IH]; [reflexivity|].
  change (String x ((a +:+ b) +:+ c) = String x (a +:+ (b +:+ c))).
  now rewrite IH.
Qed.

Lemma dashless_String (c : ascii) (s : string) :
  c <> "-"%char -> ~ substring_of "-" s -> ~ substring_of "-" (String c s).
Proof.
  intros Hc Hs [pre [post H]]. destruct pre as [|c' pre]; simpl in H.
  - inversion H; congruence.
  - inversion H; subst. apply Hs. now exists pre, post.
Qed.

Lemma dashless_empty : ~ substring_of "-" "".
Proof. intros [pre [post H]]. destruct pre; discriminate. Qed.

Lemma pretty_N_char_not_dash (x : N) : pretty_N_char x <> "-"%char.
Proof. unfold pretty_N_char. repeat case_match; discriminate. Qed.

Lemma pretty_N_go_dashless (x : N) (s : string) :
  ~ substring_of "-" s -> ~ substring_of "-" (pretty_N_go x s).
Proof.
  revert s. induction (N.lt_wf_0 x) as [x _ IH]; intros s Hs.
  assert (x = 0 \/ 0 < x)%N as [->|Hx] by lia.
  - now rewrite pretty_N_go_0.
  - rewrite pretty_N_go_step by done. apply IH.
    + now apply N.div_lt.
    + apply dashless_String; [apply pretty_N_char_not_dash | exact Hs].
Qed.

Lemma pretty_N_dashless (x : N) : ~ substring_of "-" (pretty x).
Proof.
  unfold pretty, pretty_N. case_decide.
  - apply dashless_String; [discriminate | apply dashless_empty].
  - apply pretty_N_go_dashless, dashless_empty.
Qed.

Lemma pretty_nonneg_dashless (z : Z) : 0 <= z -> ~ substring_of "-" (pretty z).
Proof.
  destruct z as [|p|p]; intros Hz; [| |lia].
  - apply (pretty_N_dashless 0).
  - apply (pretty_N_dashless (N.pos p)).
Qed.

Lemma pretty_N_nonempty (x : N) : pretty x <> "".
Proof.
  intros H. pose proof (pretty_N_inj x) as _.
  unfold pretty, pretty_N in H. case_decide; [discriminate|].
  assert (G : forall y s, s <> "" -> pretty_N_go y s <> "").
  { intros y. induction (N.lt_wf_0 y) as [y _ IH]; intros s Hs.
    assert (y = 0 \/ 0 < y)%N as [->|Hy] by lia.
    - now rewrite pretty_N_go_0.
    - rewrite pretty_N_go_step by done. apply IH; [now apply N.div_lt | discriminate]. }
  rewrite pretty_N_go_step in H by lia.
  now apply G in H.
Qed.

(** The text after the last dash decides the split. *)
Lemma split_at_last_dash (u u' d d' : string) :
  ~ substring_of "-" d -> ~ substring_of "-" d' ->
  u +:+ "-" +:+ d = u' +:+ "-" +:+ d' -> u = u' /\ d = d'.
Proof.
  intros Hd Hd'. revert u'; induction u as [|c u IH]; intros u' H.
  - destruct u' as [|c' u']; simpl in H.
    + now inversion H.
    + inversion H; subst. exfalso. apply Hd. now exists u', d'.
  - destruct u' as [|c' u']; simpl in H.
    + inversion H; subst. exfalso. apply Hd'. now exists u, d.
    + inversion H; subst. destruct (IH u') as [-> ->]; auto.
Qed.


Lemma cacheKey_nonneg (q : string) (l o : Z) :
  API.cacheKey q l o = (q +:+ "-" +:+ pretty l) +:+ "-" +:+ pretty o.
Proof. unfold API.cacheKey. now rewrite !append_assoc. Qed.

Lemma cacheKey_neg (q : string) (l : Z) (p : positive) :
  API.cacheKey q l (Z.neg p)
  = ((q +:+ "-" +:+ pretty l) +:+ "-") +:+ "-" +:+ pretty (N.pos p).
Proof. unfold API.cacheKey. now rewrite !append_assoc. Qed.

Lemma pretty_nonneg_nonempty (z : Z) : 0 <= z -> pretty z <> "".
Proof.
  destruct z as [|p|p]; intros Hz; [discriminate| |lia].
  apply (pretty_N_nonempty (N.pos p)).
Qed.

Lemma cacheKey_inj (q q' : string) (l l' o o' : Z) :
  0 <= l -> 0 <= l' ->
  API.cacheKey q l o = API.cacheKey q' l' o' -> q = q' /\ l = l' /\ o = o'.
Proof.
  intros Hl Hl'.
  pose proof (pretty_nonneg_dashless l Hl) as Dl.
  pose proof (pretty_nonneg_dashless l' Hl') as Dl'.
  assert (mixed : forall a b (z : Z), 0 <= z ->
            a +:+ "-" +:+ pretty z <> b +:+ "-").
  { intros a b z Hz H.
    apply (split_at_last_dash a b (pretty z) "") in H as [_ H];
      auto using pretty_nonneg_dashless, dashless_empty.
    now apply pretty_nonneg_nonempty in H. }
  destruct (Z.le_gt_cases 0 o) as [Ho|Ho], (Z.le_gt_cases 0 o') as [Ho'|Ho'].
  - rewrite !cacheKey_nonneg. intros H.
    apply split_at_last_dash in H as [H Ho2]; auto using pretty_nonneg_dashless.
    apply split_at_last_dash in H as [-> H]; auto.
    apply (inj pretty) in H, Ho2. auto.
  - destruct o' as [|p'|p']; try lia.
    rewrite (cacheKey_nonneg q l o), (cacheKey_neg q' l' p'). intros H.
    apply split_at_last_dash in H as [H _];
      auto using pretty_nonneg_dashless, pretty_N_dashless.
    now apply mixed in H.
  - destruct o as [|p|p]; try lia.
    rewrite (cacheKey_neg q l p), (cacheKey_nonneg q' l' o'). intros H.
    apply split_at_last_dash in H as [H _];
      auto using pretty_nonneg_dashless, pretty_N_dashless.
    symmetry in H. now apply mixed in H.
  - destruct o as [|p|p]; try lia. destruct o' as [|p'|p']; try lia.
    rewrite !cacheKey_neg. intros H.
    apply split_at_last_dash in H as [H Hp]; auto using pretty_N_dashless.
    apply (split_at_last_dash _ _ "" "") in H as [H _]; auto using dashless_empty.
    apply split_at_last_dash in H as [-> H]; auto.
    apply (inj pretty) in H, Hp. injection Hp as ->. auto.
Qed.
(** ** The service *)

Section Service.
Context `{RT : Runtime}.

Lemma build_response_results (allResults : list SearchResult) (q : string)
    (l o t : Z) (r : SearchResult) :
  In r (API.results (API.build_response allResults q l o t)) ->
  In r allResults /\ substring_of (toLowerCase q) (toLowerCase (concatenation r)).
Proof.
  simpl. intros H. apply slice_In in H.
  apply (Permutation_in _ (sortResults_Permutation _ q)) in H.
  now apply filterResults_In in H.
Qed.

Lemma build_response_count (allResults : list SearchResult) (q : string)
    (l o t : Z) :
  Z.of_nat (length (API.results (API.build_response allResults q l o t)))
  <= API.total (API.build_response allResults q l o t).
Proof.
  simpl. pose proof (slice_length_le
    (sortResults (filterResults allResults q) q) o (o + l)) as H.
  rewrite (Permutation_length (sortResults_Permutation _ q)) in H. lia.
Qed.

(** A stored entry is not returned while the clock reads five minutes or
    more above its [took]. *)
Lemma cache_get_stale (api : API.SearchAPI) (k : string) (now_ : Z)
    (cached : API.SearchResponse) :
  API.cache api !! k = Some cached ->
  API.cacheTimeout + API.took cached <= now_ ->
  API.cache_get api k now_ = None.
Proof.
  intros Hk Hnow. unfold API.cache_get. rewrite Hk.
  destruct (Z.ltb_spec (now_ - API.took cached) API.cacheTimeout); [lia | reflexivity].
Qed.

Lemma cache_get_Some (api : API.SearchAPI) (k : string) (now_ : Z)
    (cached : API.SearchResponse) :
  API.cache_get api k now_ = Some cached -> API.cache api !! k = Some cached.
Proof.
  unfold API.cache_get. destruct (API.cache api !! k) as [c|]; [|discriminate].
  destruct (_ <? _); congruence.
Qed.

(** What a call that misses the cache does. *)
Lemma search_miss (api : API.SearchAPI) (params : API.SearchParams)
    (signal : option AbortSignal) (env : Env) :
  let q := API.p_query params in
  let l := default 10 (API.p_limit params) in
  let o := default 0 (API.p_offset params) in
  API.cache_get api (API.cacheKey q l o) (Date_now env) = None ->
  forall resp api', API.search api params signal env = (Resolved resp, api') ->
  exists allResults,
    response env = JsonData allResults /\
    resp = API.build_response allResults q l o
             (performance_now_end env - performance_now_start env) /\
    API.cache api' = <[API.cacheKey q l o := resp]> (API.cache api) /\
    API.fetched api' = (API.fetched api ++ [API.baseUrl api])%list.
Proof.
  intros q l o Hmiss resp api'. unfold API.search. fold q l o. rewrite Hmiss.
  unfold API.on_catch.
  destruct (response env) as [e|st|e|allResults];
    try (destruct (API.signal_aborted signal); discriminate).
  intros [= <- <-]. exists allResults. auto.
Qed.

Lemma search_hit (api : API.SearchAPI) (params : API.SearchParams)
    (signal : option AbortSignal) (env : Env) (cached : API.SearchResponse) :
  API.cache_get api
    (API.cacheKey (API.p_query params) (default 10 (API.p_limit params))
       (default 0 (API.p_offset params))) (Date_now env) = Some cached ->
  API.search api params signal env = (Resolved cached, api).
Proof. intros H. unfold API.search. now rewrite H. Qed.

Lemma search_cache_grows (api : API.SearchAPI) (params : API.SearchParams)
    (signal : option AbortSignal) (env : Env) reply api' :
  API.search api params signal env = (reply, api') ->
  API.cache api' = API.cache api \/
  exists allResults,
    response env = JsonData allResults /\
    API.cache api' =
      <[API.cacheKey (API.p_query params) (default 10 (API.p_limit params))
          (default 0 (API.p_offset params))
        := API.build_response allResults (API.p_query params)
             (default 10 (API.p_limit params)) (default 0 (API.p_offset params))
             (performance_now_end env - performance_now_start env)]>
      (API.cache api).
Proof.
  unfold API.search. destruct (API.cache_get _ _ _).
  - intros [= <- <-]. now left.
  - destruct (response env) as [e|st|e|allResults]; intros [= <- <-];
      try (now left).
    right. exists allResults. auto.
Qed.

Lemma cache_sound_mono (ds ds' : list (list SearchResult)) (api : API.SearchAPI) :
  (forall d, In d ds -> In d ds') ->
  History.cache_sound ds api -> History.cache_sound ds' api.
Proof.
  intros Hsub Hs k resp Hk.
  destruct (Hs k resp Hk) as (d & q & l & o & t & Hd & H).
  exists d, q, l, o, t. auto.
Qed.

Lemma cache_sound_new : History.cache_sound [] API.new.
Proof. intros k resp H. simpl in H. now rewrite lookup_empty in H. Qed.

(** One call keeps the cache sound and answers with a response built for
    its own parameters. *)
Lemma search_sound (ds : list (list SearchResult)) (api : API.SearchAPI)
    (c : History.Call) reply api' :
  History.cache_sound ds api ->
  0 <= History.limit_of c ->
  API.search api (History.params c) (History.signal c) (History.env c)
    = (reply, api') ->
  History.cache_sound (ds ++ History.delivered [c])%list api' /\
  forall resp, reply = Resolved resp ->
    exists allResults t,
      In allResults (ds ++ History.delivered [c])%list /\
      resp = API.build_response allResults (History.query_of c)
               (History.limit_of c) (History.offset_of c) t.
Proof.
  intros Hs Hl Hcall.
  assert (Hs' : History.cache_sound (ds ++ History.delivered [c])%list api).
  { eapply cache_sound_mono; [|exact Hs]. intros d Hd. apply in_or_app. now left. }
  split.
  - intros k resp Hk.
    destruct (search_cache_grows _ _ _ _ _ _ Hcall) as [E|(d & Hd & E)];
      rewrite E in Hk; [now apply Hs'|].
    destruct (decide (k = API.cacheKey (History.query_of c) (History.limit_of c)
                           (History.offset_of c))) as [->|Hne].
    + unfold History.query_of, History.limit_of, History.offset_of in Hk.
      rewrite lookup_insert_eq in Hk. injection Hk as <-.
      exists d, (History.query_of c), (History.limit_of c), (History.offset_of c).
      eexists. repeat split; auto.
      apply in_or_app. right. unfold History.delivered. simpl. rewrite Hd. now left.
    + unfold History.query_of, History.limit_of, History.offset_of in Hne.
      rewrite lookup_insert_ne in Hk by congruence. now apply Hs'.
  - intros resp ->.
    destruct (API.cache_get api
                (API.cacheKey (History.query_of c) (History.limit_of c)
                   (History.offset_of c))
                (Date_now (History.env c))) as [cached|] eqn:Hget.
    + rewrite (search_hit _ _ _ _ _ Hget) in Hcall. injection Hcall as <- <-.
      apply cache_get_Some in Hget.
      destruct (Hs' _ _ Hget) as (d & q & l & o & t & Hd & Hl0 & Hkey & ->).
      symmetry in Hkey. apply cacheKey_inj in Hkey as (-> & -> & ->); auto.
      exists d, t. auto.
    + destruct (search_miss _ _ _ _ Hget _ _ Hcall) as (d & Hd & -> & _).
      exists d. eexists. split; [|reflexivity].
      apply in_or_app. right. unfold History.delivered. simpl. rewrite Hd. now left.
Qed.

Lemma delivered_cons (c : History.Call) (cs : list History.Call) :
  History.delivered (c :: cs)
  = (History.delivered [c] ++ History.delivered cs)%list.
Proof.
  unfold History.delivered. simpl.
  destruct (response (History.env c)); reflexivity.
Qed.

Lemma replay_sound (cs : list History.Call) :
  forall (ds : list (list SearchResult)) (api : API.SearchAPI),
  History.cache_sound ds api ->
  forall (i : nat) (c : History.Call) (resp : API.SearchResponse),
  Forall (fun c => 0 <= History.limit_of c) (take (S i) cs) ->
  cs !! i = Some c ->
  History.replies api cs !! i = Some (Resolved resp) ->
  exists allResults t,
    In allResults (ds ++ History.delivered (take (S i) cs))%list /\
    resp = API.build_response allResults (History.query_of c)
             (History.limit_of c) (History.offset_of c) t.
Proof.
  induction cs as [|c0 cs IH]; intros ds api Hs i c resp Hnn Hi Hr; [discriminate|].
  change (take (S i) (c0 :: cs)) with (c0 :: take i cs) in Hnn.
  inversion Hnn as [|? ? Hl0 Hnn']; subst.
  unfold History.replies in Hr. simpl in Hr.
  destruct (API.search api (History.params c0) (History.signal c0) (History.env c0))
    as [reply api1] eqn:Hcall.
  destruct (History.replay api1 cs) as [replies_ api2] eqn:Hrest.
  destruct (search_sound ds api c0 reply api1 Hs Hl0 Hcall) as [Hs1 Hreply].
  destruct i as [|i]; simpl in Hi, Hr.
  - injection Hi as <-. injection Hr as ->.
    destruct (Hreply resp eq_refl) as (d & t & Hd & ->).
    exists d, t. split; [|reflexivity].
    destruct cs; exact Hd.
  - assert (Hr' : History.replies api1 cs !! i = Some (Resolved resp)).
    { unfold History.replies. now rewrite Hrest. }
    destruct (IH _ _ Hs1 i c resp Hnn' Hi Hr') as (d & t & Hd & ->).
    exists d, t. split; [|reflexivity].
    change (take (S (S i)) (c0 :: cs)) with (c0 :: take (S i) cs).
    rewrite delivered_cons, app_assoc. exact Hd.
Qed.

(** The reply to the call at place [i] of a history is the reply of
    [search] in the state the calls before it have left. *)
Lemma replay_before (cs : list History.Call) :
  forall (api : API.SearchAPI) (i : nat) (c : History.Call) reply,
  cs !! i = Some c ->
  History.replies api cs !! i = Some reply ->
  fst (API.search (snd (History.replay api (take i cs)))
         (History.params c) (History.signal c) (History.env c)) = reply.
Proof.
  induction cs as [|c0 cs IH]; intros api i c reply Hi Hr; [discriminate|].
  unfold History.replies in Hr. simpl in Hr.
  destruct (API.search api (History.params c0) (History.signal c0) (History.env c0))
    as [reply0 api1] eqn:Hcall.
  destruct (History.replay api1 cs) as [replies_ api2] eqn:Hrest.
  destruct i as [|i]; simpl in Hi, Hr.
  - injection Hi as <-. injection Hr as <-. simpl. now rewrite Hcall.
  - change (take (S i) (c0 :: cs)) with (c0 :: take i cs).
    simpl. rewrite Hcall.
    destruct (History.replay api1 (take i cs)) as [replies' api'] eqn:E.
    simpl. specialize (IH api1 i c reply Hi).
    unfold History.replies in IH. rewrite Hrest, E in IH. now apply IH.
Qed.

Lemma delivered_In (cs : list History.Call) (c : History.Call)
    (allResults : list SearchResult) :
  In c cs -> response (History.env c) = JsonData allResults ->
  In allResults (History.delivered cs).
Proof.
  intros Hc Hd. apply list_elem_of_In. unfold History.delivered.
  apply list_elem_of_omap. exists c. split; [now apply list_elem_of_In|].
  now rewrite Hd.
Qed.

End Service.

(** ** Claims about the service *)

Section ServiceClaims.
Context `{RT : Runtime}.

(** C3. [filterResults] keeps exactly the results whose text (title,
    description, category, space-joined tags and author, joined by single
    spaces and lowercased) contains the lowercased query, in their order;
    hence every result of a response that [search] builds matches the
    query, and so does every result returned by any call of a history
    whose limits are not negative. *)
Theorem filterResults_keeps_matches :
  (forall rs q r,
     In r (filterResults rs q) <->
     In r rs /\ substring_of (toLowerCase q) (toLowerCase (concatenation r))) /\
  (forall rs q, sublist (filterResults rs q) rs) /\
  (forall api params signal env resp api' r,
     API.cache_get api
       (API.cacheKey (API.p_query params) (default 10 (API.p_limit params))
          (default 0 (API.p_offset params))) (Date_now env) = None ->
     API.search api params signal env = (Resolved resp, api') ->
     In r (API.results resp) ->
     exists allResults,
       response env = JsonData allResults /\ In r allResults /\
       substring_of (toLowerCase (API.p_query params))
         (toLowerCase (concatenation r))) /\
  (forall cs i c resp r,
     Forall (fun c => 0 <= History.limit_of c) cs ->
     cs !! i = Some c ->
     History.replies API.new cs !! i = Some (Resolved resp) ->
     In r (API.results resp) ->
     substring_of (toLowerCase (History.query_of c))
       (toLowerCase (concatenation r))).
Proof.
  split; [apply filterResults_In|].
  split; [apply filterResults_sublist|].
  split.
  - intros api params signal env resp api' r Hmiss Hcall Hr.
    destruct (search_miss _ _ _ _ Hmiss _ _ Hcall) as (d & Hd & -> & _).
    apply build_response_results in Hr as [Hin Hsub].
    exists d. auto.
  - intros cs i c resp r Hnn Hi Hreply Hr.
    destruct (replay_sound cs [] API.new cache_sound_new i c resp
                (Forall_take _ _ _ Hnn) Hi Hreply)
      as (d & t & _ & ->).
    now apply build_response_results in Hr.
Qed.

(** C9, corrected. A response that a call of [search] builds (the call
    misses the cache), and also one served from the cache when neither the
    call nor any call before it on the service object had a negative
    limit, holds the sorted filtered list sliced from [offset] to
    [offset + limit]; its [total] is the number of all filtered matches,
    which the number of returned results does not exceed; and its [query]
    is the query of the call.  It holds at most [limit] entries when
    [limit] is not negative. *)
Theorem search_response (cs : list History.Call) (i : nat) (c : History.Call)
    (resp : API.SearchResponse) :
  cs !! i = Some c ->
  History.replies API.new cs !! i = Some (Resolved resp) ->
  Forall (fun c => 0 <= History.limit_of c) (take (S i) cs) \/
  API.cache_get (snd (History.replay API.new (take i cs)))
    (API.cacheKey (History.query_of c) (History.limit_of c) (History.offset_of c))
    (Date_now (History.env c)) = None ->
  exists allResults,
    In allResults (History.delivered (take (S i) cs)) /\
    let filtered := filterResults allResults (History.query_of c) in
    API.results resp
      = JS.slice (sortResults filtered (History.query_of c))
          (History.offset_of c) (History.offset_of c + History.limit_of c) /\
    (0 <= History.limit_of c ->
     Z.of_nat (length (API.results resp)) <= History.limit_of c) /\
    API.total resp = Z.of_nat (length filtered) /\
    Z.of_nat (length (API.results resp)) <= API.total resp /\
    API.query resp = History.query_of c.
Proof.
  intros Hi Hreply Hcase.
  assert (Hbuilt : exists allResults t,
            In allResults (History.delivered (take (S i) cs)) /\
            resp = API.build_response allResults (History.query_of c)
                     (History.limit_of c) (History.offset_of c) t).
  { destruct Hcase as [Hnn|Hmiss].
    - exact (replay_sound cs [] API.new cache_sound_new i c resp Hnn Hi Hreply).
    - pose proof (replay_before cs API.new i c _ Hi Hreply) as Hcall.
      destruct (API.search _ (History.params c) (History.signal c) (History.env c))
        as [reply api'] eqn:Hs.
      simpl in Hcall. subst reply.
      destruct (search_miss _ _ _ _ Hmiss _ _ Hs) as (d & Hd & -> & _).
      exists d. eexists. split; [|reflexivity].
      apply (delivered_In _ c); [|exact Hd].
      apply list_elem_of_In. apply (list_elem_of_lookup_2 _ i).
      rewrite lookup_take_lt by lia. exact Hi. }
  destruct Hbuilt as (d & t & Hd & ->).
  exists d. split; [exact Hd|].
  split; [reflexivity|].
  split; [apply slice_length_limit|].
  split; [reflexivity|].
  split; [apply build_response_count | reflexivity].
Qed.

(** A call settled successfully leaves its response under its key. *)
Lemma search_stores (api : API.SearchAPI) (params : API.SearchParams)
    (signal : option AbortSignal) (env : Env) resp api' :
  API.search api params signal env = (Resolved resp, api') ->
  API.cache api' !!
    API.cacheKey (API.p_query params) (default 10 (API.p_limit params))
      (default 0 (API.p_offset params)) = Some resp.
Proof.
  intros Hcall.
  destruct (API.cache_get api
              (API.cacheKey (API.p_query params) (default 10 (API.p_limit params))
                 (default 0 (API.p_offset params)))
              (Date_now env)) as [cached|] eqn:Hget.
  - rewrite (search_hit _ _ _ _ _ Hget) in Hcall. injection Hcall as <- <-.
    now apply cache_get_Some in Hget.
  - destruct (search_miss _ _ _ _ Hget _ _ Hcall) as (d & _ & _ & -> & _).
    apply lookup_insert_eq.
Qed.

(** The same call made again fetches the dataset again whenever the clock
    reads five minutes or more above the stored [took]: the stored
    duration is compared with a time of day. *)
Lemma search_again_fetches (api : API.SearchAPI) (params : API.SearchParams)
    (signal signal2 : option AbortSignal) (env env2 : Env) resp api' :
  API.search api params signal env = (Resolved resp, api') ->
  API.cacheTimeout + API.took resp <= Date_now env2 ->
  API.fetched (snd (API.search api' params signal2 env2))
  = (API.fetched api' ++ [API.baseUrl api'])%list.
Proof.
  intros Hcall Hnow. apply search_stores in Hcall.
  pose proof (cache_get_stale _ _ _ _ Hcall Hnow) as Hmiss.
  unfold API.search. rewrite Hmiss.
  destruct (response env2); reflexivity.
Qed.

(** The first half of C6: a call that fails while its signal is aborted
    rejects with "Request cancelled". *)
Lemma search_cancelled (api : API.SearchAPI) (params : API.SearchParams)
    (s : AbortSignal) (env : Env) (e : JsError) api' :
  aborted s = true ->
  API.search api params (Some s) env = (Rejected e, api') ->
  e = Error "Request cancelled".
Proof.
  intros Ha. unfold API.search, API.on_catch. simpl. rewrite Ha.
  destruct (API.cache_get _ _ _); [discriminate|].
  destruct (response env); congruence.
Qed.

Lemma search_fails (api : API.SearchAPI) (params : API.SearchParams)
    (signal : option AbortSignal) (env : Env) :
  API.cache_get api
    (API.cacheKey (API.p_query params) (default 10 (API.p_limit params))
       (default 0 (API.p_offset params))) (Date_now env) = None ->
  (forall allResults, response env <> JsonData allResults) ->
  exists e, fst (API.search api params signal env) = Rejected e.
Proof.
  intros Hmiss Hfail. unfold API.search, API.on_catch. rewrite Hmiss.
  destruct (response env) as [e|st|e|d]; [..|now destruct (Hfail d)];
    destruct (API.signal_aborted signal); simpl; eauto.
Qed.

End ServiceClaims.

Lemma filterResults_keeps_matches_witness :
  (In Sample.react_testing (filterResults Sample.data "REACT") <->
   In Sample.react_testing Sample.data /\
   substring_of (toLowerCase "REACT")
     (toLowerCase (concatenation Sample.react_testing))) /\
  ~ In Sample.node_streams (filterResults Sample.data "REACT").
Proof.
  split.
  - apply (proj1 filterResults_keeps_matches).
  - vm_compute. intros H.
    repeat (destruct H as [H|H]; [discriminate|]). exact H.
Defined.

Lemma search_response_witness :
  (exists c resp,
    Scenario.two_pages !! 1%nat = Some c /\
    History.replies API.new Scenario.two_pages !! 1%nat = Some (Resolved resp) /\
    Forall (fun c => 0 <= History.limit_of c) (take 2 Scenario.two_pages) /\
    API.results resp = [Sample.react_hooks; Sample.node_streams] /\
    exists allResults,
      In allResults (History.delivered (take 2 Scenario.two_pages)) /\
      let filtered := filterResults allResults (History.query_of c) in
      API.results resp
        = JS.slice (sortResults filtered (History.query_of c))
            (History.offset_of c) (History.offset_of c + History.limit_of c) /\
      (0 <= History.limit_of c ->
       Z.of_nat (length (API.results resp)) <= History.limit_of c) /\
      API.total resp = Z.of_nat (length filtered) /\
      Z.of_nat (length (API.results resp)) <= API.total resp /\
      API.query resp = History.query_of c) /\
  (exists c resp,
    [Scenario.negative_call] !! 0%nat = Some c /\
    History.replies API.new [Scenario.negative_call] !! 0%nat
      = Some (Resolved resp) /\
    History.limit_of c = -1 /\
    API.cache_get API.new
      (API.cacheKey (History.query_of c) (History.limit_of c) (History.offset_of c))
      (Date_now (History.env c)) = None /\
    API.results resp = [Sample.react_testing; Sample.react_hooks] /\
    API.total resp = 3 /\ API.query resp = "react").
Proof.
  split.
  - eexists; eexists.
    split; [reflexivity|].
    split; [vm_compute; reflexivity|].
    split; [repeat constructor; vm_compute; discriminate|].
    split; [reflexivity|].
    apply (search_response Scenario.two_pages 1).
    + reflexivity.
    + vm_compute; reflexivity.
    + left. repeat constructor; vm_compute; discriminate.
  - eexists; eexists.
    split; [reflexivity|].
    split; [vm_compute; reflexivity|].
    split; [reflexivity|].
    split; [reflexivity|].
    destruct (search_response [Scenario.negative_call] 0 Scenario.negative_call
                {| API.results := [Sample.react_testing; Sample.react_hooks];
                   API.total := 3; API.query := "react"; API.took := 12 |})
      as (d & _ & Hres & _ & Htot & _ & Hq).
    + reflexivity.
    + vm_compute; reflexivity.
    + right. reflexivity.
    + split; [reflexivity|]. split; reflexivity.
Defined.

(** Without the first condition a response from the cache can be that of
    another call: the keys of ("e", -1, 0) and ("e-", 1, 0) are both
    "e--1-0", and while the clock reads less than five minutes the second
    call is answered with the response stored by the first. *)
Lemma search_key_collision :
  API.cacheKey "e" (-1) 0 = API.cacheKey "e-" 1 0 /\
  exists resp,
    History.replies API.new Scenario.colliding !! 1%nat = Some (Resolved resp) /\
    API.query resp = "e" /\
    length (API.results resp) = 3%nat.
Proof.
  split; [reflexivity|]. eexists. split; [vm_compute; reflexivity|].
  split; reflexivity.
Qed.

(** C9 as stated fails for a negative limit: with [limit = -1] the slice
    drops the last match only, and two results are more than -1. *)
Lemma search_negative_limit :
  exists resp api',
    API.search API.new Scenario.negative_limit None
      (Sample.env_at 1793491200000 (JsonData Sample.data)) = (Resolved resp, api') /\
    API.results resp = [Sample.react_testing; Sample.react_hooks] /\
    ~ Z.of_nat (length (API.results resp)) <= default 10 (API.p_limit Scenario.negative_limit).
Proof.
  eexists; eexists. split; [vm_compute; reflexivity|].
  split; [reflexivity|]. vm_compute. intros H; apply H; reflexivity.
Qed.

(** C1, at the failing input. The first call resolves and its response is
    stored under the key of the parameters; the same call one second later,
    well within the five minutes, does not return the stored response from
    the cache: it fetches the dataset a second time. *)
Theorem search_repeated_fetches_again :
  exists r1 r2 api1 api2,
    API.search API.new Scenario.react_params None
      (History.env Scenario.first_call) = (Resolved r1, api1) /\
    API.cache api1 !! API.cacheKey "react" 10 0 = Some r1 /\
    Date_now (History.env Scenario.second_call)
      - Date_now (History.env Scenario.first_call) < API.cacheTimeout /\
    API.cache_get api1 (API.cacheKey "react" 10 0)
      (Date_now (History.env Scenario.second_call)) = None /\
    API.search api1 Scenario.react_params None
      (History.env Scenario.second_call) = (Resolved r2, api2) /\
    API.fetched api1 = ["/src/data.json"] /\
    API.fetched api2 = ["/src/data.json"; "/src/data.json"].
Proof.
  do 4 eexists.
  split; [vm_compute; reflexivity|].
  split; [vm_compute; reflexivity|].
  split; [vm_compute; reflexivity|].
  split; [vm_compute; reflexivity|].
  split; [vm_compute; reflexivity|].
  split; reflexivity.
Qed.

(** ** Suggestions *)

Section Suggestions.
Context `{RT : Runtime}.

Lemma Set_add_NoDup (x : string) (s : list string) :
  NoDup s -> NoDup (JS.Set_add x s).
Proof.
  intros Hs. unfold JS.Set_add. case_bool_decide; [exact Hs|].
  apply NoDup_app. split; [exact Hs|]. split.
  - intros y Hy Hx. apply list_elem_of_singleton in Hx. congruence.
  - apply NoDup_singleton.
Qed.

Lemma Set_add_In (x y : string) (s : list string) :
  In y (JS.Set_add x s) -> y = x \/ In y s.
Proof.
  unfold JS.Set_add. case_bool_decide; [auto|].
  intros Hin. apply in_app_or in Hin as [Hin|[Hin|[]]]; auto.
Qed.

Lemma suggest_from_sound (allResults : list SearchResult) (q : string)
    (s : list string) (r : SearchResult) :
  In r allResults -> sound_set allResults q s ->
  sound_set allResults q (API.suggest_from q s r).
Proof.
  intros Hr Hs. unfold API.suggest_from.
  assert (H1 : sound_set allResults q
    (if JS.includes (toLowerCase (title r)) (toLowerCase q)
     then JS.Set_add (title r) s else s)).
  { destruct (JS.includes _ _) eqn:E; [|exact Hs].
    destruct Hs as [Hn Hs]. split; [now apply Set_add_NoDup|].
    intros x Hx. apply Set_add_In in Hx as [->|Hx]; [|now apply Hs].
    split; [exists r; auto | now apply includes_spec]. }
  assert (H2 : sound_set allResults q
    (if JS.includes (toLowerCase (category r)) (toLowerCase q)
     then JS.Set_add (category r)
            (if JS.includes (toLowerCase (title r)) (toLowerCase q)
             then JS.Set_add (title r) s else s)
     else (if JS.includes (toLowerCase (title r)) (toLowerCase q)
           then JS.Set_add (title r) s else s))).
  { destruct (JS.includes (toLowerCase (category r)) _) eqn:E; [|exact H1].
    destruct H1 as [Hn H1]. split; [now apply Set_add_NoDup|].
    intros x Hx. apply Set_add_In in Hx as [->|Hx]; [|now apply H1].
    split; [exists r; auto | now apply includes_spec]. }
  revert H2. generalize
    (if JS.includes (toLowerCase (category r)) (toLowerCase q)
     then JS.Set_add (category r)
            (if JS.includes (toLowerCase (title r)) (toLowerCase q)
             then JS.Set_add (title r) s else s)
     else (if JS.includes (toLowerCase (title r)) (toLowerCase q)
           then JS.Set_add (title r) s else s)).
  assert (Htags : forall tag, In tag (tags r) -> In tag (tags r)) by auto.
  revert Htags. generalize (tags r) at 1 3.
  intros ts; induction ts as [|tag ts IH]; intros Hts acc Hacc; simpl; [exact Hacc|].
  apply IH; [intros; apply Hts; now right|].
  destruct (JS.includes (toLowerCase tag) _) eqn:E; [|exact Hacc].
  destruct Hacc as [Hn Hacc]. split; [now apply Set_add_NoDup|].
  intros x Hx. apply Set_add_In in Hx as [->|Hx]; [|now apply Hacc].
  split; [exists r; split; [exact Hr|]; right; right; apply Hts; now left
         | now apply includes_spec].
Qed.

Lemma collect_suggestions_sound (allResults : list SearchResult) (q : string) :
  sound_set allResults q (API.collect_suggestions allResults q).
Proof.
  unfold API.collect_suggestions.
  assert (G : forall rs acc, (forall r, In r rs -> In r allResults) ->
    sound_set allResults q acc ->
    sound_set allResults q (fold_left (API.suggest_from q) rs acc)).
  { induction rs as [|r rs IH]; intros acc Hrs Hacc; simpl; [exact Hacc|].
    apply IH; [intros; apply Hrs; now right|].
    apply suggest_from_sound; [apply Hrs; now left | exact Hacc]. }
  apply G; [auto|]. split; [constructor | intros x []].
Qed.

(** C10. [getSuggestions] resolves with the empty list for every query
    shorter than 2; whenever it resolves, its list holds at most 5
    strings, no string twice, and each is a title, a category or a tag of
    an entry of the fetched dataset that contains the query when both are
    lowercased. *)
Theorem getSuggestions_spec (api : API.SearchAPI) (q : string)
    (signal : option AbortSignal) (env : Env) :
  ((String.length q < 2)%nat ->
   API.getSuggestions api q signal env = (Resolved [], api)) /\
  (forall l api',
     API.getSuggestions api q signal env = (Resolved l, api') ->
     (length l <= 5)%nat /\ NoDup l /\
     forall s, In s l ->
       exists allResults,
         response env = JsonData allResults /\ suggestion_of allResults q s).
Proof.
  unfold API.getSuggestions. split.
  - intros Hq. apply Nat.ltb_lt in Hq. now rewrite Hq.
  - intros l api'. destruct (_ <? _)%nat.
    + intros [= <- <-]. split; [simpl; lia|]. split; [constructor | intros s []].
    + unfold API.on_catch.
      destruct (response env) as [e|st|e|allResults];
        try (destruct (API.signal_aborted signal); discriminate).
      intros [= <- <-].
      destruct (collect_suggestions_sound allResults q) as [Hn Hs].
      split.
      { pose proof (slice_length_limit (API.collect_suggestions allResults q) 0 5).
        change (0 + 5) with 5 in *. lia. }
      split.
      { eapply sublist_NoDup; [exact Hn | apply slice_sublist]. }
      intros s Hin. exists allResults. split; [reflexivity|].
      apply Hs. eapply slice_In; eauto.
Qed.

End Suggestions.

Lemma getSuggestions_spec_witness :
  (String.length "r" < 2)%nat /\
  API.getSuggestions API.new "r" None (Sample.env_at 0 (JsonData Sample.data))
    = (Resolved [], API.new) /\
  fst (API.getSuggestions API.new "RE" None (Sample.env_at 0 (JsonData Sample.data)))
    = Resolved ["React Hooks Guide"; "react"; "Testing React Apps"; "Node Streams"].
Proof.
  split; [vm_compute; lia|].
  split; [|vm_compute; reflexivity].
  apply (proj1 (getSuggestions_spec API.new "r" None
                  (Sample.env_at 0 (JsonData Sample.data)))).
  vm_compute; lia.
Defined.

(** ** The hook *)

Module HookFacts.
Import UseSearch.

Ltac unfold_updates :=
  unfold setQuery, setQueryImmediate, clearResults, unmount,
    clear_pending_timeout, abort_current, clearTimeout, setTimeout,
    setState, logger, abort, new_AbortController, increment_requestId,
    suspend, set_inflight, set_timers, set_now in *.

(** *** What [performSearch] and [resume] touch *)

Lemma performSearch_short (q : string) (h : Hook) :
  Z.of_nat (String.length q) < minQueryLength (options h) ->
  performSearch q h =
  setState (fun _ => {| results := []; loading := false; error := None;
                        query := q |})
    (logger (searchStarted q) h).
Proof.
  intros H. unfold performSearch.
  change (options (logger (searchStarted q) h)) with (options h).
  apply Z.ltb_lt in H. now rewrite H.
Qed.

Lemma performSearch_long (q : string) (h : Hook) :
  minQueryLength (options h) <= Z.of_nat (String.length q) ->
  performSearch q h =
  let h1 := abort_current (logger (searchStarted q) h) in
  suspend {| currentRequestId := requestIdRef h + 1;
             abortController := length (controllers h1);
             request_query := q |}
    (setState (fun prev => {| results := results prev; loading := true;
                              error := None; query := q |})
       (increment_requestId (new_AbortController h1))).
Proof.
  intros H. unfold performSearch.
  change (options (logger (searchStarted q) h)) with (options h).
  apply Z.ltb_ge in H. rewrite H. unfold abort_current.
  change (abortControllerRef (logger (searchStarted q) h))
    with (abortControllerRef h).
  destruct (abortControllerRef h); reflexivity.
Qed.

Lemma performSearch_cases (q : string) (h : Hook) :
  Z.of_nat (String.length q) < minQueryLength (options h) \/
  minQueryLength (options h) <= Z.of_nat (String.length q).
Proof. lia. Qed.

Lemma performSearch_options q h : options (performSearch q h) = options h.
Proof.
  destruct (performSearch_cases q h) as [H|H].
  - now rewrite performSearch_short.
  - rewrite performSearch_long by assumption. unfold abort_current.
    destruct (abortControllerRef _); reflexivity.
Qed.

Lemma performSearch_timers q h :
  timers (performSearch q h) = timers h /\
  debounceTimeoutRef (performSearch q h) = debounceTimeoutRef h /\
  timersCreated (performSearch q h) = timersCreated h /\
  now (performSearch q h) = now h.
Proof.
  destruct (performSearch_cases q h) as [H|H].
  - now rewrite performSearch_short.
  - rewrite performSearch_long by assumption. unfold abort_current.
    destruct (abortControllerRef _); auto.
Qed.

Lemma performSearch_searched q h :
  searched (performSearch q h) = (searched h ++ [q])%list.
Proof.
  assert (E : log (performSearch q h) = (log h ++ [searchStarted q])%list).
  { destruct (performSearch_cases q h) as [H|H].
    - now rewrite performSearch_short.
    - rewrite performSearch_long by assumption. unfold abort_current.
      destruct (abortControllerRef _); reflexivity. }
  unfold searched. rewrite E, omap_app. reflexivity.
Qed.

Lemma performSearch_requestId q h :
  requestIdRef h <= requestIdRef (performSearch q h).
Proof.
  destruct (performSearch_cases q h) as [H|H].
  - rewrite performSearch_short by assumption. simpl. lia.
  - rewrite performSearch_long by assumption. unfold abort_current.
    destruct (abortControllerRef _); simpl; lia.
Qed.

Lemma performSearch_long_requestId q h :
  minQueryLength (options h) <= Z.of_nat (String.length q) ->
  requestIdRef (performSearch q h) = requestIdRef h + 1.
Proof.
  intros H. rewrite performSearch_long by assumption. unfold abort_current.
  destruct (abortControllerRef _); reflexivity.
Qed.

(** A stale request changes nothing. *)
Lemma resume_stale (r : Request) (outcome : Promise (list SearchResult)) (h : Hook) :
  currentRequestId r <> requestIdRef h -> resume r outcome h = h.
Proof.
  intros H. apply Z.eqb_neq in H. unfold resume.
  destruct outcome; rewrite H; reflexivity.
Qed.

(** A cancelled request reports no error. *)
Lemma resume_cancelled (r : Request) (e : JsError) (h : Hook) :
  signal_aborted (abortController r) h = true -> resume r (Rejected e) h = h.
Proof.
  intros H. unfold resume. rewrite H, andb_false_r. reflexivity.
Qed.

Lemma resume_keeps (r : Request) outcome (h : Hook) :
  options (resume r outcome h) = options h /\
  requestIdRef (resume r outcome h) = requestIdRef h /\
  abortControllerRef (resume r outcome h) = abortControllerRef h /\
  debounceTimeoutRef (resume r outcome h) = debounceTimeoutRef h /\
  controllers (resume r outcome h) = controllers h /\
  timers (resume r outcome h) = timers h /\
  timersCreated (resume r outcome h) = timersCreated h /\
  now (resume r outcome h) = now h /\
  inflight (resume r outcome h) = inflight h /\
  searched (resume r outcome h) = searched h.
Proof.
  unfold resume, searched.
  destruct outcome.
  - destruct (_ =? _); simpl; rewrite ?omap_app, ?app_nil_r; auto 12.
  - destruct (_ && _); simpl; rewrite ?omap_app, ?app_nil_r; auto 12.
Qed.

End HookFacts.

Module HookInvariants.
Import UseSearch HookFacts.

Lemma aborted_ref_length h : length (aborted_ref h) = length (controllers h).
Proof. unfold aborted_ref. destruct (abortControllerRef h); [apply length_insert | reflexivity]. Qed.

Lemma performSearch_long_fields (q : string) (h : Hook) :
  minQueryLength (options h) <= Z.of_nat (String.length q) ->
  inflight (performSearch q h)
  = (inflight h ++ [{| currentRequestId := requestIdRef h + 1;
                       abortController := length (controllers h);
                       request_query := q |}])%list /\
  controllers (performSearch q h) = (aborted_ref h ++ [false])%list /\
  abortControllerRef (performSearch q h) = Some (length (controllers h)).
Proof.
  intros H. rewrite performSearch_long by assumption.
  unfold aborted_ref, abort_current.
  change (abortControllerRef (logger (searchStarted q) h)) with (abortControllerRef h).
  destruct (abortControllerRef h) as [c|]; simpl; rewrite ?length_insert; auto.
Qed.

Lemma performSearch_short_fields (q : string) (h : Hook) :
  Z.of_nat (String.length q) < minQueryLength (options h) ->
  inflight (performSearch q h) = inflight h /\
  controllers (performSearch q h) = controllers h /\
  abortControllerRef (performSearch q h) = abortControllerRef h /\
  requestIdRef (performSearch q h) = requestIdRef h.
Proof. intros H. rewrite performSearch_short by assumption. auto. Qed.

Lemma performSearch_ids (q : string) (h : Hook) :
  ids_ok h -> ids_ok (performSearch q h).
Proof.
  intros [Hle Hnd]. unfold ids_ok.
  destruct (performSearch_cases q h) as [H|H].
  - destruct (performSearch_short_fields q h H) as (-> & _ & _ & ->). auto.
  - destruct (performSearch_long_fields q h H) as (-> & _ & _).
    rewrite (performSearch_long_requestId q h H). split.
    + apply Forall_app. split.
      * eapply Forall_impl; [exact Hle|]. simpl. intros; lia.
      * repeat constructor. simpl. lia.
    + rewrite map_app. simpl. apply NoDup_app. split; [exact Hnd|]. split.
      * intros x Hx Hx'. apply list_elem_of_singleton in Hx'. subst x.
        apply list_elem_of_In, in_map_iff in Hx as (r & Hr & Hin).
        rewrite Forall_forall in Hle. apply list_elem_of_In, Hle in Hin. lia.
      * apply NoDup_singleton.
Qed.

Lemma aborted_ref_live (h : Hook) (c : nat) :
  (forall c, controllers h !! c = Some false -> abortControllerRef h = Some c) ->
  aborted_ref h !! c <> Some false.
Proof.
  intros Hlive Hc. unfold aborted_ref in Hc.
  destruct (abortControllerRef h) as [c0|] eqn:E.
  - destruct (decide (c0 = c)) as [->|Hne].
    + assert (Hlt : (c < length (controllers h))%nat).
      { apply lookup_lt_Some in Hc. now rewrite length_insert in Hc. }
      rewrite list_lookup_insert_eq in Hc by assumption. discriminate.
    + rewrite list_lookup_insert_ne in Hc by assumption.
      apply Hlive in Hc. congruence.
  - apply Hlive in Hc. congruence.
Qed.

Lemma performSearch_controllers (q : string) (h : Hook) :
  controllers_ok h -> controllers_ok (performSearch q h).
Proof.
  intros (Hlt & Hnd & Hlive). unfold controllers_ok.
  destruct (performSearch_cases q h) as [H|H].
  - destruct (performSearch_short_fields q h H) as (-> & -> & -> & _). auto.
  - destruct (performSearch_long_fields q h H) as (-> & -> & ->).
    split; [|split].
    + rewrite length_app, aborted_ref_length. simpl.
      apply Forall_app. split.
      * eapply Forall_impl; [exact Hlt|]. simpl. intros; lia.
      * repeat constructor. simpl. lia.
    + rewrite map_app. simpl. apply NoDup_app. split; [exact Hnd|]. split.
      * intros x Hx Hx'. apply list_elem_of_singleton in Hx'. subst x.
        apply list_elem_of_In, in_map_iff in Hx as (r & Hr & Hin).
        rewrite Forall_forall in Hlt. apply list_elem_of_In, Hlt in Hin. lia.
      * apply NoDup_singleton.
    + intros c Hc.
      destruct (decide (c < length (aborted_ref h))%nat) as [Hin|Hout].
      * rewrite lookup_app_l in Hc by assumption.
        now apply aborted_ref_live in Hc.
      * apply lookup_lt_Some in Hc as Hc'. rewrite length_app in Hc'. simpl in Hc'.
        rewrite aborted_ref_length in *. f_equal. lia.
Qed.

Lemma performSearch_timers_ok (q : string) (h : Hook) :
  timers_ok h -> timers_ok (performSearch q h).
Proof.
  unfold timers_ok. destruct (performSearch_timers q h) as (-> & -> & _). auto.
Qed.

Lemma abort_current_controllers (h : Hook) :
  controllers_ok h -> controllers_ok (abort_current h).
Proof.
  intros (Hlt & Hnd & Hlive). unfold controllers_ok.
  assert (E : controllers (abort_current h) = aborted_ref h).
  { unfold abort_current, aborted_ref. destruct (abortControllerRef h); reflexivity. }
  assert (E2 : inflight (abort_current h) = inflight h).
  { unfold abort_current. destruct (abortControllerRef h); reflexivity. }
  rewrite E, E2, aborted_ref_length. repeat split; auto.
  intros c Hc. now apply aborted_ref_live in Hc.
Qed.

(** *** The invariants only read some fields *)

Lemma ids_ok_ext (h h' : Hook) :
  inflight h' = inflight h -> requestIdRef h' = requestIdRef h ->
  ids_ok h -> ids_ok h'.
Proof. unfold ids_ok. intros -> ->. auto. Qed.

Lemma controllers_ok_ext (h h' : Hook) :
  inflight h' = inflight h -> controllers h' = controllers h ->
  abortControllerRef h' = abortControllerRef h ->
  controllers_ok h -> controllers_ok h'.
Proof. unfold controllers_ok. intros -> -> ->. auto. Qed.

Lemma timers_ok_ext (h h' : Hook) :
  timers h' = timers h -> debounceTimeoutRef h' = debounceTimeoutRef h ->
  timers_ok h -> timers_ok h'.
Proof. unfold timers_ok. intros -> ->. auto. Qed.

(** *** Timers *)

Lemma clear_pending_timeout_timers (h : Hook) :
  timers_ok h -> timers (clear_pending_timeout h) = [].
Proof.
  intros [E|(t & E & Href)]; unfold clear_pending_timeout.
  - destruct (debounceTimeoutRef h); [|exact E].
    unfold clearTimeout. simpl. now rewrite E.
  - rewrite Href. unfold clearTimeout. simpl. rewrite E. simpl.
    now rewrite Nat.eqb_refl.
Qed.

Lemma clear_pending_timeout_keeps (h : Hook) :
  options (clear_pending_timeout h) = options h /\
  state (clear_pending_timeout h) = state h /\
  requestIdRef (clear_pending_timeout h) = requestIdRef h /\
  abortControllerRef (clear_pending_timeout h) = abortControllerRef h /\
  controllers (clear_pending_timeout h) = controllers h /\
  timersCreated (clear_pending_timeout h) = timersCreated h /\
  now (clear_pending_timeout h) = now h /\
  inflight (clear_pending_timeout h) = inflight h /\
  log (clear_pending_timeout h) = log h.
Proof.
  unfold clear_pending_timeout. destruct (debounceTimeoutRef h) eqn:E; simpl; repeat split; auto.
Qed.

Lemma abort_current_keeps (h : Hook) :
  options (abort_current h) = options h /\
  state (abort_current h) = state h /\
  requestIdRef (abort_current h) = requestIdRef h /\
  abortControllerRef (abort_current h) = abortControllerRef h /\
  debounceTimeoutRef (abort_current h) = debounceTimeoutRef h /\
  timers (abort_current h) = timers h /\
  timersCreated (abort_current h) = timersCreated h /\
  now (abort_current h) = now h /\
  inflight (abort_current h) = inflight h /\
  log (abort_current h) = log h.
Proof.
  unfold abort_current. destruct (abortControllerRef h) eqn:E; simpl; repeat split; auto.
Qed.

(** What [setQuery] leaves in the queue: the new timeout alone. *)
Lemma setQuery_timers (q : string) (h : Hook) :
  timers_ok h ->
  timers (setQuery q h)
  = [{| timer_id := S (timersCreated h);
        deadline := now h + Z.max 0 (debounceMs (options h));
        timer_query := q |}] /\
  debounceTimeoutRef (setQuery q h) = Some (S (timersCreated h)).
Proof.
  intros Ht. unfold setQuery, setTimeout.
  set (h1 := setState _ h).
  assert (Ht1 : timers_ok h1) by exact Ht.
  destruct (clear_pending_timeout_keeps h1) as (-> & _ & _ & _ & _ & -> & -> & _).
  simpl. rewrite (clear_pending_timeout_timers h1 Ht1). auto.
Qed.

(** *** One step *)

Lemma sublist_map {A B} (f : A -> B) (l k : list A) :
  sublist l k -> sublist (map f l) (map f k).
Proof. induction 1; simpl; now constructor. Qed.

Lemma fold_performSearch_ok (due : list Timer) (h : Hook) :
  ids_ok h -> controllers_ok h -> timers_ok h ->
  let h' := fold_left (fun h u => performSearch (timer_query u) h) due h in
  ids_ok h' /\ controllers_ok h' /\ timers_ok h'.
Proof.
  revert h; induction due as [|u due IH]; intros h Hi Hc Ht; simpl; [auto|].
  apply IH; auto using performSearch_ids, performSearch_controllers,
              performSearch_timers_ok.
Qed.

Lemma step_ok (h : Hook) (e : Event) :
  ids_ok h /\ controllers_ok h /\ timers_ok h ->
  ids_ok (step h e) /\ controllers_ok (step h e) /\ timers_ok (step h e).
Proof.
  intros (Hi & Hc & Ht). destruct e as [q|q| | |t|i outcome]; simpl.
  - (* setQuery *)
    destruct (setQuery_timers q h Ht) as [Et Er].
    assert (K : inflight (setQuery q h) = inflight h /\
                requestIdRef (setQuery q h) = requestIdRef h /\
                controllers (setQuery q h) = controllers h /\
                abortControllerRef (setQuery q h) = abortControllerRef h).
    { unfold setQuery, setTimeout. set (h1 := setState _ h). simpl.
      destruct (clear_pending_timeout_keeps h1) as (_ & _ & -> & -> & -> & _ & _ & -> & _).
      auto. }
    destruct K as (K1 & K2 & K3 & K4).
    split; [eapply ids_ok_ext; eauto|].
    split; [eapply controllers_ok_ext; eauto|].
    right. eexists. split; [exact Et | exact Er].
  - (* setQueryImmediate *)
    unfold setQueryImmediate. set (h1 := setState _ h).
    assert (Ht1 : timers_ok h1) by exact Ht.
    destruct (clear_pending_timeout_keeps h1) as (_ & _ & K2 & K4 & K3 & _ & _ & K1 & _).
    split; [apply performSearch_ids; eapply ids_ok_ext; eauto|].
    split; [apply performSearch_controllers; eapply controllers_ok_ext; eauto|].
    apply performSearch_timers_ok. left. now apply clear_pending_timeout_timers.
  - (* clearResults *)
    unfold clearResults.
    pose proof (abort_current_controllers h Hc) as Hc1.
    destruct (abort_current_keeps h) as (_ & _ & A2 & _ & A5 & A6 & _ & _ & A8 & _).
    assert (Ht1 : timers_ok (abort_current h)) by (eapply timers_ok_ext; eauto).
    destruct (clear_pending_timeout_keeps (abort_current h))
      as (_ & _ & K2 & K4 & K3 & _ & _ & K1 & _).
    split; [|split].
    + eapply (ids_ok_ext h); [| |exact Hi]; simpl; congruence.
    + eapply (controllers_ok_ext (abort_current h)); [| | |exact Hc1]; simpl; congruence.
    + left. simpl. now apply clear_pending_timeout_timers.
  - (* unmount *)
    unfold unmount.
    pose proof (abort_current_controllers h Hc) as Hc1.
    destruct (abort_current_keeps h) as (_ & _ & A2 & _ & A5 & A6 & _ & _ & A8 & _).
    assert (Ht1 : timers_ok (abort_current h)) by (eapply timers_ok_ext; eauto).
    destruct (clear_pending_timeout_keeps (abort_current h))
      as (_ & _ & K2 & K4 & K3 & _ & _ & K1 & _).
    split; [|split].
    + eapply (ids_ok_ext h); [| |exact Hi]; congruence.
    + eapply (controllers_ok_ext (abort_current h)); [| | |exact Hc1]; congruence.
    + left. now apply clear_pending_timeout_timers.
  - (* tick *)
    unfold tick. destruct (now h <=? t); [|auto].
    unfold run_timers.
    set (due := List.filter (fun u => deadline u <=? t) (timers h)).
    set (rest := List.filter (fun u => negb (deadline u <=? t)) (timers h)).
    assert (Hbase : timers_ok (set_timers rest h)).
    { unfold timers_ok. simpl. subst rest. clear due.
      destruct Ht as [->|(u & -> & Hu)]; simpl; [now left|].
      destruct (negb (deadline u <=? t)); [right; eauto | now left]. }
    destruct (fold_performSearch_ok due (set_timers rest h) Hi Hc Hbase)
      as (F1 & F2 & F3).
    auto.
  - (* settle *)
    unfold settle. destruct (find _ _) as [r|]; [|auto].
    set (h1 := set_inflight _ h).
    destruct (resume_keeps r outcome h1)
      as (_ & R2 & R3 & R4 & R5 & R6 & _ & _ & R9 & _).
    assert (Hsub : sublist (inflight h1) (inflight h)).
    { simpl. clear. induction (inflight h) as [|x l IH]; simpl; [constructor|].
      destruct (negb _); now constructor. }
    split; [|split].
    + eapply (ids_ok_ext h1); [assumption..|].
      destruct Hi as [Hle Hnd]. split.
      * simpl. apply Forall_forall. intros x Hx. rewrite Forall_forall in Hle.
        apply Hle. eapply elem_of_sublist; eauto.
      * eapply sublist_NoDup; [exact Hnd|]. now apply sublist_map.
    + eapply (controllers_ok_ext h1); [assumption..|].
      destruct Hc as (Hlt & Hnd & Hlive). split; [|split].
      * apply Forall_forall. intros x Hx. rewrite Forall_forall in Hlt.
        apply Hlt. eapply elem_of_sublist; eauto.
      * eapply sublist_NoDup; [exact Hnd|]. now apply sublist_map.
      * exact Hlive.
    + eapply (timers_ok_ext h1); [assumption..|]. exact Ht.
Qed.

Lemma mount_ok (opts : UseSearchOptions) :
  ids_ok (mount opts) /\ controllers_ok (mount opts) /\ timers_ok (mount opts).
Proof.
  unfold ids_ok, controllers_ok, timers_ok. simpl.
  repeat split; try constructor; auto. intros c H. discriminate.
Qed.

Lemma run_ok (events : list Event) (h : Hook) :
  ids_ok h /\ controllers_ok h /\ timers_ok h ->
  ids_ok (run h events) /\ controllers_ok (run h events) /\ timers_ok (run h events).
Proof.
  revert h; induction events as [|e events IH]; intros h H; [exact H|].
  simpl. apply IH, step_ok, H.
Qed.

Lemma reachable_ok (h : Hook) :
  reachable h -> ids_ok h /\ controllers_ok h /\ timers_ok h.
Proof. intros (opts & events & ->). apply run_ok, mount_ok. Qed.

Lemma reachable_run (h : Hook) (events : list Event) :
  reachable h -> reachable (run h events).
Proof.
  intros (opts & evs & ->). exists opts, (evs ++ events)%list.
  unfold run. now rewrite fold_left_app.
Qed.

End HookInvariants.

Module HookClaims.
Import UseSearch HookFacts HookInvariants.

Lemma step_requestId (h : Hook) (e : Event) :
  requestIdRef h <= requestIdRef (step h e).
Proof.
  destruct e as [q|q| | |t|i outcome]; simpl.
  - unfold setQuery, setTimeout. set (h1 := setState _ h). simpl.
    destruct (clear_pending_timeout_keeps h1) as (_ & _ & -> & _). simpl. lia.
  - unfold setQueryImmediate. set (h1 := setState _ h).
    etransitivity; [|apply performSearch_requestId].
    destruct (clear_pending_timeout_keeps h1) as (_ & _ & -> & _). simpl. lia.
  - unfold clearResults. simpl.
    destruct (clear_pending_timeout_keeps (abort_current h)) as (_ & _ & -> & _).
    destruct (abort_current_keeps h) as (_ & _ & -> & _). lia.
  - unfold unmount.
    destruct (clear_pending_timeout_keeps (abort_current h)) as (_ & _ & -> & _).
    destruct (abort_current_keeps h) as (_ & _ & -> & _). lia.
  - unfold tick. destruct (now h <=? t); [|lia]. simpl. unfold run_timers.
    generalize (List.filter (fun u => deadline u <=? t) (timers h)).
    change (requestIdRef h) with
      (requestIdRef (set_timers (List.filter (fun u => negb (deadline u <=? t)) (timers h)) h)).
    generalize (set_timers (List.filter (fun u => negb (deadline u <=? t)) (timers h)) h).
    intros h0 due; revert h0; induction due as [|u due IH]; intros h0; simpl; [lia|].
    etransitivity; [apply (performSearch_requestId (timer_query u))|apply IH].
  - unfold settle. destruct (find _ _) as [r|]; [|lia].
    destruct (resume_keeps r outcome
                (set_inflight (List.filter (fun r => negb (currentRequestId r =? i))
                                 (inflight h)) h)) as (_ & -> & _).
    simpl. lia.
Qed.

Lemma run_requestId (events : list Event) (h : Hook) :
  requestIdRef h <= requestIdRef (run h events).
Proof.
  revert h; induction events as [|e events IH]; intros h; simpl; [lia|].
  etransitivity; [apply (step_requestId h e) | apply IH].
Qed.

(** The guard of [performSearch]: the settlement of a request whose id is
    not the current one changes neither the state nor the log. *)
Lemma settle_stale (i : Z) (outcome : Promise (list SearchResult)) (h : Hook) :
  i <> requestIdRef h ->
  state (settle i outcome h) = state h /\ log (settle i outcome h) = log h.
Proof.
  intros Hne. unfold settle.
  destruct (find _ _) as [r|] eqn:Hf; [|auto].
  apply find_some in Hf as [_ Hid]. apply Z.eqb_eq in Hid.
  rewrite resume_stale; [auto|]. simpl. congruence.
Qed.

(** C2. Last request wins. The settlement of a request whose id is not
    the current request id changes neither the state nor the log; and once
    a new request has started, every request that was in flight before it
    has an id different from the current one, whatever events follow, so
    that in every interleaving only the most recently started request can
    store its results or its error. *)
Theorem last_request_wins :
  (forall h i outcome,
     i <> requestIdRef h ->
     state (settle i outcome h) = state h /\ log (settle i outcome h) = log h) /\
  (forall h r q events outcome,
     reachable h -> In r (inflight h) ->
     minQueryLength (options h) <= Z.of_nat (String.length q) ->
     let h' := run (performSearch q h) events in
     currentRequestId r < requestIdRef h' /\
     resume r outcome h' = h' /\
     state (settle (currentRequestId r) outcome h') = state h').
Proof.
  split; [intros; now apply settle_stale|].
  intros h r q events outcome Hreach Hr Hq h'.
  destruct (reachable_ok h Hreach) as ([Hle _] & _).
  rewrite Forall_forall in Hle. apply list_elem_of_In, Hle in Hr.
  assert (Hlt : currentRequestId r < requestIdRef h').
  { pose proof (run_requestId events (performSearch q h)) as Hmono.
    rewrite (performSearch_long_requestId q h Hq) in Hmono. subst h'. lia. }
  split; [exact Hlt|]. split.
  - apply resume_stale. lia.
  - apply settle_stale. lia.
Qed.

Lemma NoDup_map_inj {A B} (f : A -> B) (l : list A) (x y : A) :
  NoDup (map f l) -> In x l -> In y l -> f x = f y -> x = y.
Proof.
  induction l as [|a l IH]; simpl; [intros _ []|].
  intros Hnd Hx Hy E. apply NoDup_cons in Hnd as [Ha Hnd].
  destruct Hx as [->|Hx], Hy as [->|Hy]; auto.
  - exfalso. apply Ha. rewrite E. apply list_elem_of_In, in_map, Hy.
  - exfalso. apply Ha. rewrite <- E. apply list_elem_of_In, in_map, Hx.
Qed.

Lemma signal_aborted_false (c : nat) (h : Hook) :
  (c < length (controllers h))%nat -> signal_aborted c h = false ->
  controllers h !! c = Some false.
Proof.
  unfold signal_aborted. intros Hlt.
  destruct (lookup_lt_is_Some_2 _ _ Hlt) as [b ->]. simpl. now intros ->.
Qed.

(** C5. In every state the hook reaches, a controller that is not aborted
    is the one in [abortControllerRef], so at most one request in flight
    is not aborted; and when [performSearch] starts a new request it aborts
    the controller of the previous one before it creates the new
    controller: afterwards every request that was in flight is aborted
    and the new controller, not aborted, is the current one. *)
Theorem one_live_request (h : Hook) (q : string) :
  reachable h ->
  (forall c, controllers h !! c = Some false -> abortControllerRef h = Some c) /\
  (forall r r', In r (inflight h) -> In r' (inflight h) ->
     signal_aborted (abortController r) h = false ->
     signal_aborted (abortController r') h = false -> r = r') /\
  (minQueryLength (options h) <= Z.of_nat (String.length q) ->
     (forall r, In r (inflight h) ->
        signal_aborted (abortController r) (performSearch q h) = true) /\
     abortControllerRef (performSearch q h) = Some (length (controllers h)) /\
     controllers (performSearch q h) !! length (controllers h) = Some false /\
     forall c, controllers (performSearch q h) !! c = Some false ->
               c = length (controllers h)).
Proof.
  intros Hreach. destruct (reachable_ok h Hreach) as (_ & (Hlt & Hnd & Hlive) & _).
  rewrite Forall_forall in Hlt.
  split; [exact Hlive|]. split.
  - intros r r' Hr Hr' Ha Ha'.
    apply signal_aborted_false in Ha; [|now apply Hlt, list_elem_of_In].
    apply signal_aborted_false in Ha'; [|now apply Hlt, list_elem_of_In].
    apply Hlive in Ha, Ha'.
    eapply NoDup_map_inj; eauto. congruence.
  - intros Hq. destruct (performSearch_long_fields q h Hq) as (_ & Ec & Er).
    assert (Hnew : forall c, (aborted_ref h ++ [false])%list !! c = Some false ->
                             c = length (controllers h)).
    { intros c Hc.
      destruct (decide (c < length (aborted_ref h))%nat) as [Hin|Hout].
      - rewrite lookup_app_l in Hc by assumption.
        now apply aborted_ref_live in Hc.
      - apply lookup_lt_Some in Hc as Hc'. rewrite length_app in Hc'. simpl in Hc'.
        rewrite aborted_ref_length in *. lia. }
    split; [|split; [exact Er|split]].
    + intros r Hr. apply list_elem_of_In, Hlt in Hr.
      unfold signal_aborted. rewrite Ec.
      rewrite lookup_app_l by (now rewrite aborted_ref_length).
      destruct (aborted_ref h !! abortController r) as [[|]|] eqn:E; simpl.
      * reflexivity.
      * now apply aborted_ref_live in E.
      * apply lookup_ge_None in E. rewrite aborted_ref_length in E. lia.
    + rewrite Ec, lookup_app_r by (rewrite aborted_ref_length; lia).
      rewrite aborted_ref_length, Nat.sub_diag. reflexivity.
    + intros c. rewrite Ec. apply Hnew.
Qed.

Section WithRuntime.
Context `{RT : Runtime}.

(** C6. A request of the hook that fails while its signal is aborted is
    rejected by the service with the error "Request cancelled", and its
    settlement leaves the state of the hook, its [error] included, and
    the log as they were. *)
Theorem cancelled_request_is_silent (h : Hook) (api : API.SearchAPI)
    (r : Request) (env : Env) (e : JsError) (api' : API.SearchAPI) :
  reachable h -> In r (inflight h) ->
  signal_aborted (abortController r) h = true ->
  performAPISearch api (request_query r)
    {| aborted := signal_aborted (abortController r) h |} env
    = (Rejected e, api') ->
  e = Error "Request cancelled" /\
  state (fst (answer r env (h, api))) = state h /\
  error (state (fst (answer r env (h, api)))) = error (state h) /\
  log (fst (answer r env (h, api))) = log h.
Proof.
  intros Hreach Hr Ha Hcall.
  destruct (reachable_ok h Hreach) as ((_ & Hnd) & _).
  assert (He : e = Error "Request cancelled").
  { unfold performAPISearch in Hcall.
    destruct (API.search _ _ _ _) as [[resp|e0] api0] eqn:Hs; [discriminate|].
    injection Hcall as <- <-.
    eapply search_cancelled; [|exact Hs]. exact Ha. }
  split; [exact He|].
  assert (Hst : state (fst (answer r env (h, api))) = state h /\
                log (fst (answer r env (h, api))) = log h).
  { unfold answer. rewrite Hcall. simpl. unfold settle.
    destruct (find _ _) as [r'|] eqn:Hf; [|auto].
    apply find_some in Hf as [Hr' Hid]. apply Z.eqb_eq in Hid.
    assert (r' = r) as -> by (eapply NoDup_map_inj; eauto).
    rewrite resume_cancelled; [auto|]. exact Ha. }
  destruct Hst as [Hst Hlog]. now rewrite Hst.
Qed.

End WithRuntime.

(** *** Debouncing *)

Lemma same_requests_trans (a b c : Hook) :
  same_requests a b -> same_requests b c -> same_requests a c.
Proof.
  unfold same_requests. intros (A1 & A2 & A3 & A4 & A5 & A6) (B1 & B2 & B3 & B4 & B5 & B6).
  repeat split; congruence.
Qed.

Lemma setQuery_same (q : string) (h : Hook) : same_requests (setQuery q h) h.
Proof.
  unfold same_requests, setQuery, setTimeout. set (h1 := setState _ h). simpl.
  destruct (clear_pending_timeout_keeps h1)
    as (K1 & _ & K2 & K3 & K4 & _ & _ & K5 & K6).
  rewrite K1, K2, K3, K4, K5, K6. repeat split; reflexivity.
Qed.

Lemma set_timers_same (ts : list Timer) (h : Hook) :
  same_requests (set_timers ts h) h.
Proof. repeat split; reflexivity. Qed.

Lemma tick_early_same (t : Z) (h : Hook) (u : Timer) :
  timers h = [u] -> now h <= t -> t < deadline u -> same_requests (tick t h) h.
Proof.
  intros E Hnow Hdue. unfold tick, run_timers.
  apply Z.leb_le in Hnow. rewrite Hnow, E. simpl.
  assert (F : (deadline u <=? t) = false) by (apply Z.leb_gt; lia).
  rewrite F. simpl. repeat split; reflexivity.
Qed.

(** What [performSearch] does to the requests. *)
Lemma performSearch_sends (q : string) (hx h : Hook) :
  same_requests hx h -> requests_only h q (performSearch q hx).
Proof.
  intros (S1 & S2 & S3 & S4 & S5 & S6). unfold requests_only.
  rewrite <- S1, <- S2, <- S4, <- S5.
  assert (Ea : aborted_ref h = aborted_ref hx).
  { unfold aborted_ref. now rewrite S3, S4. }
  rewrite Ea. split; intros H.
  - destruct (performSearch_long_fields q hx H) as (-> & -> & _).
    rewrite (performSearch_long_requestId q hx H).
    rewrite performSearch_long by assumption. unfold abort_current.
    change (abortControllerRef (logger (searchStarted q) hx))
      with (abortControllerRef hx).
    destruct (abortControllerRef hx); repeat split; reflexivity.
  - destruct (performSearch_short_fields q hx H) as (-> & -> & _ & ->).
    rewrite performSearch_short by assumption. repeat split; reflexivity.
Qed.

Lemma requests_only_now (h : Hook) (q : string) (t : Z) (h' : Hook) :
  requests_only h q h' -> requests_only h q (set_now t h').
Proof. intros H. exact H. Qed.

Lemma setQuery_keeps (q : string) (h : Hook) :
  options (setQuery q h) = options h /\
  now (setQuery q h) = now h /\
  searched (setQuery q h) = searched h /\
  timersCreated (setQuery q h) = S (timersCreated h).
Proof.
  unfold setQuery, setTimeout, searched. set (h1 := setState _ h). simpl.
  destruct (clear_pending_timeout_keeps h1)
    as (-> & _ & _ & _ & _ & -> & -> & _ & ->). auto.
Qed.

Lemma tick_early (t : Z) (h : Hook) (u : Timer) :
  timers h = [u] -> now h <= t -> t < deadline u ->
  timers (tick t h) = [u] /\
  debounceTimeoutRef (tick t h) = debounceTimeoutRef h /\
  options (tick t h) = options h /\
  now (tick t h) = t /\
  searched (tick t h) = searched h.
Proof.
  intros E Hnow Hdue. unfold tick, run_timers.
  apply Z.leb_le in Hnow. rewrite Hnow, E. simpl.
  assert (F : (deadline u <=? t) = false) by (apply Z.leb_gt; lia).
  rewrite F. simpl. auto.
Qed.

Lemma tick_due (t : Z) (h : Hook) (u : Timer) :
  timers h = [u] -> now h <= t -> deadline u <= t ->
  searched (tick t h) = (searched h ++ [timer_query u])%list.
Proof.
  intros E Hnow Hdue. unfold tick, run_timers.
  apply Z.leb_le in Hnow. rewrite Hnow, E. simpl.
  apply Z.leb_le in Hdue. rewrite Hdue. simpl.
  unfold searched at 1. simpl.
  change (omap _ (log (performSearch (timer_query u) (set_timers [] h))))
    with (searched (performSearch (timer_query u) (set_timers [] h))).
  now rewrite performSearch_searched.
Qed.

Lemma last_cons {A} (c d : A) (l : list A) :
  List.last (c :: l) d = List.last l c.
Proof.
  revert c d. induction l as [|x l IH]; intros c d; [reflexivity|].
  change (List.last (x :: l) d = List.last (x :: l) c). now rewrite !IH.
Qed.

Lemma burst (calls : list (Z * string)) :
  forall (h : Hook) (q : string) (t_end : Z),
  timers_ok h ->
  rapid (debounceMs (options h)) (now h) calls ->
  fst (List.last calls (now h, q)) + Z.max 0 (debounceMs (options h)) <= t_end ->
  exists hx,
    run (setQuery q h) (typing calls ++ [Tick t_end])
    = set_now t_end (performSearch (snd (List.last calls (now h, q))) hx) /\
    same_requests hx h /\ timers hx = [].
Proof.
  induction calls as [|[t' q'] calls IH]; intros h q t_end Hok Hrapid Hend.
  - simpl in *.
    destruct (setQuery_timers q h Hok) as [Et _].
    destruct (setQuery_keeps q h) as (Eo & En & _ & _).
    exists (set_timers [] (setQuery q h)). split; [|split; [|reflexivity]].
    + unfold tick, run_timers. rewrite En, Et. cbn [deadline List.filter].
      assert (D1 : (now h <=? t_end) = true) by (apply Z.leb_le; lia).
      assert (D2 : (now h + Z.max 0 (debounceMs (options h)) <=? t_end) = true)
        by (apply Z.leb_le; lia).
      rewrite D1, D2. reflexivity.
    + apply (setQuery_same q h).
  - simpl in Hrapid. destruct Hrapid as [Hgap Hrapid].
    destruct (setQuery_timers q h Hok) as [Et Er].
    destruct (setQuery_keeps q h) as (Eo & En & Es & _).
    change (run (setQuery q h) (typing ((t', q') :: calls) ++ [Tick t_end]))
      with (run (setQuery q' (tick t' (setQuery q h)))
              (typing calls ++ [Tick t_end])).
    destruct (tick_early t' (setQuery q h) _ Et) as (Tt & Tr & To & Tn & Ts).
    { rewrite En. lia. }
    { simpl. lia. }
    pose proof (tick_early_same t' (setQuery q h) _ Et) as Tsame.
    set (h2 := tick t' (setQuery q h)) in *.
    assert (Hok2 : timers_ok h2).
    { right. eexists. split; [exact Tt|]. rewrite Tr, Er. reflexivity. }
    assert (Hlast : List.last ((t', q') :: calls) (now h, q) = List.last calls (now h2, q')).
    { rewrite Tn. apply last_cons. }
    rewrite Hlast in *.
    destruct (IH h2 q' t_end Hok2) as (hx & E & Hsame & Htx).
    + rewrite To, Eo, Tn. exact Hrapid.
    + rewrite To, Eo. exact Hend.
    + exists hx. split; [exact E|]. split; [|exact Htx].
      eapply same_requests_trans; [exact Hsame|].
      eapply same_requests_trans; [apply Tsame; rewrite ?En; simpl; lia|].
      apply setQuery_same.
Qed.

(** C7. In every state the hook reaches, [setQuery] leaves exactly one
    pending timeout, the new one, due [debounceMs] after the call; and
    when further calls follow, each sooner than [debounceMs] after the one
    before, then once [debounceMs] has passed after the last call
    [performSearch] has run once since the first call, with the last
    query, no timeout is left, and the only request sent is the one for
    the last query (none at all when that query is shorter than
    [minQueryLength]). *)
Theorem setQuery_debounces (h : Hook) (q : string) :
  reachable h ->
  (timers (setQuery q h)
   = [{| timer_id := S (timersCreated h);
         deadline := now h + Z.max 0 (debounceMs (options h));
         timer_query := q |}] /\
   debounceTimeoutRef (setQuery q h) = Some (S (timersCreated h))) /\
  forall (calls : list (Z * string)) (t_end : Z),
    rapid (debounceMs (options h)) (now h) calls ->
    fst (List.last calls (now h, q)) + Z.max 0 (debounceMs (options h)) <= t_end ->
    let final := snd (List.last calls (now h, q)) in
    let h' := run (setQuery q h) (typing calls ++ [Tick t_end]) in
    searched h' = (searched h ++ [final])%list /\
    timers h' = [] /\
    requests_only h final h'.
Proof.
  intros Hreach. destruct (reachable_ok h Hreach) as (_ & _ & Hok).
  split; [now apply setQuery_timers|].
  intros calls t_end Hrapid Hend final h'.
  destruct (burst calls h q t_end Hok Hrapid Hend) as (hx & E & Hsame & Htx).
  fold final in E. fold h' in E. rewrite E.
  split; [|split].
  - change (searched (set_now t_end (performSearch final hx)))
      with (searched (performSearch final hx)).
    rewrite performSearch_searched. unfold searched.
    destruct Hsame as (_ & _ & _ & _ & _ & ->). reflexivity.
  - destruct (performSearch_timers final hx) as (T & _). exact (eq_trans T Htx).
  - apply requests_only_now. now apply performSearch_sends.
Qed.

End HookClaims.

(** ** The URL mirror *)

Module SearchInputClaims.
Import SearchInput.

Lemma get_delete (name : string) (l : list (string * string)) :
  get name (delete name l) = None.
Proof.
  unfold get, delete. induction l as [|p l IH]; simpl; [reflexivity|].
  destruct (String.eqb p.1 name) eqn:E; simpl; [exact IH|].
  rewrite E. exact IH.
Qed.

Lemma get_set (name value_ : string) (l : list (string * string)) :
  get name (set name value_ l) = Some value_.
Proof.
  unfold get. induction l as [|p l IH]; simpl.
  - now rewrite String.eqb_refl.
  - destruct (String.eqb p.1 name) eqn:E; simpl; rewrite E; [reflexivity | exact IH].
Qed.

Section WithRuntime.
Context `{RT : Runtime}.

Lemma update_url_mirrors (v : string) (p : Page) :
  mirrors (location (update_url v p)) v /\
  origin_and_path (location (update_url v p)) = origin_and_path (location p) /\
  hash (location (update_url v p)) = hash (location p) /\
  entries (update_url v p) = entries p /\
  loads (update_url v p) = loads p /\
  timers (update_url v p) = timers p /\
  timeoutId (update_url v p) = timeoutId p /\
  now (update_url v p) = now p /\
  value (update_url v p) = value p /\
  log (update_url v p) = (log p ++ [urlUpdated (location (update_url v p))])%list.
Proof.
  unfold mirrors, update_url. destruct (truthy (trim v)); simpl;
    rewrite ?get_set, ?get_delete; repeat split; reflexivity.
Qed.

(** *** One timeout at a time *)

Lemma cleanup_timers (p : Page) : one_timer p -> timers (cleanup p) = [].
Proof.
  unfold cleanup, clearTimeout.
  intros [H|(t & H & Hid)].
  - destruct (timeoutId p); simpl; rewrite ?H; reflexivity.
  - rewrite Hid. simpl. rewrite H. simpl. now rewrite Nat.eqb_refl.
Qed.

Lemma cleanup_keeps (p : Page) :
  value (cleanup p) = value p /\ location (cleanup p) = location p /\
  entries (cleanup p) = entries p /\ loads (cleanup p) = loads p /\
  now (cleanup p) = now p /\ log (cleanup p) = log p.
Proof. unfold cleanup. destruct (timeoutId p); simpl; auto 10. Qed.

Lemma render_changed (v : string) (p : Page) :
  one_timer p -> v <> value p ->
  pending (render v p) = [(now p + 1000, v)] /\
  one_timer (render v p) /\
  value (render v p) = v /\ now (render v p) = now p /\
  location (render v p) = location p /\ log (render v p) = log p /\
  entries (render v p) = entries p /\ loads (render v p) = loads p.
Proof.
  intros Hok Hv. unfold render. apply String.eqb_neq in Hv. rewrite Hv.
  pose proof (cleanup_timers p Hok) as Ht.
  destruct (cleanup_keeps p) as (_ & Kl & Ke & Klo & Kn & Klog).
  unfold effect, setTimeout, pending, one_timer. simpl. rewrite Ht. simpl.
  rewrite Kn, Kl, Klog, Ke, Klo.
  split; [reflexivity|]. split; [|auto 10].
  right. eexists. split; reflexivity.
Qed.

Lemma update_url_timers (v : string) (p : Page) :
  timers (update_url v p) = timers p.
Proof. unfold update_url. now destruct (truthy (trim v)). Qed.

Lemma tick_one_timer (t : Z) (p : Page) : one_timer p -> one_timer (tick t p).
Proof.
  intros Hok. unfold tick. destruct (now p <=? t); [|exact Hok].
  unfold one_timer. cbn [set_now timers timeoutId].
  unfold run_timers.
  destruct Hok as [H|(u & H & Hid)]; rewrite H; cbn [List.filter fold_left].
  - now left.
  - destruct (deadline u <=? t); cbn [negb fold_left].
    + left. now rewrite update_url_timers.
    + right. exists u. auto.
Qed.

Lemma step_one_timer (p : Page) (e : Event) : one_timer p -> one_timer (step p e).
Proof.
  intros Hok. destruct e as [v|t]; simpl; [|now apply tick_one_timer].
  destruct (String.eqb_spec v (value p)) as [->|Hv].
  - unfold render. now rewrite String.eqb_refl.
  - now apply render_changed.
Qed.

Lemma reachable_one_timer (p : Page) : reachable_page p -> one_timer p.
Proof.
  intros (v0 & href & events & ->).
  assert (H0 : one_timer (mount v0 href)).
  { right. eexists. split; reflexivity. }
  revert H0. generalize (mount v0 href). unfold run.
  induction events as [|e events IH]; intros q Hq; [exact Hq|].
  simpl. apply IH. now apply step_one_timer.
Qed.

(** *** Waiting *)

Lemma tick_settled_or_pending (p : Page) (v : string) (q : Page) (t : Z) :
  settled_or_pending p v q -> settled_or_pending p v (tick t q).
Proof.
  intros H. unfold tick.
  destruct (Z.leb_spec (now q) t) as [Hle|Hgt]; [|exact H].
  destruct H as [(Ht & Hn & Hl & Hlog & He & Hlo)
                |(Ht & Hm & Ho & Hh & Hlog & He & Hlo)].
  - unfold pending in Ht.
    destruct (timers q) as [|u [|u' us]] eqn:Eq; try discriminate.
    injection Ht as Hd Hv.
    unfold run_timers. rewrite Eq. simpl. rewrite Hd.
    destruct (Z.leb_spec (now p + 1000) t) as [Hdue|Hearly]; simpl.
    + right. rewrite Hv.
      destruct (update_url_mirrors v (set_timers [] q))
        as (Um & Uo & Uh & Ue & Ul & Ut & _ & _ & _ & Ulog).
      unfold pending, set_now. cbn [timers location entries loads log].
      rewrite Ut, Uo, Uh, Ue, Ul, Ulog.
      cbn [set_timers timers location entries loads log].
      rewrite Hl, He, Hlo, Hlog. repeat split; auto.
    + left. unfold pending. simpl. rewrite Hd, Hv. repeat split; auto.
  - right. unfold pending in Ht. apply map_eq_nil in Ht.
    unfold run_timers, pending. rewrite Ht. simpl. repeat split; auto.
Qed.

Lemma wait_settled_or_pending (p : Page) (v : string) (times : list Z) (q : Page) :
  settled_or_pending p v q -> settled_or_pending p v (wait q times).
Proof.
  unfold wait, run. revert q; induction times as [|t times IH]; intros q H;
    [exact H|].
  simpl. apply IH, tick_settled_or_pending, H.
Qed.

Lemma render_settled_or_pending (p : Page) (v : string) :
  one_timer p -> v <> value p -> settled_or_pending p v (render v p).
Proof.
  intros Hok Hv.
  destruct (render_changed v p Hok Hv) as (Hp & _ & _ & Hn & Hl & Hlog & He & Hlo).
  left. rewrite Hn. repeat split; auto; lia.
Qed.

(** C8. After [value] has changed to [v], and whatever the clock ticks
    since, once one second has passed and [value] has not changed again
    the URL has [q] equal to the trimmed [v] when that is not empty and
    has no [q] when [v] is blank; the rest of the URL is as before, the
    current history entry was replaced and no document was loaded. *)
Theorem url_mirrors_query (p : Page) (v : string) (times : list Z) :
  reachable_page p ->
  v <> value p ->
  now p + 1000 <= now (wait (render v p) times) ->
  let p' := wait (render v p) times in
  mirrors (location p') v /\
  origin_and_path (location p') = origin_and_path (location p) /\
  hash (location p') = hash (location p) /\
  entries p' = entries p /\ loads p' = loads p.
Proof.
  intros Hr Hv Hnow p'.
  pose proof (render_settled_or_pending p v (reachable_one_timer p Hr) Hv) as H0.
  apply (wait_settled_or_pending p v times) in H0. fold p' in H0, Hnow.
  destruct H0 as [(_ & Hn & _)|(_ & Hm & Ho & Hh & _ & He & Hl)];
    [lia|repeat split; auto].
Qed.

End WithRuntime.

End SearchInputClaims.

(** ** The claims at concrete inputs *)

Lemma last_request_wins_witness :
  reachable Scenario.searching_react /\
  In Scenario.react_request (UseSearch.inflight Scenario.searching_react) /\
  UseSearch.minQueryLength (UseSearch.options Scenario.searching_react)
    <= Z.of_nat (String.length "redux") /\
  let h' := UseSearch.run
              (UseSearch.performSearch "redux" Scenario.searching_react) [] in
  UseSearch.currentRequestId Scenario.react_request < UseSearch.requestIdRef h' /\
  UseSearch.resume Scenario.react_request (Resolved Sample.data) h' = h' /\
  UseSearch.state
    (UseSearch.settle (UseSearch.currentRequestId Scenario.react_request)
       (Resolved Sample.data) h')
  = UseSearch.state h'.
Proof.
  assert (R : reachable Scenario.searching_react).
  { exists Scenario.app_options, [UseSearch.SetQueryImmediate "react"]. reflexivity. }
  split; [exact R|].
  split; [vm_compute; left; reflexivity|].
  split; [vm_compute; discriminate|].
  apply (proj2 HookClaims.last_request_wins Scenario.searching_react
           Scenario.react_request "redux" [] (Resolved Sample.data) R).
  - vm_compute; left; reflexivity.
  - vm_compute; discriminate.
Defined.

Lemma one_live_request_witness :
  reachable Scenario.searching_react /\
  UseSearch.signal_aborted 0 Scenario.searching_react = false /\
  UseSearch.signal_aborted 0
    (UseSearch.performSearch "redux" Scenario.searching_react) = true /\
  UseSearch.abortControllerRef
    (UseSearch.performSearch "redux" Scenario.searching_react) = Some 1%nat.
Proof.
  assert (R : reachable Scenario.searching_react).
  { exists Scenario.app_options, [UseSearch.SetQueryImmediate "react"]. reflexivity. }
  split; [exact R|]. split; [vm_compute; reflexivity|].
  destruct (HookClaims.one_live_request Scenario.searching_react "redux" R)
    as (_ & _ & H).
  destruct H as (Hab & Href & _); [vm_compute; discriminate|].
  split; [|exact Href].
  apply (Hab Scenario.react_request). vm_compute; left; reflexivity.
Defined.

Lemma cancelled_request_is_silent_witness :
  reachable Scenario.superseded /\
  In Scenario.react_request (UseSearch.inflight Scenario.superseded) /\
  UseSearch.signal_aborted 0 Scenario.superseded = true /\
  UseSearch.state
    (fst (UseSearch.answer Scenario.react_request Scenario.fetch_aborted
            (Scenario.superseded, API.new)))
  = UseSearch.state Scenario.superseded /\
  UseSearch.error (UseSearch.state Scenario.superseded) = None.
Proof.
  assert (R : reachable Scenario.superseded).
  { exists Scenario.app_options,
      [UseSearch.SetQueryImmediate "react"; UseSearch.SetQueryImmediate "redux"].
    reflexivity. }
  split; [exact R|].
  split; [vm_compute; left; reflexivity|].
  split; [vm_compute; reflexivity|].
  split; [|vm_compute; reflexivity].
  destruct (HookClaims.cancelled_request_is_silent Scenario.superseded API.new
              Scenario.react_request Scenario.fetch_aborted
              (Error "Request cancelled")
              {| API.baseUrl := "/src/data.json"; API.cache := ∅;
                 API.fetched := ["/src/data.json"] |} R) as (_ & Hs & _).
  - vm_compute; left; reflexivity.
  - vm_compute; reflexivity.
  - vm_compute; reflexivity.
  - exact Hs.
Defined.

Lemma setQuery_debounces_witness :
  reachable (UseSearch.mount Scenario.app_options) /\
  rapid 800 0 Scenario.keystrokes /\
  let h' := UseSearch.run
              (UseSearch.setQuery "r" (UseSearch.mount Scenario.app_options))
              (typing Scenario.keystrokes ++ [UseSearch.Tick 1700]) in
  UseSearch.searched h' = ["reac"] /\
  UseSearch.timers h' = [] /\
  UseSearch.inflight h'
  = [{| UseSearch.currentRequestId := 1; UseSearch.abortController := 0%nat;
        UseSearch.request_query := "reac" |}].
Proof.
  assert (R : reachable (UseSearch.mount Scenario.app_options)).
  { exists Scenario.app_options, []. reflexivity. }
  split; [exact R|].
  split; [simpl; lia|].
  destruct (proj2 (HookClaims.setQuery_debounces
                     (UseSearch.mount Scenario.app_options) "r" R)
              Scenario.keystrokes 1700) as (Hs & Ht & Hlong & _).
  - simpl; lia.
  - simpl; lia.
  - split; [exact Hs|]. split; [exact Ht|].
    destruct Hlong as (Hin & _); [vm_compute; discriminate | exact Hin].
Defined.

(** C7 as stated fails when the last query of a burst is shorter than
    [minQueryLength]: with the options of the application, after "re" and
    then "r", each within the debounce time, [performSearch] runs with "r"
    and sends no request: the final query is not searched either. *)
Lemma setQuery_short_final :
  let h' := UseSearch.run
              (UseSearch.setQuery "re" (UseSearch.mount Scenario.app_options))
              (typing [(300, "r")] ++ [UseSearch.Tick 1200]) in
  rapid 800 0 [(300, "r")] /\
  300 + Z.max 0 800 <= 1200 /\
  UseSearch.searched h' = ["r"] /\
  UseSearch.inflight h' = [] /\
  UseSearch.requestIdRef h' = 0 /\
  UseSearch.controllers h' = [] /\
  UseSearch.state h'
  = {| UseSearch.results := []; UseSearch.loading := false;
       UseSearch.error := None; UseSearch.query := "r" |}.
Proof.
  intros h'. split; [simpl; lia|]. split; [lia|].
  repeat split; vm_compute; reflexivity.
Qed.

Lemma url_mirrors_query_witness :
  let p := SearchInput.mount "" Scenario.home in
  let p' := wait (SearchInput.render "  react hooks " p) [500; 1200] in
  reachable_page p /\
  "  react hooks " <> SearchInput.value p /\
  SearchInput.now p + 1000 <= SearchInput.now p' /\
  SearchInput.searchParams (SearchInput.location p')
    = [("q", "react hooks"); ("lang", "en")] /\
  mirrors (SearchInput.location p') "  react hooks " /\
  SearchInput.entries p' = SearchInput.entries p /\
  SearchInput.loads p' = SearchInput.loads p.
Proof.
  intros p p'.
  assert (R : reachable_page p) by (exists "", Scenario.home, []; reflexivity).
  split; [exact R|].
  split; [discriminate|].
  split; [vm_compute; discriminate|].
  split; [vm_compute; reflexivity|].
  destruct (SearchInputClaims.url_mirrors_query p "  react hooks " [500; 1200] R)
    as (Hm & _ & _ & He & Hl).
  - discriminate.
  - vm_compute; discriminate.
  - auto.
Defined.

(** * Further properties of the service *)

Section ServiceMore.
Context `{RT : Runtime}.

(** The reason of a rejection of [search] whose signal is not aborted is
    the one of the failing step. *)
Lemma rejected_reason (api : API.SearchAPI) (params : API.SearchParams)
    (signal : option AbortSignal) (env : Env) (e : JsError) (api' : API.SearchAPI) :
  API.search api params signal env = (Rejected e, api') ->
  API.signal_aborted signal = false ->
  match response env with
  | FetchRejected reason => e = reason
  | ResponseNotOk status => e = API.http_error status
  | JsonRejected reason => e = reason
  | JsonData _ => False
  end.
Proof.
  unfold API.search, API.on_catch. intros H Ha. rewrite Ha in H.
  destruct (API.cache_get _ _ _); [discriminate|].
  destruct (response env) as [r|st|r|d]; try discriminate;
    now injection H as <- <-.
Qed.

(** X1. A call of [search] that rejects leaves the cache as it was: failures
    are not cached.  Unless the signal is aborted, the reason is the one of
    the failing step: the rejection of [fetch] or of [json] as it is, and
    "HTTP error! status: n" for a response that is not ok. *)
Theorem search_rejection (api : API.SearchAPI) (params : API.SearchParams)
    (signal : option AbortSignal) (env : Env) (e : JsError) (api' : API.SearchAPI) :
  API.search api params signal env = (Rejected e, api') ->
  API.cache api' = API.cache api /\
  API.fetched api' = (API.fetched api ++ [API.baseUrl api])%list /\
  (API.signal_aborted signal = false ->
   match response env with
   | FetchRejected reason => e = reason
   | ResponseNotOk status => e = Error ("HTTP error! status: " +:+ pretty status)
   | JsonRejected reason => e = reason
   | JsonData _ => False
   end).
Proof.
  unfold API.search, API.on_catch.
  destruct (API.cache_get _ _ _); [discriminate|].
  destruct (response env) as [r|st|r|d]; try discriminate;
    destruct (API.signal_aborted signal); intros [= <- <-];
    repeat split; auto; discriminate.
Qed.

(** X2. A call of [search] writes the cache under its own key only, and hands
    at most one URL to [fetch], its [baseUrl]. *)
Theorem search_frame (api : API.SearchAPI) (params : API.SearchParams)
    (signal : option AbortSignal) (env : Env) :
  let api' := snd (API.search api params signal env) in
  (forall k,
     k <> API.cacheKey (API.p_query params) (default 10 (API.p_limit params))
            (default 0 (API.p_offset params)) ->
     API.cache api' !! k = API.cache api !! k) /\
  (API.fetched api' = API.fetched api \/
   API.fetched api' = (API.fetched api ++ [API.baseUrl api])%list) /\
  API.baseUrl api' = API.baseUrl api.
Proof.
  unfold API.search.
  destruct (API.cache_get _ _ _); simpl.
  - repeat split; auto.
  - destruct (response env); simpl;
      (split; [intros k Hk; rewrite ?lookup_insert_ne by congruence; reflexivity|]);
      split; auto.
Qed.

(** X3. After [clearCache] every call of [search] goes to the network,
    whatever the clock reads. *)
Theorem clearCache_forces_fetch (api : API.SearchAPI) (params : API.SearchParams)
    (signal : option AbortSignal) (env : Env) :
  API.cache (API.clearCache api) = ∅ /\
  API.fetched (snd (API.search (API.clearCache api) params signal env))
  = (API.fetched api ++ [API.baseUrl api])%list /\
  forall resp api',
    API.search (API.clearCache api) params signal env = (Resolved resp, api') ->
    exists allResults,
      response env = JsonData allResults /\
      resp = API.build_response allResults (API.p_query params)
               (default 10 (API.p_limit params)) (default 0 (API.p_offset params))
               (performance_now_end env - performance_now_start env).
Proof.
  assert (Hmiss : forall k, API.cache_get (API.clearCache api) k (Date_now env) = None).
  { intros k. unfold API.cache_get, API.clearCache. simpl. now rewrite lookup_empty. }
  split; [reflexivity|]. split.
  - unfold API.search. rewrite Hmiss. destruct (response env); reflexivity.
  - intros resp api' Hcall.
    destruct (search_miss _ _ _ _ (Hmiss _) _ _ Hcall) as (d & Hd & -> & _).
    exists d. auto.
Qed.

(** X4. [getSuggestions] and [getTrending] leave the cache alone; each hands
    the dataset URL to [fetch] once, except that [getSuggestions] does not
    fetch at all for a query shorter than 2. *)
Theorem suggestions_and_trending_frame (api : API.SearchAPI) (q : string)
    (signal : option AbortSignal) (env : Env) :
  let s := snd (API.getSuggestions api q signal env) in
  let t := snd (API.getTrending api signal env) in
  API.cache s = API.cache api /\ API.cache t = API.cache api /\
  API.fetched t = (API.fetched api ++ [API.baseUrl api])%list /\
  ((String.length q < 2)%nat -> API.fetched s = API.fetched api) /\
  ((2 <= String.length q)%nat ->
   API.fetched s = (API.fetched api ++ [API.baseUrl api])%list).
Proof.
  unfold API.getSuggestions, API.getTrending. simpl.
  split; [|split; [|split; [|split]]].
  - destruct (_ <? _)%nat; [reflexivity|]. destruct (response env); reflexivity.
  - destruct (response env); reflexivity.
  - destruct (response env); reflexivity.
  - intros H. apply Nat.ltb_lt in H. now rewrite H.
  - intros H. apply Nat.ltb_ge in H. rewrite H. destruct (response env); reflexivity.
Qed.

End ServiceMore.

(** ** Pages *)

Lemma slice_nonneg {A} (xs : list A) (a b : Z) :
  0 <= a -> 0 <= b ->
  JS.slice xs a b = take (Z.to_nat b - Z.to_nat a) (drop (Z.to_nat a) xs).
Proof.
  intros Ha Hb. unfold JS.slice.
  destruct (Z.ltb_spec a 0); [lia|]. destruct (Z.ltb_spec b 0); [lia|].
  set (len := length xs).
  destruct (Z.le_gt_cases a (Z.of_nat len)) as [Hal|Hal].
  - rewrite (Z.min_l a) by lia.
    destruct (Z.le_gt_cases b (Z.of_nat len)) as [Hbl|Hbl].
    + rewrite (Z.min_l b) by lia. f_equal. lia.
    + rewrite (Z.min_r b) by lia.
      rewrite !take_ge; [reflexivity|rewrite length_drop; lia|rewrite length_drop; lia].
  - rewrite (Z.min_r a) by lia.
    rewrite Nat2Z.id.
    rewrite (drop_ge xs (Z.to_nat a)) by lia.
    rewrite (drop_ge xs len) by lia. now rewrite !take_nil.
Qed.

Section Pages.
Context `{RT : Runtime}.

(** X5. Consecutive pages fit together: the page of [limit] results at
    [offset] followed by the page of [limit'] results at [offset + limit] is
    the page of [limit + limit'] results at [offset]; nothing is skipped and
    nothing comes twice. *)
Theorem pages_concatenate (allResults : list SearchResult) (q : string)
    (offset limit limit' t t' t'' : Z) :
  0 <= offset -> 0 <= limit -> 0 <= limit' ->
  (API.results (API.build_response allResults q limit offset t)
   ++ API.results (API.build_response allResults q limit' (offset + limit) t'))%list
  = API.results (API.build_response allResults q (limit + limit') offset t'').
Proof.
  intros Ho Hl Hl'. simpl.
  set (xs := sortResults (filterResults allResults q) q).
  rewrite !slice_nonneg by lia.
  replace (Z.to_nat (offset + limit) - Z.to_nat offset)%nat with (Z.to_nat limit) by lia.
  replace (Z.to_nat (offset + limit + limit') - Z.to_nat (offset + limit))%nat
    with (Z.to_nat limit') by lia.
  replace (Z.to_nat (offset + (limit + limit')) - Z.to_nat offset)%nat
    with (Z.to_nat limit + Z.to_nat limit')%nat by lia.
  replace (Z.to_nat (offset + limit)) with (Z.to_nat offset + Z.to_nat limit)%nat by lia.
  rewrite <- drop_drop.
  generalize (drop (Z.to_nat offset) xs). intros ys.
  rewrite <- (take_drop (Z.to_nat limit) (take (Z.to_nat limit + Z.to_nat limit') ys)).
  rewrite take_take, Nat.min_l by lia.
  f_equal. rewrite <- take_drop_commute. reflexivity.
Qed.

(** X6. With an empty query nothing is filtered out (the lowercase of the empty
    string being empty): every entry of the dataset matches. *)
Theorem empty_query_matches_all (allResults : list SearchResult) :
  toLowerCase "" = "" ->
  filterResults allResults "" = allResults /\
  forall limit offset t,
    API.total (API.build_response allResults "" limit offset t)
    = Z.of_nat (length allResults).
Proof.
  intros Hlow.
  assert (E : filterResults allResults "" = allResults).
  { unfold filterResults. rewrite Hlow.
    induction allResults as [|r rs IH]; simpl; [reflexivity|].
    assert (I : JS.includes (searchText r) "" = true).
    { apply includes_spec. exists "", (searchText r). reflexivity. }
    rewrite I. now f_equal. }
  split; [exact E|]. intros. simpl. now rewrite E.
Qed.

End Pages.

Lemma pages_concatenate_witness :
  (API.results (API.build_response Sample.data "e" 2 0 0)
   ++ API.results (API.build_response Sample.data "e" 1 (0 + 2) 0))%list
  = [Sample.react_testing; Sample.typescript_tips; Sample.react_hooks].
Proof.
  rewrite (pages_concatenate Sample.data "e" 0 2 1 0 0 0) by lia.
  vm_compute. reflexivity.
Defined.

Lemma empty_query_matches_all_witness :
  toLowerCase "" = "" /\ filterResults Sample.data "" = Sample.data.
Proof.
  split; [reflexivity|].
  apply (empty_query_matches_all Sample.data). reflexivity.
Defined.

Lemma search_rejection_witness :
  exists api',
    API.search API.new Scenario.react_params None
      (Sample.env_at 1793491200000 (ResponseNotOk 404))
    = (Rejected (Error "HTTP error! status: 404"), api') /\
    API.cache api' = API.cache API.new.
Proof.
  eexists. split; [vm_compute; reflexivity|].
  apply (search_rejection API.new Scenario.react_params None
           (Sample.env_at 1793491200000 (ResponseNotOk 404))
           (Error "HTTP error! status: 404")).
  vm_compute; reflexivity.
Defined.

(** ** Trending categories *)

Lemma JSMap_get_set_eq (k : string) (v : Z) (m : list (string * Z)) :
  JSMap.get k (JSMap.set k v m) = Some v.
Proof.
  unfold JSMap.get. induction m as [|p m IH]; simpl.
  - now rewrite String.eqb_refl.
  - destruct (String.eqb p.1 k) eqn:E; simpl.
    + now rewrite String.eqb_refl.
    + rewrite E. exact IH.
Qed.

Lemma JSMap_get_set_ne (k k' : string) (v : Z) (m : list (string * Z)) :
  k <> k' -> JSMap.get k' (JSMap.set k v m) = JSMap.get k' m.
Proof.
  intros Hne. unfold JSMap.get. induction m as [|p m IH]; simpl.
  - apply String.eqb_neq in Hne. now rewrite Hne.
  - destruct (String.eqb p.1 k) eqn:E; simpl.
    + apply String.eqb_eq in E. rewrite E.
      apply String.eqb_neq in Hne. now rewrite Hne.
    + destruct (String.eqb p.1 k'); [reflexivity | exact IH].
Qed.

Lemma JSMap_set_keys (k : string) (v : Z) (m : list (string * Z)) :
  NoDup (map fst m) -> NoDup (map fst (JSMap.set k v m)) /\
  forall c, In c (map fst (JSMap.set k v m)) <-> c = k \/ In c (map fst m).
Proof.
  induction m as [|p m IH]; simpl; intros Hnd.
  - split; [repeat constructor; intros H; inversion H|]. intros c. intuition.
  - apply NoDup_cons in Hnd as [Hp Hnd].
    destruct (String.eqb p.1 k) eqn:E; simpl.
    + apply String.eqb_eq in E. subst k. split; [now constructor|].
      intros c. intuition.
    + destruct (IH Hnd) as [IH1 IH2]. split.
      * constructor; [|exact IH1].
        rewrite list_elem_of_In, IH2. intros [Hk|Hin].
        -- rewrite Hk, String.eqb_refl in E. discriminate.
        -- apply Hp. now apply list_elem_of_In.
      * intros c. rewrite IH2. intuition.
Qed.

Lemma JSMap_get_In (k : string) (v : Z) (m : list (string * Z)) :
  NoDup (map fst m) -> In (k, v) m -> JSMap.get k m = Some v.
Proof.
  unfold JSMap.get. induction m as [|p m IH]; simpl; intros Hnd Hin; [easy|].
  apply NoDup_cons in Hnd as [Hp Hnd].
  destruct Hin as [->|Hin]; simpl.
  - now rewrite String.eqb_refl.
  - destruct (String.eqb p.1 k) eqn:E; [|now apply IH].
    apply String.eqb_eq in E. exfalso. apply Hp.
    apply list_elem_of_In. rewrite E. apply (in_map fst _ _ Hin).
Qed.

Lemma JSMap_get_Some (k : string) (v : Z) (m : list (string * Z)) :
  JSMap.get k m = Some v -> In (k, v) m.
Proof.
  unfold JSMap.get. destruct (find _ m) as [p|] eqn:E; [|discriminate].
  intros [= <-]. apply find_some in E as [Hin Hk].
  apply String.eqb_eq in Hk. subst k. now destruct p.
Qed.

Lemma occurrences_cons (c : string) (r : SearchResult) (rs : list SearchResult) :
  occurrences c (r :: rs)
  = (if String.eqb (category r) c then 1 else 0) + occurrences c rs.
Proof.
  unfold occurrences. simpl. destruct (String.eqb _ _); simpl; lia.
Qed.

Lemma occurrences_nonneg (c : string) (rs : list SearchResult) :
  0 <= occurrences c rs.
Proof. unfold occurrences. lia. Qed.

Lemma occurrences_pos (c : string) (rs : list SearchResult) :
  0 < occurrences c rs <-> exists r, In r rs /\ category r = c.
Proof.
  induction rs as [|r rs IH]; [unfold occurrences; simpl; split; [lia|intros (?&[]&_)]|].
  rewrite occurrences_cons. pose proof (occurrences_nonneg c rs).
  destruct (String.eqb (category r) c) eqn:E.
  - apply String.eqb_eq in E. split; [|lia]. intros _. exists r. split; [now left|exact E].
  - apply String.eqb_neq in E. rewrite Z.add_0_l, IH. split.
    + intros (x & Hx & Hc). exists x. split; [now right|exact Hc].
    + intros (x & [->|Hx] & Hc); [congruence|]. now exists x.
Qed.

(** The counts kept by the loop of [getTrending]. *)
Lemma count_categories (rs : list SearchResult) :
  forall (acc : list (string * Z)) (c : string),
  NoDup (map fst acc) ->
  NoDup (map fst (fold_left API.count_category rs acc)) /\
  JSMap.get c (fold_left API.count_category rs acc)
  = if occurrences c rs =? 0 then JSMap.get c acc
    else Some (default 0 (JSMap.get c acc) + occurrences c rs).
Proof.
  induction rs as [|r rs IH]; intros acc c Hnd.
  - split; [exact Hnd | reflexivity].
  - simpl. rewrite occurrences_cons.
    pose proof (occurrences_nonneg c rs) as Hn.
    assert (Hnd' : NoDup (map fst (API.count_category acc r))).
    { unfold API.count_category. now apply JSMap_set_keys. }
    destruct (IH (API.count_category acc r) c Hnd') as [IH1 IH2].
    split; [exact IH1|]. rewrite IH2. unfold API.count_category.
    destruct (String.eqb (category r) c) eqn:E.
    + apply String.eqb_eq in E. rewrite E, JSMap_get_set_eq. simpl.
      destruct (Z.eqb_spec (occurrences c rs) 0) as [Hz|Hz].
      * rewrite Hz. simpl. first [reflexivity | f_equal; lia].
      * destruct (Z.eqb_spec (1 + occurrences c rs) 0); [lia|].
        first [reflexivity | f_equal; lia].
    + apply String.eqb_neq in E. rewrite JSMap_get_set_ne by assumption.
      reflexivity.
Qed.

Lemma counts_sound (rs : list SearchResult) (c : string) (n : Z) :
  In (c, n) (fold_left API.count_category rs []) <->
  n = occurrences c rs /\ 0 < n.
Proof.
  destruct (count_categories rs [] c) as [Hnd Hget]; [constructor|].
  pose proof (occurrences_nonneg c rs) as Hn.
  split.
  - intros Hin. apply JSMap_get_In in Hin; [|exact Hnd].
    rewrite Hget in Hin. destruct (Z.eqb_spec (occurrences c rs) 0); [discriminate|].
    simpl in Hin. injection Hin as <-. lia.
  - intros [-> Hpos]. apply JSMap_get_Some. rewrite Hget.
    destruct (Z.eqb_spec (occurrences c rs) 0); [lia|]. reflexivity.
Qed.

Section Trending.
Context `{RT : Runtime}.

(** The comparator of [getTrending] subtracts two counts: it is a
    consistent comparator for every list of entries. *)
Lemma by_count_consistent (m : list (string * Z)) :
  JS.consistent API.by_count m.
Proof.
  intros a b c _ _ _. unfold JS.SortCompare, API.by_count.
  split; [discriminate|]. repeat split; lia.
Qed.

Lemma by_count_sorted (m : list (string * Z)) :
  StronglySorted (fun x y => snd y <= snd x) (Array_sort API.by_count m).
Proof.
  rewrite (Array_sort_consistent _ _ (by_count_consistent m)).
  apply (sort_sorted API.by_count (fun _ => True)).
  - intros; lia.
  - intros x y _ _. unfold JS.SortCompare, API.by_count. lia.
  - intros x y _ _. unfold JS.SortCompare, API.by_count. lia.
  - apply Forall_forall. auto.
Qed.

(** X7. [getTrending] resolves with at most five categories of the dataset, no
    category twice, the more frequent before the less frequent; a category
    of the dataset that is left out is no more frequent than any that is
    listed, and none is left out unless five are listed. *)
Theorem getTrending_spec (api : API.SearchAPI) (signal : option AbortSignal)
    (env : Env) (l : list string) (api' : API.SearchAPI) :
  API.getTrending api signal env = (Resolved l, api') ->
  exists allResults,
    response env = JsonData allResults /\
    (length l <= 5)%nat /\ NoDup l /\
    (forall c, In c l -> exists r, In r allResults /\ category r = c) /\
    (forall i j a b, (i < j)%nat -> l !! i = Some a -> l !! j = Some b ->
       occurrences b allResults <= occurrences a allResults) /\
    (forall r, In r allResults -> ~ In (category r) l ->
       length l = 5%nat /\
       forall c, In c l ->
         occurrences (category r) allResults <= occurrences c allResults).
Proof.
  unfold API.getTrending, API.on_catch.
  destruct (response env) as [e|st|e|rs];
    try (destruct (API.signal_aborted signal); discriminate).
  intros [= <- <-]. exists rs. split; [reflexivity|].
  unfold API.trending. rewrite slice_nonneg by lia.
  change (Z.to_nat 5 - Z.to_nat 0)%nat with 5%nat.
  change (Z.to_nat 0) with 0%nat. rewrite drop_0.
  set (counts := fold_left API.count_category rs []).
  set (sorted := Array_sort API.by_count counts).
  assert (Hperm : Permutation sorted counts) by apply Array_sort_Permutation.
  assert (Hsorted : StronglySorted (fun x y => snd y <= snd x) sorted)
    by apply by_count_sorted.
  assert (Hkeys : NoDup (map fst sorted)).
  { assert (Hp : map fst sorted ≡ₚ map fst counts) by now apply Permutation_map.
    rewrite Hp. apply (count_categories rs [] ""). constructor. }
  assert (Hsound : forall c n, In (c, n) sorted -> n = occurrences c rs /\ 0 < n).
  { intros c n Hin. apply counts_sound.
    eapply Permutation_in; [exact Hperm | exact Hin]. }
  assert (Hlook : forall i a, map fst (take 5 sorted) !! i = Some a ->
            (i < 5)%nat /\ sorted !! i = Some (a, occurrences a rs)).
  { intros i a Hi. change (map fst (take 5 sorted)) with (fst <$> take 5 sorted) in Hi.
    rewrite list_lookup_fmap in Hi.
    destruct (take 5 sorted !! i) as [[c n]|] eqn:E; [|discriminate].
    simpl in Hi. injection Hi as <-.
    apply lookup_take_Some in E as [E Hlt]. split; [exact Hlt|].
    rewrite E. f_equal. f_equal.
    apply Hsound, list_elem_of_In. eapply list_elem_of_lookup_2; eauto. }
  split; [rewrite length_map, length_take; lia|].
  split.
  { eapply sublist_NoDup; [exact Hkeys|]. apply HookInvariants.sublist_map, sublist_take. }
  split.
  { intros c Hc. apply list_elem_of_In, list_elem_of_lookup in Hc as [i Hi].
    apply Hlook in Hi as [_ Hi].
    apply occurrences_pos. apply (Hsound c).
    apply list_elem_of_In. eapply list_elem_of_lookup_2; eauto. }
  split.
  { intros i j a b Hij Hi Hj. apply Hlook in Hi as [_ Hi]. apply Hlook in Hj as [_ Hj].
    apply (StronglySorted_lookup _ _ i j _ _ Hsorted Hij Hi Hj). }
  intros r Hr Hout.
  assert (Hin : In (category r, occurrences (category r) rs) sorted).
  { eapply Permutation_in; [apply Permutation_sym, Hperm|].
    apply counts_sound. split; [reflexivity|]. apply occurrences_pos. eauto. }
  apply list_elem_of_In, list_elem_of_lookup in Hin as [j Hj].
  assert (Hj5 : (5 <= j)%nat).
  { destruct (le_lt_dec 5 j) as [?|Hlt]; [assumption|]. exfalso. apply Hout.
    apply list_elem_of_In, list_elem_of_lookup. exists j.
    change (map fst (take 5 sorted)) with (fst <$> take 5 sorted).
    rewrite list_lookup_fmap, lookup_take_lt by assumption. now rewrite Hj. }
  split.
  { rewrite length_map, length_take. pose proof (lookup_lt_Some _ _ _ Hj). lia. }
  intros c Hc. apply list_elem_of_In, list_elem_of_lookup in Hc as [i Hi].
  apply Hlook in Hi as [Hi5 Hi].
  assert (Hij : (i < j)%nat) by lia.
  exact (StronglySorted_lookup _ _ i j _ _ Hsorted Hij Hi Hj).
Qed.

End Trending.

Lemma getTrending_spec_witness :
  fst (API.getTrending API.new None (Sample.env_at 0 (JsonData Sample.data)))
  = Resolved ["Frontend"; "Testing"; "Backend"] /\
  (length ["Frontend"; "Testing"; "Backend"] <= 5)%nat.
Proof.
  split; [vm_compute; reflexivity|].
  destruct (getTrending_spec API.new None (Sample.env_at 0 (JsonData Sample.data))
              ["Frontend"; "Testing"; "Backend"]
              {| API.baseUrl := "/src/data.json"; API.cache := ∅;
                 API.fetched := ["/src/data.json"] |})
    as (d & _ & Hlen & _).
  - vm_compute; reflexivity.
  - exact Hlen.
Defined.

(** * Further properties of the hook *)

Module HookMore.
Import UseSearch HookFacts HookInvariants HookClaims.

Lemma find_inflight (h : Hook) (r : Request) :
  ids_ok h -> In r (inflight h) ->
  List.find (fun x => currentRequestId x =? currentRequestId r) (inflight h) = Some r.
Proof.
  intros [_ Hnd] Hr.
  destruct (find _ _) as [r'|] eqn:E.
  - apply find_some in E as [Hr' Hid]. apply Z.eqb_eq in Hid.
    f_equal. eapply NoDup_map_inj; eauto.
  - exfalso. apply (find_none _ _ E) in Hr. now rewrite Z.eqb_refl in Hr.
Qed.

(** What the settlement of the current request stores. *)
Lemma settle_current (h : Hook) (r : Request) (outcome : Promise (list SearchResult)) :
  ids_ok h -> In r (inflight h) -> currentRequestId r = requestIdRef h ->
  state (settle (currentRequestId r) outcome h)
  = match outcome with
    | Resolved rs =>
        {| results := rs; loading := false; error := None;
           query := query (state h) |}
    | Rejected e =>
        if signal_aborted (abortController r) h then state h
        else {| results := results (state h); loading := false;
                error := Some (message_of e); query := query (state h) |}
    end.
Proof.
  intros Hids Hr Hid. unfold settle. rewrite (find_inflight h r Hids Hr).
  unfold resume. simpl. rewrite Hid, Z.eqb_refl.
  destruct outcome as [rs|e]; [reflexivity|].
  change (signal_aborted (abortController r) (set_inflight _ h))
    with (signal_aborted (abortController r) h).
  destruct (signal_aborted (abortController r) h); simpl; [reflexivity|].
  destruct e; reflexivity.
Qed.

(** ** The spinner *)

Lemma spinner_ok_ext (h h' : Hook) :
  loading (state h') = loading (state h) -> inflight h' = inflight h ->
  requestIdRef h' = requestIdRef h -> controllers h' = controllers h ->
  spinner_ok h -> spinner_ok h'.
Proof.
  unfold spinner_ok, signal_aborted. intros -> -> -> ->. auto.
Qed.

Lemma performSearch_spinner (q : string) (h : Hook) :
  spinner_ok h -> spinner_ok (performSearch q h).
Proof.
  intros Hs. destruct (performSearch_cases q h) as [H|H].
  - rewrite performSearch_short by assumption. intros Hl. discriminate.
  - intros _. destruct (performSearch_long_fields q h H) as (Ei & Ec & Er).
    eexists. split; [rewrite Ei; apply in_or_app; right; left; reflexivity|].
    split; [simpl; now rewrite performSearch_long_requestId|].
    unfold signal_aborted. simpl. rewrite Ec.
    rewrite lookup_app_r by (rewrite aborted_ref_length; lia).
    now rewrite aborted_ref_length, Nat.sub_diag.
Qed.

Lemma fold_performSearch_spinner (due : list Timer) (h : Hook) :
  spinner_ok h ->
  spinner_ok (fold_left (fun h u => performSearch (timer_query u) h) due h).
Proof.
  revert h; induction due as [|u due IH]; intros h Hs; simpl; [exact Hs|].
  apply IH, performSearch_spinner, Hs.
Qed.

Lemma step_spinner (h : Hook) (e : Event) :
  e <> Unmount -> ids_ok h -> spinner_ok h -> spinner_ok (step h e).
Proof.
  intros He Hids Hs. destruct e as [q|q| | |t|i outcome]; simpl; [| | |congruence| |].
  - unfold setQuery, setTimeout. set (h1 := setState _ h).
    destruct (clear_pending_timeout_keeps h1) as (_ & K0 & K1 & _ & K2 & _ & _ & K3 & _).
    eapply (spinner_ok_ext h); [| | | |exact Hs]; simpl; rewrite ?K0, ?K1, ?K2, ?K3;
      reflexivity.
  - unfold setQueryImmediate. set (h1 := setState _ h).
    destruct (clear_pending_timeout_keeps h1) as (_ & K0 & K1 & _ & K2 & _ & _ & K3 & _).
    apply performSearch_spinner.
    eapply (spinner_ok_ext h); [| | | |exact Hs]; rewrite ?K0, ?K1, ?K2, ?K3;
      reflexivity.
  - unfold clearResults. intros Hl. discriminate.
  - unfold tick. destruct (now h <=? t); [|exact Hs].
    unfold run_timers.
    set (due := List.filter (fun u => deadline u <=? t) (timers h)).
    set (rest := List.filter (fun u => negb (deadline u <=? t)) (timers h)).
    pose proof (fold_performSearch_spinner due (set_timers rest h) Hs) as Hf.
    eapply spinner_ok_ext; [| | | |exact Hf]; reflexivity.
  - destruct (decide (i = requestIdRef h)) as [->|Hne].
    + unfold settle.
      destruct (find _ _) as [r|] eqn:Ef; [|exact Hs].
      apply find_some in Ef as [Hr Hid]. apply Z.eqb_eq in Hid.
      set (h1 := set_inflight _ h).
      unfold resume. change (requestIdRef h1) with (requestIdRef h).
      rewrite Hid, Z.eqb_refl.
      destruct outcome as [rs|err]; [intros Hl; discriminate|].
      change (signal_aborted (abortController r) h1)
        with (signal_aborted (abortController r) h).
      destruct (signal_aborted (abortController r) h) eqn:Ea; simpl;
        [|intros Hl; discriminate].
      intros Hl. destruct (Hs Hl) as (r' & Hr' & Hid' & Ha').
      assert (r' = r) as ->.
      { destruct Hids as [_ Hnd]. eapply NoDup_map_inj; eauto. congruence. }
      congruence.
    + intros Hl. destruct (settle_stale i outcome h Hne) as [Est _].
      rewrite Est in Hl. destruct (Hs Hl) as (r & Hr & Hid & Ha).
      exists r. unfold settle.
      destruct (find _ _) as [r0|]; [|auto].
      set (h1 := set_inflight _ h).
      destruct (resume_keeps r0 outcome h1) as (_ & R2 & _ & _ & R5 & _ & _ & _ & R9 & _).
      rewrite R9, R2. unfold signal_aborted. rewrite R5. simpl.
      split; [|split; [exact Hid | exact Ha]].
      apply filter_In. split; [exact Hr|].
      apply negb_true_iff, Z.eqb_neq. congruence.
Qed.

Lemma run_spinner (events : list Event) (h : Hook) :
  Forall (fun e => e <> Unmount) events ->
  ids_ok h /\ controllers_ok h /\ timers_ok h -> spinner_ok h ->
  spinner_ok (run h events).
Proof.
  revert h; induction events as [|e events IH]; intros h Hev Hok Hs; [exact Hs|].
  inversion Hev; subst. simpl. apply IH; [assumption|now apply step_ok|].
  apply step_spinner; tauto.
Qed.

Lemma mounted_reachable (h : Hook) : mounted h -> reachable h.
Proof. intros (opts & events & _ & ->). now exists opts, events. Qed.

(** X8. While the component is mounted, [loading] is never left set without a
    request to end it: whenever [loading] is true, the request with the
    current id is in flight and its controller is not aborted. *)
Theorem loading_has_live_request (h : Hook) :
  mounted h -> loading (state h) = true ->
  exists r, In r (inflight h) /\
            currentRequestId r = requestIdRef h /\
            signal_aborted (abortController r) h = false.
Proof.
  intros (opts & events & Hev & ->).
  apply run_spinner; [exact Hev | apply mount_ok|].
  intros Hl. discriminate.
Qed.

(** ** Short queries *)

(** X9. A query shorter than [minQueryLength] resets the results but neither
    aborts the request in flight nor moves the request counter: the request
    stays current, and when it resolves its results are stored next to the
    short query. *)
Theorem short_query_keeps_request (h : Hook) (r : Request) (q : string)
    (rs : list SearchResult) :
  reachable h -> In r (inflight h) -> currentRequestId r = requestIdRef h ->
  Z.of_nat (String.length q) < minQueryLength (options h) ->
  let h1 := performSearch q h in
  state h1 = {| results := []; loading := false; error := None; query := q |} /\
  requestIdRef h1 = requestIdRef h /\
  controllers h1 = controllers h /\
  inflight h1 = inflight h /\
  state (settle (currentRequestId r) (Resolved rs) h1)
  = {| results := rs; loading := false; error := None; query := q |}.
Proof.
  intros Hreach Hr Hid Hq h1.
  assert (E : h1 = setState (fun _ => {| results := []; loading := false;
                                          error := None; query := q |})
                     (logger (searchStarted q) h)).
  { subst h1. now apply performSearch_short. }
  destruct (performSearch_short_fields q h Hq) as (Ei & Ec & _ & Er).
  fold h1 in Ei, Ec, Er.
  split; [rewrite E; reflexivity|].
  split; [exact Er|]. split; [exact Ec|]. split; [exact Ei|].
  destruct (reachable_ok h Hreach) as (Hids & _).
  assert (Hids1 : ids_ok h1) by (now apply performSearch_ids).
  rewrite (settle_current h1 r (Resolved rs) Hids1); [|now rewrite Ei|congruence].
  rewrite E. reflexivity.
Qed.

(** ** Clearing and immediate searches *)

Lemma tick_idle (t : Z) (h : Hook) :
  timers h = [] -> timers (tick t h) = [] /\ searched (tick t h) = searched h.
Proof.
  intros E. unfold tick, run_timers. destruct (now h <=? t); [|auto].
  rewrite E. simpl. auto.
Qed.

Lemma wait_idle (ts : list Z) (h : Hook) :
  timers h = [] -> searched (run h (map Tick ts)) = searched h.
Proof.
  revert h; induction ts as [|t ts IH]; intros h E; [reflexivity|].
  simpl. destruct (tick_idle t h E) as [E1 E2]. now rewrite IH.
Qed.

(** X10. [clearResults] puts the state back to the initial one, leaves no
    timeout pending and no controller un-aborted, so that no search starts
    later on its own and a failure of a request still in flight stays
    silent. *)
Theorem clearResults_cancels (h : Hook) :
  reachable h ->
  let h1 := clearResults h in
  state h1 = initial_state /\
  timers h1 = [] /\
  (forall c, controllers h1 !! c <> Some false) /\
  (forall ts, searched (run h1 (map Tick ts)) = searched h) /\
  (forall r e, In r (inflight h1) ->
     state (settle (currentRequestId r) (Rejected e) h1) = initial_state).
Proof.
  intros Hreach h1.
  destruct (reachable_ok h Hreach) as (Hids & Hc & Ht).
  destruct (abort_current_keeps h) as (_ & _ & A2 & A3 & A5 & A6 & _ & _ & A8 & A9).
  assert (Ht1 : timers_ok (abort_current h)) by (eapply timers_ok_ext; eauto).
  destruct (clear_pending_timeout_keeps (abort_current h))
    as (_ & _ & K2 & K4 & K3 & _ & _ & K1 & K9).
  assert (Etimers : timers h1 = []).
  { subst h1. unfold clearResults. simpl. now apply clear_pending_timeout_timers. }
  assert (Ectl : controllers h1 = aborted_ref h).
  { subst h1. unfold clearResults. simpl. rewrite K3.
    unfold abort_current, aborted_ref. destruct (abortControllerRef h); reflexivity. }
  assert (Elive : forall c, controllers h1 !! c <> Some false).
  { intros c. rewrite Ectl. apply aborted_ref_live. apply Hc. }
  split; [reflexivity|]. split; [exact Etimers|]. split; [exact Elive|]. split.
  - intros ts. rewrite (wait_idle ts h1 Etimers).
    subst h1. unfold clearResults, searched. simpl. now rewrite K9, A9.
  - intros r e Hr.
    assert (Hok1 : ids_ok h1 /\ controllers_ok h1 /\ timers_ok h1).
    { apply (step_ok h ClearResults). auto. }
    destruct Hok1 as (Hids1 & (Hlt1 & _) & _).
    change (state h1) with initial_state in *.
    destruct (decide (currentRequestId r = requestIdRef h1)) as [Hid|Hne].
    + rewrite (settle_current h1 r (Rejected e) Hids1 Hr Hid).
      assert (Ha : signal_aborted (abortController r) h1 = true).
      { unfold signal_aborted. rewrite Forall_forall in Hlt1.
        apply list_elem_of_In, Hlt1 in Hr.
        destruct (lookup_lt_is_Some_2 _ _ Hr) as [b Hb]. rewrite Hb.
        destruct b; [reflexivity|]. now apply Elive in Hb. }
      now rewrite Ha.
    + now destruct (settle_stale (currentRequestId r) (Rejected e) h1 Hne).
Qed.

Lemma tick_idle_fields (t : Z) (h : Hook) :
  timers h = [] ->
  timers (tick t h) = [] /\ inflight (tick t h) = inflight h /\
  requestIdRef (tick t h) = requestIdRef h /\
  controllers (tick t h) = controllers h /\ state (tick t h) = state h.
Proof.
  intros E. unfold tick, run_timers. destruct (now h <=? t); [|auto].
  rewrite E. simpl. auto.
Qed.

Lemma wait_idle_fields (ts : list Z) (h : Hook) :
  timers h = [] ->
  timers (run h (map Tick ts)) = [] /\
  inflight (run h (map Tick ts)) = inflight h /\
  requestIdRef (run h (map Tick ts)) = requestIdRef h /\
  controllers (run h (map Tick ts)) = controllers h /\
  state (run h (map Tick ts)) = state h.
Proof.
  revert h; induction ts as [|t ts IH]; intros h E; [simpl; auto|].
  simpl. destruct (tick_idle_fields t h E) as (E1 & E2 & E3 & E4 & E5).
  destruct (IH (tick t h) E1) as (I1 & I2 & I3 & I4 & I5).
  repeat split; congruence.
Qed.

(** X11. [setQueryImmediate] cancels the search a preceding [setQuery] had
    scheduled: [performSearch] runs for the immediate query alone, no
    timeout is left, and however long one waits the only request sent is
    the one for the immediate query (none when it is shorter than
    [minQueryLength]). *)
Theorem setQueryImmediate_cancels_debounce (h : Hook) (q0 q : string) (ts : list Z) :
  reachable h ->
  let h' := run (setQueryImmediate q (setQuery q0 h)) (map Tick ts) in
  searched h' = (searched h ++ [q])%list /\
  timers h' = [] /\
  requests_only h q h'.
Proof.
  intros Hreach h'. pose proof (reachable_ok h Hreach) as Hok.
  pose proof (step_ok h (SetQuery q0) Hok) as (_ & _ & Ht). simpl in Ht.
  pose proof (setQuery_same q0 h) as Hsame.
  subst h'. set (h1 := setQuery q0 h) in *.
  unfold setQueryImmediate. set (h2 := setState _ h1).
  assert (Ht2 : timers_ok h2) by exact Ht.
  pose proof (clear_pending_timeout_timers h2 Ht2) as Ec.
  destruct (clear_pending_timeout_keeps h2)
    as (K1 & _ & K2 & K3 & K4 & _ & _ & K5 & K9).
  set (h3 := clear_pending_timeout h2) in *.
  assert (Hsame3 : same_requests h3 h).
  { eapply same_requests_trans; [|exact Hsame].
    repeat split; assumption. }
  destruct (performSearch_timers q h3) as (T1 & _).
  assert (Etimers : timers (performSearch q h3) = []) by (now rewrite T1).
  destruct (wait_idle_fields ts _ Etimers) as (W1 & W2 & W3 & W4 & W5).
  split; [|split].
  - rewrite wait_idle by exact Etimers.
    rewrite performSearch_searched. f_equal.
    unfold searched. destruct Hsame3 as (_ & _ & _ & _ & _ & ->). reflexivity.
  - exact W1.
  - pose proof (performSearch_sends q h3 h Hsame3) as [Hlong Hshort].
    unfold requests_only. rewrite W2, W3, W4, W5. split; assumption.
Qed.

Section WithRuntime.
Context `{RT : Runtime}.

(** X12. The request of the hook asks for 3 results when the query is
    shorter than 3, for 6 when it is shorter than 6 and for 10 otherwise:
    when the service goes to the network for it, the hook receives the
    first 3, 6 or 10 of the ranked matches; and whatever the service
    answers (its cache filled by calls with limits that are not negative)
    holds no more than that many results, all matching the query. *)
Theorem performAPISearch_limit (ds : list (list SearchResult)) (api : API.SearchAPI)
    (q : string) (signal : AbortSignal) (env : Env)
    (rs : list SearchResult) (api' : API.SearchAPI) (limit : nat) :
  History.cache_sound ds api ->
  performAPISearch api q signal env = (Resolved rs, api') ->
  ((String.length q < 3)%nat /\ limit = 3%nat) \/
  ((3 <= String.length q < 6)%nat /\ limit = 6%nat) \/
  ((6 <= String.length q)%nat /\ limit = 10%nat) ->
  (length rs <= limit)%nat /\
  (forall r, In r rs ->
     substring_of (toLowerCase q) (toLowerCase (concatenation r))) /\
  (API.cache_get api (API.cacheKey q (Z.of_nat limit) 0) (Date_now env) = None ->
   exists allResults,
     response env = JsonData allResults /\
     rs = take limit (sortResults (filterResults allResults q) q)).
Proof.
  intros Hs Hcall Hlimit.
  assert (El : limit_for q = Z.of_nat limit).
  { unfold limit_for.
    destruct Hlimit as [[H ->]|[[H ->]|[H ->]]].
    - apply Nat.ltb_lt in H. now rewrite H.
    - destruct H as [H3 H6]. apply Nat.ltb_ge in H3. apply Nat.ltb_lt in H6.
      now rewrite H3, H6.
    - assert (H3 : (3 <= String.length q)%nat) by lia.
      apply Nat.ltb_ge in H3. apply Nat.ltb_ge in H. now rewrite H3, H. }
  unfold performAPISearch in Hcall. rewrite El in Hcall.
  destruct (API.search api _ (Some signal) env) as [[resp|e] api1] eqn:Hsearch;
    [|discriminate].
  injection Hcall as <- <-.
  set (c := {| History.params := {| API.p_query := q;
                                    API.p_limit := Some (Z.of_nat limit);
                                    API.p_offset := None |};
               History.signal := Some signal; History.env := env |}).
  assert (Hl : 0 <= Z.of_nat limit) by lia.
  split; [|split].
  - destruct (search_sound ds api c _ _ Hs Hl Hsearch) as [_ Hresp].
    destruct (Hresp resp eq_refl) as (d & t & _ & ->).
    apply Nat2Z.inj_le.
    exact (slice_length_limit
             (sortResults (filterResults d q) q) 0 (Z.of_nat limit) Hl).
  - destruct (search_sound ds api c _ _ Hs Hl Hsearch) as [_ Hresp].
    destruct (Hresp resp eq_refl) as (d & t & _ & ->).
    intros r Hr. now apply build_response_results in Hr.
  - intros Hmiss.
    destruct (search_miss api (History.params c) (Some signal) env Hmiss _ _ Hsearch)
      as (d & Hd & -> & _).
    exists d. split; [exact Hd|]. simpl.
    rewrite slice_nonneg by lia.
    replace (Z.to_nat (0 + Z.of_nat limit) - Z.to_nat 0)%nat with limit by lia.
    reflexivity.
Qed.

(** X13. When the current request of the hook fails and is not aborted, the
    state takes the message of the error (for a response that is not ok,
    "HTTP error! status: n"), [loading] ends, and the results shown before
    stay. *)
Theorem failure_surfaces (h : Hook) (api : API.SearchAPI) (r : Request)
    (env : Env) (e : JsError) (api' : API.SearchAPI) :
  reachable h -> In r (inflight h) -> currentRequestId r = requestIdRef h ->
  signal_aborted (abortController r) h = false ->
  performAPISearch api (request_query r)
    {| aborted := signal_aborted (abortController r) h |} env = (Rejected e, api') ->
  state (fst (answer r env (h, api)))
  = {| results := results (state h); loading := false;
       error := Some (message_of e); query := query (state h) |} /\
  match response env with
  | FetchRejected reason => e = reason
  | ResponseNotOk status => e = Error ("HTTP error! status: " +:+ pretty status)
  | JsonRejected reason => e = reason
  | JsonData _ => False
  end.
Proof.
  intros Hreach Hr Hid Ha Hcall.
  destruct (reachable_ok h Hreach) as (Hids & _).
  split.
  - unfold answer. rewrite Hcall. simpl.
    rewrite (settle_current h r (Rejected e) Hids Hr Hid). now rewrite Ha.
  - unfold performAPISearch in Hcall.
    destruct (API.search _ _ _ _) as [[resp|e0] api0] eqn:Hs; [discriminate|].
    injection Hcall as <- <-.
    apply (rejected_reason _ _ _ _ _ _ Hs). simpl. exact Ha.
Qed.

(** ** What the user sees *)

(** X14. The error view is shown for the failure of the current request exactly
    when the message of the error is not empty: an error with an empty
    message ends [loading] but is not displayed as an error. *)
Theorem error_view (h : Hook) (r : Request) (e : JsError) :
  reachable h -> In r (inflight h) -> currentRequestId r = requestIdRef h ->
  signal_aborted (abortController r) h = false ->
  let s := state (settle (currentRequestId r) (Rejected e) h) in
  (message_of e <> "" -> SearchResults.render s = SearchResults.error_state (message_of e)) /\
  (message_of e = "" -> forall m, SearchResults.render s <> SearchResults.error_state m) /\
  loading s = false.
Proof.
  intros Hreach Hr Hid Ha s.
  destruct (reachable_ok h Hreach) as (Hids & _).
  assert (E : s = {| results := results (state h); loading := false;
                     error := Some (message_of e); query := query (state h) |}).
  { subst s. rewrite (settle_current h r (Rejected e) Hids Hr Hid). now rewrite Ha. }
  rewrite E. unfold SearchResults.render, SearchResults.SearchResults. simpl.
  split; [|split; [|reflexivity]].
  - intros Hm. destruct (message_of e); [congruence | reflexivity].
  - intros -> m. simpl.
    destruct (negb _); [discriminate|]. destruct (_ =? _)%nat; discriminate.
Qed.

(** X15. While the component is mounted, the loading view is only shown while
    the current request is in flight and not aborted. *)
Theorem loading_view (h : Hook) (q : string) :
  mounted h ->
  SearchResults.render (state h) = SearchResults.loading_state q ->
  q = query (state h) /\
  exists r, In r (inflight h) /\
            currentRequestId r = requestIdRef h /\
            signal_aborted (abortController r) h = false.
Proof.
  intros Hm Hv.
  assert (Hl : loading (state h) = true /\ q = query (state h)).
  { unfold SearchResults.render, SearchResults.SearchResults in Hv.
    destruct (loading (state h)).
    - destruct (error (state h)) as [m|]; [destruct (SearchInput.truthy m)|];
        try discriminate; injection Hv as <-; auto.
    - destruct (error (state h)) as [m|]; [destruct (SearchInput.truthy m)|];
        try discriminate;
        destruct (negb _); try discriminate; destruct (_ =? _)%nat; discriminate. }
  destruct Hl as [Hl ->]. split; [reflexivity|].
  destruct Hm as (opts & events & Hev & ->). revert Hl.
  apply run_spinner; [exact Hev | apply mount_ok|].
  intros Hl. discriminate.
Qed.

End WithRuntime.

End HookMore.

(** * Further properties of the ranking *)

Section RankingMore.
Context `{RT : Runtime}.

(** X16. On results whose dates parse, the comparator of [sortResults] is a
    consistent comparator, as [Array.prototype.sort] requires: a result
    compares equal to itself, swapping the arguments swaps the sign, and
    "not after" is transitive. *)
Theorem relevance_consistent (q : string) (a b c : SearchResult) :
  valid_date a -> valid_date b -> valid_date c ->
  JS.SortCompare (relevance q) a a = 0 /\
  (JS.SortCompare (relevance q) a b < 0 <-> 0 < JS.SortCompare (relevance q) b a) /\
  (JS.SortCompare (relevance q) a b = 0 <-> JS.SortCompare (relevance q) b a = 0) /\
  (JS.SortCompare (relevance q) a b <= 0 -> JS.SortCompare (relevance q) b c <= 0 ->
   JS.SortCompare (relevance q) a c <= 0).
Proof.
  intros Ha Hb Hc.
  assert (K : forall x y, valid_date x -> valid_date y ->
    (rank q x < rank q y /\ JS.SortCompare (relevance q) x y = -1) \/
    (rank q y < rank q x /\ JS.SortCompare (relevance q) x y = 1) \/
    (rank q x = rank q y /\
     JS.SortCompare (relevance q) x y = time_of y - time_of x)).
  { intros x y Hx Hy.
    destruct (Z.lt_trichotomy (rank q x) (rank q y)) as [H|[H|H]].
    - left. split; [exact H | now apply relevance_rank_lt].
    - right; right. split; [exact H | now apply relevance_valid_eq].
    - right; left. split; [exact H | now apply relevance_rank_gt]. }
  pose proof (K a a Ha Ha). pose proof (K a b Ha Hb). pose proof (K b a Hb Ha).
  pose proof (K b c Hb Hc). pose proof (K a c Ha Hc).
  repeat split; lia.
Qed.

(** X17. One Invalid Date is enough to make the comparator of [sortResults]
    inconsistent: next to a result whose date does not parse, two results
    of the same rank with different valid dates both compare equal to it
    while they do not compare equal to each other. *)
Theorem relevance_intransitive (q : string) (a b c : SearchResult) :
  rank q a = rank q b -> rank q b = rank q c ->
  valid_date a -> valid_date c -> Date_getTime (date b) = NaN ->
  time_of a <> time_of c ->
  JS.SortCompare (relevance q) a b = 0 /\
  JS.SortCompare (relevance q) b c = 0 /\
  JS.SortCompare (relevance q) a c <> 0.
Proof.
  intros Hab Hbc Ha Hc Hb Hne.
  unfold JS.SortCompare.
  rewrite (relevance_rank_eq q a b Hab), (relevance_rank_eq q b c Hbc), Hb.
  split; [destruct (Date_getTime (date a)); reflexivity|].
  split; [destruct (Date_getTime (date c)); reflexivity|].
  change (JS.SortCompare (relevance q) a c <> 0).
  rewrite relevance_valid_eq by (auto; congruence). lia.
Qed.

Lemma sort_sorted_input (q : string) (xs : list SearchResult) :
  forall acc,
  Forall valid_date (acc ++ xs) ->
  StronglySorted (ranks_before q) (acc ++ xs) ->
  fold_left (fun sorted x => JS.insert (relevance q) x sorted) xs acc
  = (acc ++ xs)%list.
Proof.
  induction xs as [|x xs IH]; intros acc Hv Hs; simpl.
  - now rewrite app_nil_r.
  - assert (E : JS.insert (relevance q) x acc = (acc ++ [x])%list).
    { apply insert_last.
      pose proof (StronglySorted_before _ _ _ _ Hs) as Hall.
      assert (Vx : valid_date x).
      { rewrite Forall_forall in Hv. apply Hv, list_elem_of_In, in_or_app.
        right. now left. }
      assert (Vacc : Forall valid_date acc).
      { apply Forall_app in Hv. tauto. }
      clear - Hall Vx Vacc.
      induction acc as [|y acc IH]; [constructor|].
      inversion Hall as [|? ? Hyx Hall']; subst.
      inversion Vacc as [|? ? Vy Vacc']; subst.
      constructor; [|now apply IH].
      destruct Hyx as [Hlt|[Heq Ht]].
      - rewrite (relevance_rank_gt q x y Hlt). lia.
      - rewrite relevance_valid_eq by auto. lia. }
    rewrite E. rewrite IH; rewrite <- app_assoc; auto.
Qed.

(** X18. Sorting is idempotent on results whose dates parse: a list that
    [sortResults] has put in order is returned as it is. *)
Theorem sortResults_idempotent (rs : list SearchResult) (q : string) :
  Forall valid_date rs ->
  sortResults (sortResults rs q) q = sortResults rs q.
Proof.
  intros Hv.
  assert (Hv' : Forall valid_date (sortResults rs q)).
  { apply Forall_forall. intros x Hx. rewrite Forall_forall in Hv.
    apply Hv. apply list_elem_of_In. apply list_elem_of_In in Hx.
    exact (Permutation_in x (sortResults_Permutation rs q) Hx). }
  rewrite (sortResults_stable (sortResults rs q) q Hv'). unfold JS.stable_sort.
  apply (sort_sorted_input q (sortResults rs q) []).
  - simpl. apply Forall_forall. intros x Hx. rewrite Forall_forall in Hv.
    apply Hv. apply list_elem_of_In. apply list_elem_of_In in Hx.
    exact (Permutation_in x (sortResults_Permutation rs q) Hx).
  - simpl. now apply sortResults_sorted.
Qed.

End RankingMore.

(** * Further properties of the URL mirror *)

Module SearchInputMore.
Import SearchInput SearchInputClaims.

Lemma delete_delete (name : string) (l : list (string * string)) :
  delete name (delete name l) = delete name l.
Proof.
  unfold delete. induction l as [|p l IH]; simpl; [reflexivity|].
  destruct (negb (String.eqb p.1 name)) eqn:E; simpl; [|exact IH].
  rewrite E. now f_equal.
Qed.

Lemma delete_set (name v : string) (l : list (string * string)) :
  delete name (set name v l) = delete name l.
Proof.
  induction l as [|p l IH]; simpl.
  - now rewrite String.eqb_refl.
  - destruct (String.eqb p.1 name) eqn:E; simpl; rewrite E; simpl.
    + apply delete_delete.
    + now f_equal.
Qed.

Lemma count_delete (name : string) (l : list (string * string)) :
  List.filter (fun p => String.eqb (fst p) name) (delete name l) = [].
Proof.
  unfold delete. induction l as [|p l IH]; simpl; [reflexivity|].
  destruct (String.eqb p.1 name) eqn:E; simpl; [exact IH|].
  rewrite E. exact IH.
Qed.

Lemma count_set (name v : string) (l : list (string * string)) :
  exists n, List.filter (fun p => String.eqb (fst p) name) (set name v l) = [(n, v)]
            /\ String.eqb n name = true.
Proof.
  induction l as [|p l IH]; simpl.
  - exists name. rewrite String.eqb_refl. auto using String.eqb_refl.
  - destruct (String.eqb p.1 name) eqn:E; simpl; rewrite E.
    + exists p.1. rewrite count_delete. auto.
    + exact IH.
Qed.

Section WithRuntime.
Context `{RT : Runtime}.

(** X19. The URL update touches the [q] parameter only: the other parameters
    keep their values and their order, path and fragment stay, and after it
    [q] occurs once (for a query that is not blank) or not at all, also when
    the URL held several [q] before. *)
Theorem update_url_keeps_the_rest (v : string) (p : Page) :
  let before := searchParams (location p) in
  let after := searchParams (location (update_url v p)) in
  delete "q" after = delete "q" before /\
  List.filter (fun x => String.eqb (fst x) "q") after
  = (if truthy (trim v) then [("q", trim v)] else []) /\
  origin_and_path (location (update_url v p)) = origin_and_path (location p) /\
  hash (location (update_url v p)) = hash (location p) /\
  log (update_url v p) = (log p ++ [urlUpdated (location (update_url v p))])%list.
Proof.
  unfold update_url. destruct (truthy (trim v)); simpl.
  - split; [apply delete_set|]. split; [|auto].
    destruct (count_set "q" (trim v) (searchParams (location p))) as (n & -> & Hn).
    apply String.eqb_eq in Hn. now subst n.
  - split; [apply delete_delete|]. split; [apply count_delete | auto].
Qed.

Lemma mirrors_after_wait (p : Page) (v : string) (times : list Z) :
  reachable_page p ->
  v <> value p ->
  now p + 1000 <= now (wait (render v p) times) ->
  mirrors (location (wait (render v p) times)) v.
Proof.
  intros Hr Hv Hnow.
  pose proof (render_settled_or_pending p v (reachable_one_timer p Hr) Hv) as H0.
  apply (wait_settled_or_pending p v times) in H0.
  destruct H0 as [(_ & Hn & _)|(_ & Hm & _)]; [lia | exact Hm].
Qed.

Lemma tick_pending (t due : Z) (v : string) (p : Page) :
  pending p = [(due, v)] -> now p <= t -> t < due ->
  pending (tick t p) = [(due, v)] /\ now (tick t p) = t /\
  location (tick t p) = location p /\ log (tick t p) = log p /\
  value (tick t p) = value p.
Proof.
  intros Et Hn Hd. unfold tick, run_timers, pending in *.
  apply Z.leb_le in Hn. rewrite Hn.
  destruct (timers p) as [|u [|u' us]]; try discriminate.
  injection Et as E1 E2. cbn [List.filter]. rewrite E1.
  assert (F : (due <=? t) = false) by (apply Z.leb_gt; lia).
  rewrite F. simpl. rewrite E1, E2. auto.
Qed.

Lemma edits_pending (changes : list (Z * string)) :
  forall (p : Page),
  one_timer p ->
  pending p = [(now p + 1000, value p)] ->
  rapid 1000 (now p) changes -> changing (value p) changes ->
  let p' := run p (edits changes) in
  location p' = location p /\ log p' = log p /\
  value p' = snd (List.last changes (now p, value p)) /\
  now p' = fst (List.last changes (now p, value p)) /\
  pending p' = [(fst (List.last changes (now p, value p)) + 1000,
                 snd (List.last changes (now p, value p)))].
Proof.
  induction changes as [|[t v] changes IH]; intros p Hok Et Hr Hc.
  - simpl. auto.
  - cbv zeta. rewrite (HookClaims.last_cons (t, v) (now p, value p) changes).
    simpl in Hr, Hc. destruct Hr as [Hgap Hr]. destruct Hc as [Hv Hc].
    destruct (tick_pending t _ _ p Et) as (T1 & T2 & T3 & T4 & T5); [lia..|].
    pose proof (tick_one_timer t p Hok) as Hok1.
    set (p1 := tick t p) in *.
    rewrite <- T5 in Hv.
    destruct (render_changed v p1 Hok1 Hv)
      as (Rp & Rok & Rv & Rn & Rl & Rlog & _).
    change (run p (edits ((t, v) :: changes)))
      with (run (render v p1) (edits changes)).
    destruct (IH (render v p1) Rok) as (I1 & I2 & I3 & I4 & I5).
    { now rewrite Rp, Rn, Rv. }
    { now rewrite Rn, T2. }
    { now rewrite Rv. }
    rewrite Rn, Rv, T2 in *.
    repeat split; congruence.
Qed.

(** X20. While [value] keeps changing, each change sooner than one second
    after the one before, the URL is not touched and nothing is logged,
    and the cleanup of the effect leaves one timeout pending, that of the
    last value; when that one has run, the URL has been written once, with
    the last value: no intermediate value ever reaches the address bar. *)
Theorem rapid_changes_leave_url (p : Page) (v : string)
    (changes : list (Z * string)) (times : list Z) :
  reachable_page p ->
  v <> value p ->
  rapid 1000 (now p) changes -> changing v changes ->
  let final := List.last changes (now p, v) in
  let p' := run (render v p) (edits changes) in
  (location p' = location p /\ log p' = log p /\
   pending p' = [(fst final + 1000, snd final)]) /\
  (fst final + 1000 <= now (wait p' times) ->
   mirrors (location (wait p' times)) (snd final) /\
   log (wait p' times)
   = (log p ++ [urlUpdated (location (wait p' times))])%list).
Proof.
  intros Hreach Hv Hr Hc final p'.
  destruct (render_changed v p (reachable_one_timer p Hreach) Hv)
    as (Rp & Rok & Rv & Rn & Rl & Rlog & _).
  destruct (edits_pending changes (render v p) Rok) as (I1 & I2 & I3 & I4 & I5).
  { now rewrite Rp, Rn, Rv. }
  { now rewrite Rn. }
  { now rewrite Rv. }
  rewrite Rn, Rv in *. fold final in I3, I4, I5. fold p' in I1, I2, I3, I4, I5.
  split; [repeat split; congruence|].
  intros Hnow.
  assert (H0 : settled_or_pending p' (snd final) p').
  { left. rewrite I4. repeat split; auto; lia. }
  apply (wait_settled_or_pending p' (snd final) times) in H0.
  destruct H0 as [(_ & Hn & _)|(_ & Hm & _ & _ & Hlog & _)]; [lia|].
  split; [exact Hm|]. now rewrite Hlog, I2, Rlog.
Qed.

(** X21. The query written to the URL comes back when the page is opened
    at that URL: [App] reads [q] and, when the trimmed value has the two
    characters [App] asks for, sends the request for it at once, without
    debounce; a value of one character is put in the state but not
    requested, and for a blank value the URL has no [q] and nothing
    starts.  ([trim] is idempotent in every engine.) *)
Theorem url_round_trip (p : Page) (v : string) (times : list Z) :
  reachable_page p ->
  v <> value p ->
  now p + 1000 <= now (wait (render v p) times) ->
  trim (trim v) = trim v ->
  let h := App.mount (location (wait (render v p) times)) in
  ((2 <= String.length (trim v))%nat ->
   UseSearch.inflight h
   = [{| UseSearch.currentRequestId := 1; UseSearch.abortController := 0%nat;
         UseSearch.request_query := trim v |}] /\
   UseSearch.requestIdRef h = 1 /\
   UseSearch.controllers h = [false] /\
   UseSearch.state h
   = {| UseSearch.results := []; UseSearch.loading := true;
        UseSearch.error := None; UseSearch.query := trim v |} /\
   UseSearch.timers h = []) /\
  (String.length (trim v) = 1%nat ->
   UseSearch.inflight h = [] /\
   UseSearch.requestIdRef h = 0 /\
   UseSearch.controllers h = [] /\
   UseSearch.state h
   = {| UseSearch.results := []; UseSearch.loading := false;
        UseSearch.error := None; UseSearch.query := trim v |} /\
   UseSearch.timers h = []) /\
  (String.length (trim v) = 0%nat -> h = UseSearch.mount App.options).
Proof.
  intros Hr Hv Hnow Hidem h.
  pose proof (mirrors_after_wait p v times Hr Hv Hnow) as Hm.
  unfold mirrors in Hm. subst h. unfold App.mount. rewrite Hm.
  destruct (trim v) as [|c w] eqn:Et; cbn [truthy].
  - split; [intros H; simpl in H; lia|].
    split; [intros H; simpl in H; discriminate | intros _; reflexivity].
  - rewrite Hidem. cbn [truthy andb].
    unfold UseSearch.setQueryImmediate.
    set (h1 := UseSearch.clear_pending_timeout _).
    split; [|split].
    + intros Hlen.
      rewrite HookFacts.performSearch_long
        by (cbn -[String.length]; lia).
      repeat split; reflexivity.
    + intros Hlen.
      rewrite HookFacts.performSearch_short
        by (cbn -[String.length]; lia).
      repeat split; reflexivity.
    + simpl. discriminate.
Qed.

End WithRuntime.

End SearchInputMore.

(** * The logger *)

Module LoggerFacts.
Import Logger.

(** X22. A message below the level of the configuration has no effect at all;
    otherwise it goes to the console only if [enableConsole] is set and to
    the remote endpoint only if [enableRemote] is set and an endpoint is
    configured, once each at most. *)
Theorem log_gating (config : LoggerConfig) (browser : Browser) (level_ : Z)
    (levelName message : string) (args : list (string * string)) :
  let effects := log config browser level_ levelName message args in
  (level_ < level config -> effects = []) /\
  (enableConsole config = false -> Forall (fun e => is_post e = true) effects) /\
  (enableRemote config = false -> Forall (fun e => is_post e = false) effects) /\
  (remoteEndpoint config = None -> Forall (fun e => is_post e = false) effects) /\
  (length effects <= 2)%nat.
Proof.
  unfold log, shouldLog, sendToRemote. simpl.
  split; [|split; [|split; [|split]]].
  - intros H. destruct (Z.leb_spec (level config) level_); [lia | reflexivity].
  - intros ->. destruct (negb _); [constructor|]. simpl.
    destruct (remoteEndpoint config); [|constructor].
    destruct (_ && _); repeat constructor.
  - intros ->. destruct (negb _); [constructor|]. simpl.
    apply Forall_app. split.
    + destruct (enableConsole config); [|constructor].
      repeat (destruct (_ =? _); [repeat constructor|]). constructor.
    + destruct (remoteEndpoint config); constructor.
  - intros ->. destruct (negb _); [constructor|].
    apply Forall_app. split; [|constructor].
    destruct (enableConsole config); [|constructor].
    repeat (destruct (_ =? _); [repeat constructor|]). constructor.
  - destruct (negb _); [simpl; lia|]. rewrite length_app.
    destruct (enableConsole config);
      [destruct (level_ =? DEBUG);
         [|destruct (level_ =? INFO);
             [|destruct (level_ =? WARN); [|destruct (level_ =? ERROR)]]]|];
      (destruct (remoteEndpoint config); [destruct (_ && _)|]); simpl; lia.
Qed.

Lemma posted_log (config : LoggerConfig) (browser : Browser) (level_ : Z)
    (levelName message : string) (args : list (string * string)) (body : Body) :
  In body (posted (log config browser level_ levelName message args)) ->
  body = {| body_level := levelName; body_message := message;
            body_timestamp := Date_toISOString_remote browser;
            body_userAgent := navigator_userAgent browser;
            body_url := window_location_href browser |}.
Proof.
  unfold posted, log, sendToRemote.
  destruct (negb _); [intros []|].
  rewrite omap_app.
  assert (E : forall l : list Effect,
            l = (if enableConsole config then
                   if level_ =? DEBUG
                   then [console_debug (formatMessage browser levelName message) args]
                   else if level_ =? INFO
                   then [console_info (formatMessage browser levelName message) args]
                   else if level_ =? WARN
                   then [console_warn (formatMessage browser levelName message) args]
                   else if level_ =? ERROR
                   then [console_error (formatMessage browser levelName message) args]
                   else []
                 else []) ->
            omap (fun e => match e with post _ b => Some b | _ => None end) l = []).
  { intros l ->. destruct (enableConsole config); [|reflexivity].
    repeat (destruct (_ =? _); [reflexivity|]). reflexivity. }
  cbv zeta. rewrite (E _ eq_refl). simpl.
  destruct (remoteEndpoint config); [|intros []].
  destruct (_ && _); [|intros []].
  simpl. intros [<-|[]]. reflexivity.
Qed.

(** X23. What the logger posts for a search event is made of the level
    name, the fixed message of the event, the time, the user agent and
    the URL of the page: none of the arguments of the event (query, error
    message, count, duration) is in the body, so that on a given page at a
    given time the POSTs are the same whatever these are.  The body does
    carry the URL of the page: once [SearchInput] has written the value
    [v] there, every POST made on that page holds [q] with the trimmed
    [v]. *)
Theorem remote_log_body `{RT : Runtime} (config : LoggerConfig)
    (browser : Browser) (q q' e e' : string) (n n' d d' : Z) :
  (List.filter is_post (searchError config browser q e)
   = List.filter is_post (searchError config browser q' e') /\
   List.filter is_post (searchCompleted config browser q n d)
   = List.filter is_post (searchCompleted config browser q' n' d') /\
   List.filter is_post (searchStarted config browser q)
   = List.filter is_post (searchStarted config browser q')) /\
  (forall body,
     In body (posted (searchError config browser q e
                      ++ searchCompleted config browser q n d
                      ++ searchStarted config browser q)) ->
     In (body_level body, body_message body)
       [("ERROR", "Search failed"); ("INFO", "Search completed");
        ("DEBUG", "Search started")] /\
     body_timestamp body = Date_toISOString_remote browser /\
     body_userAgent body = navigator_userAgent browser /\
     body_url body = window_location_href browser) /\
  (forall (p : SearchInput.Page) (v : string) (times : list Z) body,
     reachable_page p -> v <> SearchInput.value p ->
     SearchInput.now p + 1000
       <= SearchInput.now (wait (SearchInput.render v p) times) ->
     SearchInput.truthy (trim v) = true ->
     window_location_href browser
       = SearchInput.location (wait (SearchInput.render v p) times) ->
     In body (posted (searchError config browser q e)) ->
     SearchInput.get "q" (SearchInput.searchParams (body_url body))
     = Some (trim v)).
Proof.
  split; [|split].
  - unfold searchError, searchCompleted, searchStarted, error, info, debug, log,
      sendToRemote.
    repeat split;
      (destruct (negb _); [reflexivity|];
       rewrite !List.filter_app; f_equal;
       destruct (enableConsole config); reflexivity).
  - intros body Hb. unfold posted in Hb. rewrite !omap_app in Hb.
    apply in_app_or in Hb as [Hb|Hb]; [|apply in_app_or in Hb as [Hb|Hb]];
      apply posted_log in Hb; subst body; simpl; auto 10.
  - intros p v times body Hr Hv Hnow Ht Hhref Hb.
    apply posted_log in Hb. subst body. simpl. rewrite Hhref.
    pose proof (SearchInputMore.mirrors_after_wait p v times Hr Hv Hnow) as Hm.
    unfold mirrors in Hm. now rewrite Ht in Hm.
Qed.

(** X24. The two loggers the module ships: in production only failed searches
    are reported, by one POST to "/api/logs" and nothing on the console; in
    development every event is written to the console and nothing is
    posted. *)
Theorem shipped_loggers (browser : Browser) (q e url : string) (n d : Z) :
  searchStarted prodLogger browser q = [] /\
  searchCompleted prodLogger browser q n d = [] /\
  urlUpdated prodLogger browser url = [] /\
  urlError prodLogger browser e = [] /\
  searchError prodLogger browser q e
  = [post "/api/logs"
       {| body_level := "ERROR"; body_message := "Search failed";
          body_timestamp := Date_toISOString_remote browser;
          body_userAgent := navigator_userAgent browser;
          body_url := window_location_href browser |}] /\
  Forall (fun x => is_post x = false)
    (searchStarted devLogger browser q ++ searchCompleted devLogger browser q n d
     ++ searchError devLogger browser q e ++ urlUpdated devLogger browser url
     ++ urlError devLogger browser e) /\
  length (searchStarted devLogger browser q ++ searchCompleted devLogger browser q n d
          ++ searchError devLogger browser q e ++ urlUpdated devLogger browser url
          ++ urlError devLogger browser e) = 5%nat.
Proof. repeat split; repeat constructor. Qed.

End LoggerFacts.

(** * The further properties at concrete inputs *)

Lemma relevance_consistent_witness :
  valid_date Sample.react_hooks /\ valid_date Sample.react_testing /\
  JS.SortCompare (relevance "REACT") Sample.react_hooks Sample.react_testing
  = 38793600000 /\
  (JS.SortCompare (relevance "REACT") Sample.react_testing Sample.react_hooks < 0
   <-> 0 < JS.SortCompare (relevance "REACT") Sample.react_hooks Sample.react_testing).
Proof.
  assert (V1 : valid_date Sample.react_hooks) by (vm_compute; discriminate).
  assert (V2 : valid_date Sample.react_testing) by (vm_compute; discriminate).
  split; [exact V1|]. split; [exact V2|]. split; [vm_compute; reflexivity|].
  apply (relevance_consistent "REACT" Sample.react_testing Sample.react_hooks
           Sample.react_hooks V2 V1 V1).
Defined.

Lemma relevance_intransitive_witness :
  Date_getTime (date Scenario.undated) = NaN /\
  JS.SortCompare (relevance "REACT") Sample.react_hooks Scenario.undated = 0 /\
  JS.SortCompare (relevance "REACT") Scenario.undated Sample.react_testing = 0 /\
  JS.SortCompare (relevance "REACT") Sample.react_hooks Sample.react_testing <> 0.
Proof.
  split; [vm_compute; reflexivity|].
  apply (relevance_intransitive "REACT" Sample.react_hooks Scenario.undated
           Sample.react_testing).
  - vm_compute; reflexivity.
  - vm_compute; reflexivity.
  - vm_compute; discriminate.
  - vm_compute; discriminate.
  - vm_compute; reflexivity.
  - vm_compute; discriminate.
Defined.

Lemma sortResults_idempotent_witness :
  Forall valid_date Sample.data /\
  sortResults (sortResults Sample.data "e") "e"
  = [Sample.react_testing; Sample.typescript_tips; Sample.react_hooks;
     Sample.node_streams].
Proof.
  assert (V : Forall valid_date Sample.data)
    by (repeat constructor; vm_compute; discriminate).
  split; [exact V|].
  rewrite (sortResults_idempotent Sample.data "e" V). vm_compute; reflexivity.
Defined.

Lemma mounted_searching_react : mounted Scenario.searching_react.
Proof.
  exists Scenario.app_options, [UseSearch.SetQueryImmediate "react"].
  split; [repeat constructor; discriminate | reflexivity].
Defined.

Lemma reachable_searching_react : reachable Scenario.searching_react.
Proof.
  exists Scenario.app_options, [UseSearch.SetQueryImmediate "react"]. reflexivity.
Defined.

Lemma loading_has_live_request_witness :
  mounted Scenario.searching_react /\
  UseSearch.loading (UseSearch.state Scenario.searching_react) = true /\
  exists r, In r (UseSearch.inflight Scenario.searching_react) /\
            UseSearch.currentRequestId r
            = UseSearch.requestIdRef Scenario.searching_react /\
            UseSearch.signal_aborted (UseSearch.abortController r)
              Scenario.searching_react = false.
Proof.
  split; [exact mounted_searching_react|]. split; [vm_compute; reflexivity|].
  apply (HookMore.loading_has_live_request Scenario.searching_react
           mounted_searching_react).
  vm_compute; reflexivity.
Defined.

Lemma short_query_keeps_request_witness :
  reachable Scenario.searching_react /\
  Z.of_nat (String.length "r")
    < UseSearch.minQueryLength (UseSearch.options Scenario.searching_react) /\
  UseSearch.state
    (UseSearch.settle 1 (Resolved Sample.data)
       (UseSearch.performSearch "r" Scenario.searching_react))
  = {| UseSearch.results := Sample.data; UseSearch.loading := false;
       UseSearch.error := None; UseSearch.query := "r" |}.
Proof.
  split; [exact reachable_searching_react|]. split; [vm_compute; reflexivity|].
  destruct (HookMore.short_query_keeps_request Scenario.searching_react
              Scenario.react_request "r" Sample.data reachable_searching_react)
    as (_ & _ & _ & _ & H).
  - vm_compute; left; reflexivity.
  - vm_compute; reflexivity.
  - vm_compute; reflexivity.
  - exact H.
Defined.

Lemma clearResults_cancels_witness :
  reachable Scenario.searching_react /\
  UseSearch.state (UseSearch.clearResults Scenario.searching_react)
  = UseSearch.initial_state /\
  UseSearch.signal_aborted 0 (UseSearch.clearResults Scenario.searching_react)
  = true.
Proof.
  split; [exact reachable_searching_react|].
  split; [|vm_compute; reflexivity].
  apply (HookMore.clearResults_cancels Scenario.searching_react
           reachable_searching_react).
Defined.

Lemma setQueryImmediate_cancels_debounce_witness :
  reachable (UseSearch.mount Scenario.app_options) /\
  let h' := UseSearch.run
              (UseSearch.setQueryImmediate "react"
                 (UseSearch.setQuery "rea" (UseSearch.mount Scenario.app_options)))
              (map UseSearch.Tick [1000; 2000]) in
  UseSearch.searched h' = ["react"] /\
  UseSearch.timers h' = [] /\
  UseSearch.inflight h'
  = [{| UseSearch.currentRequestId := 1; UseSearch.abortController := 0%nat;
        UseSearch.request_query := "react" |}].
Proof.
  assert (R : reachable (UseSearch.mount Scenario.app_options)).
  { exists Scenario.app_options, []. reflexivity. }
  split; [exact R|].
  destruct (HookMore.setQueryImmediate_cancels_debounce
              (UseSearch.mount Scenario.app_options) "rea" "react" [1000; 2000] R)
    as (Hs & Ht & Hlong & _).
  split; [exact Hs|]. split; [exact Ht|].
  destruct Hlong as (Hin & _); [vm_compute; discriminate | exact Hin].
Defined.

Lemma performAPISearch_limit_witness :
  History.cache_sound [] API.new /\
  fst (UseSearch.performAPISearch API.new "e" Scenario.not_aborted
         (Sample.env_at 1793491200000 (JsonData Sample.data)))
  = Resolved [Sample.react_testing; Sample.typescript_tips; Sample.react_hooks] /\
  (String.length "e" < 3)%nat /\
  length (filterResults Sample.data "e") = 4%nat /\
  (length [Sample.react_testing; Sample.typescript_tips; Sample.react_hooks]
   <= 3)%nat /\
  exists allResults,
    response (Sample.env_at 1793491200000 (JsonData Sample.data))
    = JsonData allResults /\
    [Sample.react_testing; Sample.typescript_tips; Sample.react_hooks]
    = take 3 (sortResults (filterResults allResults "e") "e").
Proof.
  split; [apply cache_sound_new|]. split; [vm_compute; reflexivity|].
  split; [simpl; lia|]. split; [vm_compute; reflexivity|].
  destruct (HookMore.performAPISearch_limit [] API.new "e" Scenario.not_aborted
              (Sample.env_at 1793491200000 (JsonData Sample.data))
              [Sample.react_testing; Sample.typescript_tips; Sample.react_hooks]
              (snd (UseSearch.performAPISearch API.new "e" Scenario.not_aborted
                      (Sample.env_at 1793491200000 (JsonData Sample.data))))
              3%nat cache_sound_new) as (Hlen & _ & Hmiss).
  - vm_compute; reflexivity.
  - left. split; [simpl; lia | reflexivity].
  - split; [exact Hlen|]. apply Hmiss. reflexivity.
Defined.

Lemma failure_surfaces_witness :
  reachable Scenario.searching_react /\
  UseSearch.state
    (fst (UseSearch.answer Scenario.react_request Scenario.server_error
            (Scenario.searching_react, API.new)))
  = {| UseSearch.results := []; UseSearch.loading := false;
       UseSearch.error := Some "HTTP error! status: 500";
       UseSearch.query := "react" |}.
Proof.
  split; [exact reachable_searching_react|].
  destruct (HookMore.failure_surfaces Scenario.searching_react API.new
              Scenario.react_request Scenario.server_error
              (Error "HTTP error! status: 500")
              {| API.baseUrl := "/src/data.json"; API.cache := ∅;
                 API.fetched := ["/src/data.json"] |}
              reachable_searching_react) as (H & _).
  - vm_compute; left; reflexivity.
  - vm_compute; reflexivity.
  - vm_compute; reflexivity.
  - vm_compute; reflexivity.
  - exact H.
Defined.

Lemma error_view_witness :
  reachable Scenario.searching_react /\
  SearchResults.render
    (UseSearch.state
       (UseSearch.settle 1 (Rejected (Error "Failed to fetch"))
          Scenario.searching_react))
  = SearchResults.error_state "Failed to fetch" /\
  SearchResults.render
    (UseSearch.state
       (UseSearch.settle 1 (Rejected (Error "")) Scenario.searching_react))
  = SearchResults.no_results_state "react".
Proof.
  split; [exact reachable_searching_react|].
  split; [|vm_compute; reflexivity].
  destruct (HookMore.error_view Scenario.searching_react Scenario.react_request
              (Error "Failed to fetch") reachable_searching_react) as (H & _).
  - vm_compute; left; reflexivity.
  - vm_compute; reflexivity.
  - vm_compute; reflexivity.
  - apply H. discriminate.
Defined.

Lemma loading_view_witness :
  mounted Scenario.searching_react /\
  SearchResults.render (UseSearch.state Scenario.searching_react)
  = SearchResults.loading_state "react" /\
  "react" = UseSearch.query (UseSearch.state Scenario.searching_react).
Proof.
  split; [exact mounted_searching_react|]. split; [vm_compute; reflexivity|].
  apply (HookMore.loading_view Scenario.searching_react "react"
           mounted_searching_react).
  vm_compute; reflexivity.
Defined.

Lemma rapid_changes_leave_url_witness :
  let p := SearchInput.mount "" Scenario.home in
  let p' := SearchInput.run (SearchInput.render "r" p)
              (edits [(200, "re"); (700, "rea")]) in
  reachable_page p /\
  "r" <> SearchInput.value p /\
  rapid 1000 (SearchInput.now p) [(200, "re"); (700, "rea")] /\
  changing "r" [(200, "re"); (700, "rea")] /\
  SearchInput.location p' = Scenario.home /\
  pending p' = [(1700, "rea")] /\
  SearchInput.searchParams (SearchInput.location (wait p' [1000; 1800]))
  = [("q", "rea"); ("lang", "en")] /\
  length (SearchInput.log (wait p' [1000; 1800])) = 1%nat.
Proof.
  intros p p'.
  assert (R : reachable_page p) by (exists "", Scenario.home, []; reflexivity).
  assert (H1 : "r" <> SearchInput.value p) by discriminate.
  assert (H2 : rapid 1000 (SearchInput.now p) [(200, "re"); (700, "rea")])
    by (simpl; lia).
  assert (H3 : changing "r" [(200, "re"); (700, "rea")])
    by (simpl; repeat split; discriminate).
  split; [exact R|]. split; [exact H1|]. split; [exact H2|]. split; [exact H3|].
  destruct (SearchInputMore.rapid_changes_leave_url p "r"
              [(200, "re"); (700, "rea")] [1000; 1800] R H1 H2 H3)
    as ((Hl & _ & Hp) & Hlater).
  split; [exact Hl|]. split; [exact Hp|].
  split; [vm_compute; reflexivity|].
  destruct Hlater as (_ & Hlog); [vm_compute; discriminate|].
  fold p' in Hlog. rewrite Hlog. reflexivity.
Defined.

Lemma url_round_trip_witness :
  let p := SearchInput.mount "" Scenario.home in
  let h := App.mount (SearchInput.location
                        (wait (SearchInput.render "  react hooks " p) [500; 1200])) in
  reachable_page p /\
  "  react hooks " <> SearchInput.value p /\
  trim (trim "  react hooks ") = trim "  react hooks " /\
  UseSearch.inflight h
  = [{| UseSearch.currentRequestId := 1; UseSearch.abortController := 0%nat;
        UseSearch.request_query := "react hooks" |}] /\
  UseSearch.loading (UseSearch.state h) = true.
Proof.
  intros p h.
  assert (R : reachable_page p) by (exists "", Scenario.home, []; reflexivity).
  split; [exact R|].
  split; [discriminate|]. split; [vm_compute; reflexivity|].
  destruct (SearchInputMore.url_round_trip p "  react hooks " [500; 1200] R)
    as (H & _).
  - discriminate.
  - vm_compute; discriminate.
  - vm_compute; reflexivity.
  - destruct H as (Hin & _ & _ & Hst & _); [vm_compute; lia|].
    split; [exact Hin|]. fold h in Hst. now rewrite Hst.
Defined.

Lemma remote_log_body_witness :
  let p := SearchInput.mount "" Scenario.home in
  let page := wait (SearchInput.render "  react hooks " p) [500; 1200] in
  let browser :=
    {| Logger.Date_toISOString := "2026-11-01T10:00:00.000Z";
       Logger.Date_toISOString_remote := "2026-11-01T10:00:00.001Z";
       Logger.navigator_userAgent := "Mozilla/5.0";
       Logger.window_location_href := SearchInput.location page |} in
  reachable_page p /\
  posted (Logger.searchError Logger.prodLogger browser "react hooks"
            "HTTP error! status: 500")
  = [{| Logger.body_level := "ERROR"; Logger.body_message := "Search failed";
        Logger.body_timestamp := "2026-11-01T10:00:00.001Z";
        Logger.body_userAgent := "Mozilla/5.0";
        Logger.body_url := SearchInput.location page |}] /\
  SearchInput.get "q" (SearchInput.searchParams (SearchInput.location page))
  = Some "react hooks".
Proof.
  intros p page browser.
  assert (R : reachable_page p) by (exists "", Scenario.home, []; reflexivity).
  split; [exact R|]. split; [reflexivity|].
  destruct (LoggerFacts.remote_log_body Logger.prodLogger browser
              "react hooks" "" "HTTP error! status: 500" "" 0 0 0 0)
    as (_ & _ & H).
  apply (H p "  react hooks " [500; 1200]
           {| Logger.body_level := "ERROR"; Logger.body_message := "Search failed";
              Logger.body_timestamp := "2026-11-01T10:00:00.001Z";
              Logger.body_userAgent := "Mozilla/5.0";
              Logger.body_url := SearchInput.location page |} R).
  - discriminate.
  - vm_compute; discriminate.
  - vm_compute; reflexivity.
  - reflexivity.
  - left. reflexivity.
Defined.
